(** * try3D: the terrain pipeline of [AdvancedDroneVisualization]

    A shallow embedding of the geospatial pipeline of the drone-track viewer
    (centroid, local projection, elevation fetch with simulated fallback,
    re-gridding of elevation samples into a height matrix), and the
    properties its specification states about it.

    JavaScript numbers are IEEE 754 binary64 values: they are modelled by
    Rocq's primitive floats, whose operations are the same correctly rounded
    ones.  The pure part of the pipeline is written once over an interface
    of the number operations it uses, so that it can also be read in exact
    rational arithmetic where a property only holds up to rounding. *)

From Equations Require Import Equations.
From Stdlib Require Import String.
From Stdlib Require Import Floats ZArith QArith Qabs List Bool Lia Lqa Sorted.
Import ListNotations.

Set Warnings "-inexact-float".
Set Implicit Arguments.

(** ** Numbers *)

(** The operations on [number] that the component uses. *)
Class Number (N : Type) : Type := {
  of_Z : Z -> N;                      (* integer literals, [array.length] *)
  add : N -> N -> N;
  sub : N -> N -> N;
  mul : N -> N -> N;
  div : N -> N -> N;
  abs : N -> N;                       (* [Math.abs] *)
  ltb : N -> N -> bool;               (* [a < b] *)
  strict_eq : N -> N -> bool;         (* [a === b] *)
  same_value_zero : N -> N -> bool;   (* the equality of [Set] membership *)
  set_key : N -> N                    (* [Set.prototype.add] stores [+0] for [-0] *)
}.

Declare Scope num_scope.
Delimit Scope num_scope with num.
Infix "+" := add : num_scope.
Infix "-" := sub : num_scope.
Infix "*" := mul : num_scope.
Infix "/" := div : num_scope.
Infix "<?" := ltb : num_scope.
Infix "===" := strict_eq (at level 70, no associativity) : num_scope.

(** A decimal literal [n/d], rounded once. *)
Definition of_Q {N} `{Number N} (q : Q) : N :=
  div (of_Z (Qnum q)) (of_Z (Zpos (Qden q))).

(** Binary64, the numbers of the running program. *)
Definition float_of_Z (z : Z) : float :=
  match z with
  | Zneg p => PrimFloat.opp (PrimFloat.of_uint63 (Uint63.of_Z (Zpos p)))
  | _ => PrimFloat.of_uint63 (Uint63.of_Z z)
  end.

Definition float_same_value_zero (a b : float) : bool :=
  PrimFloat.eqb a b || (PrimFloat.is_nan a && PrimFloat.is_nan b).

Definition float_set_key (a : float) : float :=
  if PrimFloat.is_zero a then 0%float else a.

#[export] Instance float_number : Number float := {
  of_Z := float_of_Z;
  add := PrimFloat.add;
  sub := PrimFloat.sub;
  mul := PrimFloat.mul;
  div := PrimFloat.div;
  abs := PrimFloat.abs;
  ltb := PrimFloat.ltb;
  strict_eq := PrimFloat.eqb;
  same_value_zero := float_same_value_zero;
  set_key := float_set_key
}.

(** Exact rationals: the same program without rounding. *)
Definition Q_ltb (a b : Q) : bool := negb (Qle_bool b a).

#[export] Instance Q_number : Number Q := {
  of_Z := inject_Z;
  add := Qplus;
  sub := Qminus;
  mul := Qmult;
  div := Qdiv;
  abs := Qabs;
  ltb := Q_ltb;
  strict_eq := Qeq_bool;
  same_value_zero := Qeq_bool;
  set_key := fun q => q
}.

(** ** Data model *)

Section Pipeline.

Context {N : Type} `{Number N}.
Local Open Scope num_scope.

(** [TrackPoint] of [types/DroneTypes.ts]. *)
Record TrackPoint : Type := {
  tp_latitude : N;
  tp_longitude : N;
  tp_altitude : N
}.

(** The value of [centerPoint]. *)
Record Center : Type := {
  c_latitude : N;
  c_longitude : N
}.

(** An entry of [elevationData] (and of the service's [results]). *)
Record ElevationSample : Type := {
  es_longitude : N;
  es_latitude : N;
  es_elevation : N
}.

(** The value of [convertToRelativeCoords]. *)
Record RelCoords : Type := {
  rc_x : N;
  rc_y : N;
  rc_z : N
}.

(** [array.length] as a number. *)
Definition length_number {A} (l : list A) : N :=
  of_Z (Z.of_nat (length l)).

(** ** The center point

    [[
    const sumLat = trackPoints.reduce((sum, point) => sum + point.latitude, 0);
    const sumLng = trackPoints.reduce((sum, point) => sum + point.longitude, 0);
    return { latitude: sumLat / trackPoints.length,
             longitude: sumLng / trackPoints.length };
    ]] *)
Definition centerPoint (trackPoints : list TrackPoint) : Center :=
  let sumLat := fold_left (fun sum point => sum + tp_latitude point) trackPoints (of_Z 0) in
  let sumLng := fold_left (fun sum point => sum + tp_longitude point) trackPoints (of_Z 0) in
  {| c_latitude := sumLat / length_number trackPoints;
     c_longitude := sumLng / length_number trackPoints |}.

(** ** Local projection

    [[
    const scale = 111320;
    const x = (lng - centerPoint.longitude) * scale;
    const y = (lat - centerPoint.latitude) * scale;
    return { x, y, z: elev };
    ]] *)
Definition scale : N := of_Z 111320.

Definition convertToRelativeCoords (centerPoint : Center) (lng lat elev : N) : RelCoords :=
  let x := (lng - c_longitude centerPoint) * scale in
  let y := (lat - c_latitude centerPoint) * scale in
  {| rc_x := x; rc_y := y; rc_z := elev |}.

(** ** Arrays, sets and sorting

    A JavaScript array may have holes: an entry never assigned reads
    [undefined].  [a[i] = v] overwrites within bounds and extends the array
    beyond them, leaving holes in between. *)
Definition jsarray (A : Type) : Type := list (option A).

Definition array_set {A} (a : jsarray A) (i : nat) (v : A) : jsarray A :=
  if (i <? length a)%nat
  then firstn i a ++ Some v :: skipn (S i) a
  else a ++ repeat None (i - length a)%nat ++ [Some v].

(** [Array.from(new Set(values))]: the values in order of first occurrence,
    compared by SameValueZero. *)
Definition Set_add (set : list N) (value : N) : list N :=
  if existsb (same_value_zero value) set then set else set ++ [set_key value].

Definition Array_from_Set (values : list N) : list N :=
  fold_left Set_add values [].

(** [array.sort(compare)].  The language leaves the algorithm open and
    requires the sorted, stable result whenever [compare] is a consistent
    comparator; a stable insertion sort stands for it.  An element moves in
    front of another only when [compare] is negative ([NaN] counts as 0).
    With a [NaN] among three or more values [compare] is not consistent and
    the language leaves the order to the implementation: the order given
    here is then one of those allowed, and the properties of the order
    below are stated for values that are numbers. *)
Fixpoint sort_insert (compare : N -> N -> N) (a : N) (sorted : list N) : list N :=
  match sorted with
  | [] => [a]
  | b :: rest =>
      if compare a b <? of_Z 0 then a :: b :: rest
      else b :: sort_insert compare a rest
  end.

Definition sort (compare : N -> N -> N) (array : list N) : list N :=
  fold_left (fun sorted a => sort_insert compare a sorted) array [].

(** ** Re-gridding: [terrainData] *)

(** An element of [points]: the sample with its [relCoords]. *)
Record Point : Type := {
  sample : ElevationSample;
  relCoords : RelCoords
}.

(** The object [{ x, y, z }] handed to the surface plot. *)
Record TerrainData : Type := {
  td_x : list N;
  td_y : list N;
  td_z : jsarray (jsarray N)
}.

(** The body of the inner loop: the value stored in [zGrid[i][j]], for
    [xj = uniqueX[j]] and [yi = uniqueY[i]].

    [[
    const matchingPoint = points.find(
      p => p.relCoords.x === uniqueX[j] && p.relCoords.y === uniqueY[i]);
    if (matchingPoint) {
      zGrid[i][j] = matchingPoint.relCoords.z;
    } else {
      const nearbyPoints = points.filter(
        p => Math.abs(p.relCoords.x - uniqueX[j]) < terrainResolution * 2 &&
             Math.abs(p.relCoords.y - uniqueY[i]) < terrainResolution * 2);
      if (nearbyPoints.length > 0) {
        const avgElevation =
          nearbyPoints.reduce((sum, p) => sum + p.relCoords.z, 0) / nearbyPoints.length;
        zGrid[i][j] = avgElevation;
      } else {
        zGrid[i][j] = 0;
      }
    }
    ]] *)
Definition is_matching (xj yi : N) (p : Point) : bool :=
  (rc_x (relCoords p) === xj) && (rc_y (relCoords p) === yi).

Definition is_nearby (terrainResolution xj yi : N) (p : Point) : bool :=
  (abs (rc_x (relCoords p) - xj) <? terrainResolution * of_Z 2) &&
  (abs (rc_y (relCoords p) - yi) <? terrainResolution * of_Z 2).

Definition avgElevation (nearbyPoints : list Point) : N :=
  fold_left (fun sum p => sum + rc_z (relCoords p)) nearbyPoints (of_Z 0)
  / length_number nearbyPoints.

Definition cell_value (points : list Point) (terrainResolution xj yi : N) : N :=
  match find (is_matching xj yi) points with
  | Some matchingPoint => rc_z (relCoords matchingPoint)
  | None =>
      let nearbyPoints := filter (is_nearby terrainResolution xj yi) points in
      if (0 <? length nearbyPoints)%nat then avgElevation nearbyPoints
      else of_Z 0
  end.

(** [for (let j = 0; j < uniqueX.length; j++) zGrid[i][j] = ...], on the row
    [zGrid[i]], which starts empty. The index is in range by the loop guard. *)
Definition fill_row (points : list Point) (terrainResolution : N)
    (uniqueX : list N) (yi : N) : jsarray N :=
  fold_left
    (fun row j =>
       match nth_error uniqueX j with
       | Some xj => array_set row j (cell_value points terrainResolution xj yi)
       | None => row
       end)
    (seq 0 (length uniqueX)) [].

(** [for (let i = 0; i < uniqueY.length; i++) { zGrid[i] = []; ... }]. *)
Definition fill_grid (points : list Point) (terrainResolution : N)
    (uniqueX uniqueY : list N) : jsarray (jsarray N) :=
  fold_left
    (fun zGrid i =>
       match nth_error uniqueY i with
       | Some yi => array_set zGrid i (fill_row points terrainResolution uniqueX yi)
       | None => zGrid
       end)
    (seq 0 (length uniqueY)) [].

Definition make_points (centerPoint : Center) (elevationData : list ElevationSample)
    : list Point :=
  map (fun p =>
         {| sample := p;
            relCoords := convertToRelativeCoords centerPoint
                           (es_longitude p) (es_latitude p) (es_elevation p) |})
      elevationData.

Definition terrainData (centerPoint : Center) (terrainResolution : N)
    (elevationData : list ElevationSample) : TerrainData :=
  match elevationData with
  | [] => {| td_x := []; td_y := []; td_z := [Some []] |}
  | _ =>
      let points := make_points centerPoint elevationData in
      let uniqueX :=
        sort (fun a b => a - b) (Array_from_Set (map (fun p => rc_x (relCoords p)) points)) in
      let uniqueY :=
        sort (fun a b => a - b) (Array_from_Set (map (fun p => rc_y (relCoords p)) points)) in
      let zGrid := fill_grid points terrainResolution uniqueX uniqueY in
      {| td_x := uniqueX; td_y := uniqueY; td_z := zGrid |}
  end.

End Pipeline.

Arguments Point N : clear implicits.
Arguments TerrainData N : clear implicits.
Arguments TrackPoint N : clear implicits.
Arguments Center N : clear implicits.
Arguments ElevationSample N : clear implicits.
Arguments RelCoords N : clear implicits.

(** ** The elevation provider: [fetchElevationData]

    The asynchronous function talks to the elevation service and to the
    component's state.  It is written in a monad that threads the log of
    what it does and can throw, and is run against a description of how
    the service answers. *)

(** [Math.sin] and [Math.cos]. *)
Class Trig (N : Type) : Type := {
  sin : N -> N;
  cos : N -> N
}.

Section Provider.

Context {N : Type} `{Number N} `{Trig N}.
Local Open Scope num_scope.

(** A feature of [gridPoints]: [feature.geometry.coordinates] is
    [[longitude, latitude]]. *)
Record Feature : Type := {
  coordinates : N * N
}.

(** An entry of the request's [locations]. *)
Record Location : Type := {
  loc_latitude : N;
  loc_longitude : N
}.

(** What [await response.json()] and the reading of [data.results] give: a
    rejection when the body is not JSON; a value whose [results] cannot be
    spread (it is absent or not iterable, or [data] is [null]); or an array
    of samples. *)
Inductive Body : Type :=
  | invalid_json
  | no_results
  | results (r : list (ElevationSample N)).

Record Response : Type := {
  status : Z;
  body : Body
}.

(** [response.ok]: the status is in the range 200-299. *)
Definition ok (response : Response) : bool :=
  (200 <=? status response)%Z && (status response <=? 299)%Z.

(** The settlement of a [fetch] promise. *)
Inductive Settled : Type :=
  | rejected
  | fulfilled (response : Response).

(** How the service answers the [n]-th request of one call, given the
    locations it carries. *)
Definition Service : Type := nat -> list Location -> Settled.

(** What the function does, in order.  [fetch], [response_json] and
    [setTimeout] are the operations it awaits. *)
Inductive Event : Type :=
  | setIsLoading (b : bool)
  | setErrorMessage (m : option string)
  | setElevationData (d : list (ElevationSample N))
  | console_error
  | fetch (locations : list Location)
  | response_json
  | setTimeout (ms : Z).

Inductive Error : Type :=
  | fetch_failed                  (* the [fetch] promise rejected *)
  | status_error (status : Z)     (* the [Error] thrown on [!response.ok] *)
  | json_failed                   (* [response.json()] rejected *)
  | not_iterable.                 (* spreading [data.results] threw *)

Inductive Outcome (A : Type) : Type :=
  | Return (a : A)
  | Throw (e : Error).
Arguments Throw {A} e.

Record World : Type := {
  requests : nat;          (* requests issued so far *)
  trace : list Event       (* everything done so far, oldest first *)
}.

Definition Async (A : Type) : Type := Service -> World -> Outcome A * World.

Definition ret {A} (a : A) : Async A := fun _ w => (Return a, w).

Definition bind {A B} (m : Async A) (k : A -> Async B) : Async B :=
  fun service w =>
    match m service w with
    | (Return a, w') => k a service w'
    | (Throw e, w') => (Throw e, w')
    end.

Definition throw {A} (e : Error) : Async A := fun _ w => (Throw e, w).

Definition try_catch {A} (m : Async A) (handler : Error -> Async A) : Async A :=
  fun service w =>
    match m service w with
    | (Return a, w') => (Return a, w')
    | (Throw e, w') => handler e service w'
    end.

Definition emit (e : Event) : Async unit :=
  fun _ w => (Return tt, {| requests := requests w; trace := trace w ++ [e] |}).

Notation "x <- m ;; k" := (bind m (fun x => k))
  (at level 61, m at next level, right associativity).
Notation "m ;; k" := (bind m (fun _ => k))
  (at level 61, right associativity).

(** [await fetch(url, { method: 'POST', body: JSON.stringify({ locations }) })]. *)
Definition await_fetch (locations : list Location) : Async Response :=
  fun service w =>
    let w' := {| requests := S (requests w); trace := trace w ++ [fetch locations] |} in
    match service (requests w) locations with
    | rejected => (Throw fetch_failed, w')
    | fulfilled response => (Return response, w')
    end.

(** [await response.json()]; the result is [data.results], when iterable. *)
Definition await_json (response : Response) : Async (option (list (ElevationSample N))) :=
  emit response_json ;;
  match body response with
  | invalid_json => throw json_failed
  | no_results => ret None
  | results r => ret (Some r)
  end.

(** [[...allResults, ...data.results]]. *)
Definition spread (allResults : list (ElevationSample N))
    (data_results : option (list (ElevationSample N))) : Async (list (ElevationSample N)) :=
  match data_results with
  | Some r => ret (allResults ++ r)
  | None => throw not_iterable
  end.

(** [await new Promise(resolve => setTimeout(resolve, ms))]. *)
Definition await_timeout (ms : Z) : Async unit := emit (setTimeout ms).

(** [array.slice(start, end)], for indices within [0, ...). *)
Definition slice {A} (array : list A) (start end_ : nat) : list A :=
  firstn (end_ - start)%nat (skipn start array).

Definition BATCH_SIZE : nat := 100.

(** The batch loop, from index [i] with [allResults] accumulated so far.

    [[
    for (let i = 0; i < locations.length; i += BATCH_SIZE) {
      const batchLocations = locations.slice(i, i + BATCH_SIZE);
      const response = await fetch(...);
      if (!response.ok) {
        throw new Error(`Elevation API responded with status: ${response.status}`);
      }
      const data = await response.json();
      allResults = [...allResults, ...data.results];
      await new Promise(resolve => setTimeout(resolve, 100));
    }
    ]] *)
Equations? batch_loop (locations : list Location) (i : nat)
    (allResults : list (ElevationSample N)) : Async (list (ElevationSample N))
    by wf (length locations - i)%nat lt :=
  batch_loop locations i allResults with lt_dec i (length locations) => {
    | right _ => ret allResults
    | left _ =>
        let batchLocations := slice locations i (i + BATCH_SIZE)%nat in
        response <- await_fetch batchLocations ;;
        if negb (ok response) then throw (status_error (status response))
        else
          data_results <- await_json response ;;
          allResults <- spread allResults data_results ;;
          await_timeout 100 ;;
          batch_loop locations (i + BATCH_SIZE)%nat allResults
  }.
Proof. unfold BATCH_SIZE. lia. Qed.

(** The simulated sample of the fallback.

    [[
    const x = (lng - centerPoint.longitude) * 111320;
    const y = (lat - centerPoint.latitude) * 111320;
    const elevation =
      Math.sin(x * 0.005) * Math.cos(y * 0.005) * 30 +
      Math.sin(x * 0.02) * Math.cos(y * 0.02) * 10 +
      Math.sin(x * 0.05) * Math.cos(y * 0.05) * 5;
    return { longitude: lng, latitude: lat, elevation: elevation };
    ]] *)
Definition simulated_elevation (x y : N) : N :=
  sin (x * of_Q 0.005) * cos (y * of_Q 0.005) * of_Z 30 +
  sin (x * of_Q 0.02) * cos (y * of_Q 0.02) * of_Z 10 +
  sin (x * of_Q 0.05) * cos (y * of_Q 0.05) * of_Z 5.

Definition simulate (centerPoint : Center N) (feature : Feature) : ElevationSample N :=
  let lng := fst (coordinates feature) in
  let lat := snd (coordinates feature) in
  let x := (lng - c_longitude centerPoint) * of_Z 111320 in
  let y := (lat - c_latitude centerPoint) * of_Z 111320 in
  let elevation := simulated_elevation x y in
  {| es_longitude := lng; es_latitude := lat; es_elevation := elevation |}.

Definition failure_message : string :=
  "Failed to fetch elevation data. Using simulated terrain instead.".

Definition make_locations (gridPoints : list Feature) : list Location :=
  map (fun feature =>
         {| loc_latitude := snd (coordinates feature);
            loc_longitude := fst (coordinates feature) |})
      gridPoints.

Definition fetchElevationData (gridPoints : list Feature) (centerPoint : Center N)
    : Async unit :=
  try_catch
    (emit (setIsLoading true) ;;
     emit (setErrorMessage None) ;;
     let locations := make_locations gridPoints in
     allResults <- batch_loop locations 0 [] ;;
     emit (setElevationData allResults) ;;
     emit (setIsLoading false))
    (fun error =>
       emit console_error ;;
       emit (setErrorMessage (Some failure_message)) ;;
       emit (setIsLoading false) ;;
       let simulatedData := map (simulate centerPoint) gridPoints in
       emit (setElevationData simulatedData)).

(** The effect itself: nothing is fetched for an empty grid. *)
Definition elevation_effect (gridPoints : list Feature) (centerPoint : Center N)
    : Async unit :=
  match gridPoints with
  | [] => ret tt
  | _ => fetchElevationData gridPoints centerPoint
  end.

Definition new_world : World := {| requests := 0; trace := [] |}.

(** The log of one call of the effect. *)
Definition run (service : Service) (gridPoints : list Feature) (centerPoint : Center N)
    : list Event :=
  trace (snd (elevation_effect gridPoints centerPoint service new_world)).

(** The component's state, as the [useState] setters leave it. *)
Record State : Type := {
  isLoading : bool;
  errorMessage : option string;
  elevationData : list (ElevationSample N)
}.

Definition initial_state : State :=
  {| isLoading := false; errorMessage := None; elevationData := [] |}.

Definition apply_event (s : State) (e : Event) : State :=
  match e with
  | setIsLoading b =>
      {| isLoading := b; errorMessage := errorMessage s; elevationData := elevationData s |}
  | setErrorMessage m =>
      {| isLoading := isLoading s; errorMessage := m; elevationData := elevationData s |}
  | setElevationData d =>
      {| isLoading := isLoading s; errorMessage := errorMessage s; elevationData := d |}
  | _ => s
  end.

Definition replay (s : State) (events : list Event) : State :=
  fold_left apply_event events s.

End Provider.

Arguments Throw {A} e.
Arguments Feature N : clear implicits.
Arguments Location N : clear implicits.
Arguments Body N : clear implicits.
Arguments Response N : clear implicits.
Arguments Settled N : clear implicits.
Arguments Service N : clear implicits.
Arguments Event N : clear implicits.
Arguments World N : clear implicits.
Arguments State N : clear implicits.

(** ** Vocabulary of the specification *)

Section Vocabulary.

Context {N : Type} `{Number N}.
Local Open Scope num_scope.

(** A sample projected into local coordinates, as [terrainData] does. *)
Definition projected (centerPoint : Center N) (s : ElevationSample N) : RelCoords N :=
  convertToRelativeCoords centerPoint (es_longitude s) (es_latitude s) (es_elevation s).

(** The sample's projected x exactly equals [xj] and its projected y
    exactly equals [yi]. *)
Definition at_cell (centerPoint : Center N) (xj yi : N) (s : ElevationSample N) : bool :=
  (rc_x (projected centerPoint s) === xj) && (rc_y (projected centerPoint s) === yi).

(** The sample's projected x and y are each within [2 * resolution] of
    [(xj, yi)]; the code compares with [<]. *)
Definition within_window (centerPoint : Center N) (resolution xj yi : N)
    (s : ElevationSample N) : bool :=
  (abs (rc_x (projected centerPoint s) - xj) <? resolution * of_Z 2) &&
  (abs (rc_y (projected centerPoint s) - yi) <? resolution * of_Z 2).

(** The arithmetic mean as the program computes it: the sum from the left,
    starting at 0, divided by the count. *)
Definition mean (values : list N) : N :=
  fold_left add values (of_Z 0) / length_number values.

(** The value of a cell, read on the samples: the elevation of the first
    sample at the cell, else the mean elevation of the samples in the
    window, else 0. *)
Definition cell_of_samples (centerPoint : Center N) (resolution : N)
    (samples : list (ElevationSample N)) (xj yi : N) : N :=
  match find (at_cell centerPoint xj yi) samples with
  | Some s => es_elevation s
  | None =>
      match filter (within_window centerPoint resolution xj yi) samples with
      | [] => of_Z 0
      | near => mean (map (@es_elevation N) near)
      end
  end.

End Vocabulary.

(** Numbers that are not [NaN], and numbers that are neither [NaN] nor
    infinite. *)
Definition not_nan (a : float) : Prop := PrimFloat.is_nan a = false.
Definition finite (a : float) : Prop := PrimFloat.is_finite a = true.



(** A value lies within every closed interval that contains the given
    coordinate of every element: it lies between their minimum and their
    maximum. *)
Definition within_extremes {N A} (le : N -> N -> Prop) (coordinate : A -> N)
    (elements : list A) (v : N) : Prop :=
  forall lo hi,
    (forall p, In p elements -> le lo (coordinate p) /\ le (coordinate p) hi) ->
    le lo v /\ le v hi.

(** [a <= b] on binary64. *)
Definition float_le (a b : float) : Prop := PrimFloat.leb a b = true.

(** [v] is the entry [z[i][j]] of the height field. *)
Definition entry {N} (field : TerrainData N) (i j : nat) (v : N) : Prop :=
  exists row,
    nth_error (td_z field) i = Some (Some row) /\ nth_error row j = Some (Some v).

(** A value lies within every closed interval that contains 0 and the given
    coordinate of every element: it lies between the minimum of 0 and their
    minimum, and the maximum of 0 and their maximum. *)
Definition within_extremes_and_zero {N A} (le : N -> N -> Prop) (zero : N)
    (coordinate : A -> N) (elements : list A) (v : N) : Prop :=
  forall lo hi,
    le lo zero -> le zero hi ->
    (forall p, In p elements -> le lo (coordinate p) /\ le (coordinate p) hi) ->
    le lo v /\ le v hi.

(** ** Vocabulary of the elevation provider *)

Section ProviderVocabulary.

Context {N : Type}.

(** The consecutive batches of at most [BATCH_SIZE] locations. *)
Definition batch (locations : list (Location N)) (k : nat) : list (Location N) :=
  firstn BATCH_SIZE (skipn (k * BATCH_SIZE) locations).

Definition batch_count (locations : list (Location N)) : nat :=
  (length locations + (BATCH_SIZE - 1)) / BATCH_SIZE.

Definition batches (locations : list (Location N)) : list (list (Location N)) :=
  map (batch locations) (seq 0 (batch_count locations)).

(** One request per batch, one after the other: the outcome and the log of
    serving [batches], the first of them as request number [n], with
    [allResults] accumulated before.  A batch that is answered with a
    success status and an array of results is followed by the 100 ms delay
    and the next batch; anything else ends the rounds with an error. *)
Fixpoint batch_rounds (service : Service N) (n : nat)
    (batches : list (list (Location N))) (allResults : list (ElevationSample N))
    : Outcome (list (ElevationSample N)) * list (Event N) :=
  match batches with
  | [] => (Return allResults, [])
  | b :: rest =>
      match service n b with
      | rejected => (Throw fetch_failed, [fetch b])
      | fulfilled response =>
          if negb (ok response)
          then (Throw (status_error (status response)), [fetch b])
          else
            match body response with
            | invalid_json => (Throw json_failed, [fetch b; response_json])
            | no_results => (Throw not_iterable, [fetch b; response_json])
            | results r =>
                let (outcome, log) := batch_rounds service (S n) rest (allResults ++ r) in
                (outcome, fetch b :: response_json :: setTimeout 100 :: log)
            end
      end
  end.

(** The operations the function awaits: it is suspended after each. *)
Definition is_await (e : Event N) : bool :=
  match e with
  | fetch _ | response_json | setTimeout _ => true
  | _ => false
  end.

(** Every delay of the log is followed by a further request: the delays
    stand between batches, and only there. *)
Definition delays_only_between_batches (log : list (Event N)) : Prop :=
  forall before after ms,
    log = before ++ setTimeout ms :: after ->
    exists locations, In (fetch locations) after.

End ProviderVocabulary.

(** The service answers each of the batches, the first of them as request
    number [n], with a success status and an array of results:
    [answers] are those arrays, in order. *)
Fixpoint answered {N} (service : Service N) (n : nat)
    (batches : list (list (Location N))) (answers : list (list (ElevationSample N)))
    : Prop :=
  match batches, answers with
  | [], [] => True
  | b :: batches', r :: answers' =>
      (exists response,
         service n b = fulfilled response /\ ok response = true /\
         body response = results r)
      /\ answered service (S n) batches' answers'
  | _, _ => False
  end.

(** The log of a batch that went well: the request, the reading of its
    body, the delay. *)
Definition served {N} (b : list (Location N)) : list (Event N) :=
  [fetch b; response_json; setTimeout 100].

(** What the function does before its first request, after its last batch,
    and in its [catch] block. *)
Definition start_events {N} : list (Event N) :=
  [setIsLoading true; setErrorMessage None].

Definition success_events {N} (allResults : list (ElevationSample N)) : list (Event N) :=
  [setElevationData allResults; setIsLoading false].

Definition fallback_events {N} `{Number N} `{Trig N} (centerPoint : Center N)
    (gridPoints : list (Feature N)) : list (Event N) :=
  [console_error; setErrorMessage (Some failure_message); setIsLoading false;
   setElevationData (map (simulate centerPoint) gridPoints)].

(** The events that end a call: those of success or those of the fallback. *)
Definition final_events {N} `{Number N} `{Trig N} (service : Service N)
    (gridPoints : list (Feature N)) (centerPoint : Center N) : list (Event N) :=
  match fst (batch_rounds service 0 (batches (make_locations gridPoints)) []) with
  | Return allResults => success_events allResults
  | Throw _ => fallback_events centerPoint gridPoints
  end.

(** The service returns one result for each location it is asked about. *)
Definition answers_every_location {N} (service : Service N) : Prop :=
  forall n locations response r,
    service n locations = fulfilled response ->
    body response = results r ->
    length r = length locations.

(** Stand-ins for [Math.sin] and [Math.cos], for runs on concrete inputs
    that never reach the simulation. *)
Definition unused_trig : Trig float := {| sin := fun a => a; cos := fun a => a |}.

(** ** Vocabulary of overlapping calls

    The function runs without interruption up to each operation it awaits:
    its log falls into turns, each ending with an awaited operation, but
    for the last. *)
Fixpoint turns {N} (log : list (Event N)) : list (list (Event N)) :=
  match log with
  | [] => []
  | e :: rest =>
      if is_await e then [e] :: turns rest
      else
        match turns rest with
        | [] => [[e]]
        | turn :: later => (e :: turn) :: later
        end
  end.

(** The call fell back to the simulation. *)
Definition fell_back {N} (service : Service N) (gridPoints : list (Feature N)) : bool :=
  match fst (batch_rounds service 0 (batches (make_locations gridPoints)) []) with
  | Return _ => false
  | Throw _ => true
  end.

(** The event sets the notice. *)
Definition sets_notice {N} (e : Event N) : bool :=
  match e with
  | setErrorMessage (Some _) => true
  | _ => false
  end.

(** A turn that is a single awaited operation. *)
Definition await_turn {N} (t : list (Event N)) : Prop :=
  exists e, t = [e] /\ is_await e = true.

(** The turns of two calls in flight, taken in some order that keeps the
    order of each call's own turns. *)
Inductive interleaved {A : Type} : list A -> list A -> list A -> Prop :=
  | interleaved_nil : interleaved [] [] []
  | interleaved_left t a b m : interleaved a b m -> interleaved (t :: a) b (t :: m)
  | interleaved_right t a b m : interleaved a b m -> interleaved a (t :: b) (t :: m).

(** The newer call starts while the older is outstanding: the older call
    [a] has taken some of its turns and not all when the newer call [b]
    takes its first. *)
Definition overlapping {A : Type} (a b m : list A) : Prop :=
  exists a1 a2 b1 b2 m2,
    a = a1 ++ a2 /\ a1 <> [] /\ a2 <> [] /\ b = b1 :: b2 /\
    interleaved a2 b2 m2 /\ m = a1 ++ b1 :: m2.

(** Whatever the order of the turns, the state observed at the end is the
    one the newer call leaves. *)
Definition newer_call_wins {N} (older newer : list (Event N)) : Prop :=
  forall m,
    overlapping (turns older) (turns newer) m ->
    replay initial_state (concat m) = replay initial_state newer.

(** ** Vocabulary of binary64

    The least exponent of a binary64 number, and a key whose lexicographic
    order is the order of the numbers that are not [NaN]. *)
Definition emin64 : Z := (-1074)%Z.

Definition key (x : spec_float) : Z * Z * Z :=
  match x with
  | S754_infinity true => (-2, 0, 0)%Z
  | S754_finite true m e => (-1, - e, Zneg m)%Z
  | S754_zero _ => (0, 0, 0)%Z
  | S754_nan => (0, 0, 0)%Z
  | S754_finite false m e => (1, e, Zpos m)%Z
  | S754_infinity false => (2, 0, 0)%Z
  end.

Definition key_lt (p q : Z * Z * Z) : Prop :=
  let '(a1, a2, a3) := p in
  let '(b1, b2, b3) := q in
  (a1 < b1 \/ (a1 = b1 /\ (a2 < b2 \/ (a2 = b2 /\ a3 < b3))))%Z.

Definition key_eq (p q : Z * Z * Z) : Prop :=
  let '(a1, a2, a3) := p in
  let '(b1, b2, b3) := q in
  a1 = b1 /\ a2 = b2 /\ a3 = b3.

(** No two of the values are the same for a [Set]. *)
Definition distinct {N} `{Number N} (values : list N) : Prop :=
  ForallOrdPairs (fun a b => same_value_zero a b = false) values.

(** Numbers in strictly ascending order: each is less than all after it. *)
Definition ascending {N} `{Number N} (values : list N) : Prop :=
  StronglySorted (fun a b => ltb a b = true) values.

(** The matrix has a defined entry in each of its [rows] by [columns]
    places. *)
Definition full_matrix {N} (z : jsarray (jsarray N)) (rows columns : nat) : Prop :=
  exists entries : list (list N),
    z = map (fun row => Some (map (@Some N) row)) entries /\
    length entries = rows /\
    Forall (fun row => length row = columns) entries.

(** The invariant of a height field: both axes strictly ascending, hence of
    distinct values, and a defined entry of [z] for every pair of a y and
    an x: as many rows as ys, each as long as xs. *)
Definition height_field_invariant {N} `{Number N} (field : TerrainData N) : Prop :=
  ascending (td_x field) /\
  ascending (td_y field) /\
  full_matrix (td_z field) (length (td_y field)) (length (td_x field)).

(** ** Vocabulary of samples and requests *)

(** Two samples are projected to the same place: their x and their y are
    each [===]. *)
Definition same_position {N} `{Number N} (centerPoint : Center N)
    (s s' : ElevationSample N) : bool :=
  strict_eq (rc_x (projected centerPoint s)) (rc_x (projected centerPoint s')) &&
  strict_eq (rc_y (projected centerPoint s)) (rc_y (projected centerPoint s')).

(** The locations sent with the requests of a log, in order. *)
Definition requested {N} (log : list (Event N)) : list (list (Location N)) :=
  flat_map (fun e => match e with fetch locations => [locations] | _ => [] end) log.

(** The service answers with one sample for each location it is asked
    about, at that location, in the order of the request. *)
Definition echoes_locations {N} (service : Service N) : Prop :=
  forall n locations response r,
    service n locations = fulfilled response ->
    body response = results r ->
    map (fun d => (es_longitude d, es_latitude d)) r
    = map (fun l => (loc_longitude l, loc_latitude l)) locations.

(** ** The other views of the track

    [flightPath] is the track as [AdvancedDroneVisualization] draws it.
    [FlightPath] (the Three.js scene) and [PlotlyDroneVisualization] compute
    the same center point and project the track on their own. *)

Section AdvancedDroneVisualization.

Context {N : Type} `{Number N}.
Local Open Scope num_scope.

(** [flightPath]; [convertToRelativeCoords] is called without its third
    argument, which defaults to 0.

    [[
    trackPoints.map(point => {
      const { x, y } = convertToRelativeCoords(point.longitude, point.latitude);
      return { x, y, z: point.altitude };
    })
    ]] *)
Definition flightPath (centerPoint : Center N) (trackPoints : list (TrackPoint N))
    : list (RelCoords N) :=
  map (fun point =>
         let c := convertToRelativeCoords centerPoint
                    (tp_longitude point) (tp_latitude point) (of_Z 0) in
         {| rc_x := rc_x c; rc_y := rc_y c; rc_z := tp_altitude point |})
      trackPoints.

End AdvancedDroneVisualization.

Module FlightPath.

Section FlightPath.

Context {N : Type} `{Number N}.
Local Open Scope num_scope.

(** [THREE.Vector3]. *)
Record Vector3 : Type := {
  v_x : N;
  v_y : N;
  v_z : N
}.

(** [geoToCartesian] ([TerrainModel] has the same function, word for word,
    and does not call it): the altitude is the vertical axis y.

    [[
    const scale = 111000;
    const x = (longitude - center.longitude) * scale;
    const z = (latitude - center.latitude) * scale;
    return new THREE.Vector3(x, altitude, z);
    ]] *)
Definition geoToCartesian (latitude longitude altitude : N) (center : Center N) : Vector3 :=
  let scale := of_Z 111000 in
  let x := (longitude - c_longitude center) * scale in
  let z := (latitude - c_latitude center) * scale in
  {| v_x := x; v_y := altitude; v_z := z |}.

(** [pathPoints].

    [[
    trackPoints.map(point =>
      geoToCartesian(point.latitude, point.longitude, point.altitude, centerPoint))
    ]] *)
Definition pathPoints (centerPoint : Center N) (trackPoints : list (TrackPoint N))
    : list Vector3 :=
  map (fun point =>
         geoToCartesian (tp_latitude point) (tp_longitude point) (tp_altitude point)
           centerPoint)
      trackPoints.

End FlightPath.

Arguments Vector3 N : clear implicits.

End FlightPath.

(** ** The synthetic terrain

    [TerrainModel] and [PlotlyDroneVisualization] draw a terrain made of
    sine waves on a square grid around the origin. *)

(** [Math.ceil]. *)
Class Ceil (N : Type) : Type := {
  ceil : N -> N
}.

Section Synthetic.

Context {N : Type} `{Number N} `{Trig N}.
Local Open Scope num_scope.

(** The counter of a loop after [k] rounds: a number that starts at 0 and to
    which every round adds 1 ([i++]).  On binary64 it is the whole number
    [k] up to [2^53], where adding 1 changes it no more. *)
Definition counter (k : nat) : N := Nat.iter k (fun i => i + of_Z 1) (of_Z 0).

(** [for (let i = 0; i < size; i++) body], from the round [i] on.  The test
    compares the counter, a number, with the bound [size], a number that
    the code computes, so the loop need not end: it is run on [fuel], and
    gives [None] when the fuel is used up before the test [i < size]
    fails.  The body is given the number of the round, which is the value
    of the counter in every loop that ends. *)
Fixpoint for_loop {S : Type} (fuel : nat) (size : N) (i : nat)
    (body : nat -> S -> option S) (s : S) : option S :=
  match fuel with
  | O => None
  | Datatypes.S fuel' =>
      if counter i <? size then
        match body i s with
        | Some s' => for_loop fuel' size (Datatypes.S i) body s'
        | None => None
        end
      else Some s
  end.

(** The height at a place of the grid; both components have this formula.

    [[
    Math.sin(xPos * 0.01) * Math.cos(zPos * 0.01) * 30 +
    Math.sin(xPos * 0.05 + 0.5) * Math.cos(zPos * 0.05 + 0.5) * 10 +
    Math.sin(xPos * 0.2 + 1.0) * Math.cos(zPos * 0.2 + 1.0) * 3
    ]] *)
Definition height (xPos zPos : N) : N :=
  sin (xPos * of_Q 0.01) * cos (zPos * of_Q 0.01) * of_Z 30 +
  sin (xPos * of_Q 0.05 + of_Q 0.5) * cos (zPos * of_Q 0.05 + of_Q 0.5) * of_Z 10 +
  sin (xPos * of_Q 0.2 + of_Z 1) * cos (zPos * of_Q 0.2 + of_Z 1) * of_Z 3.

End Synthetic.

Module TerrainModel.

Section TerrainModel.

Context {N : Type} `{Number N} `{Trig N} `{Ceil N}.
Local Open Scope num_scope.

(** [generateTerrainData]; the row [terrain[z]] is filled in place by the
    inner loop.  [centerLat] and [centerLng] are not used.  The positions
    are computed from the counters, the indices are the numbers of the
    rounds.

    [[
    const size = Math.ceil(extent * 2 / resolution);
    const terrain: number[][] = [];
    for (let z = 0; z < size; z++) {
      terrain[z] = [];
      for (let x = 0; x < size; x++) {
        const xPos = (x - size / 2) * resolution;
        const zPos = (z - size / 2) * resolution;
        const height = ...;
        terrain[z][x] = height;
      }
    }
    return terrain;
    ]] *)
Definition generateTerrainData (fuel : nat) (centerLat centerLng resolution extent : N)
    : option (jsarray (jsarray N)) :=
  let size := ceil (extent * of_Z 2 / resolution) in
  for_loop fuel size 0
    (fun z terrain =>
       match
         for_loop fuel size 0
           (fun x row =>
              let xPos := (counter x - size / of_Z 2) * resolution in
              let zPos := (counter z - size / of_Z 2) * resolution in
              Some (array_set row x (height xPos zPos)))
           []
       with
       | Some row => Some (array_set terrain z row)
       | None => None
       end)
    [].

(** What [terrainData[z][x]] reads: [None] is the [TypeError] of indexing a
    row that is not there, [Some None] is [undefined]. *)
Definition read_entry (terrainData : jsarray (jsarray N)) (z x : nat) : option (option N) :=
  match nth_error terrainData z with
  | Some (Some row) =>
      match nth_error row x with
      | Some entry => Some entry
      | None => Some None
      end
  | _ => None
  end.

(** The loop that gives the vertices of the plane their heights: the calls
    [positionAttribute.setY(index, value)] it makes, in order, or [None]
    when it throws.

    [[
    const size = terrainData.length;
    for (let z = 0; z < size; z++) {
      for (let x = 0; x < size; x++) {
        const index = z * size + x;
        positionAttribute.setY(index, terrainData[z][x]);
      }
    }
    ]] *)
Definition setY_calls (terrainData : jsarray (jsarray N)) : option (list (nat * option N)) :=
  let size := length terrainData in
  fold_left
    (fun calls z =>
       fold_left
         (fun calls x =>
            match calls, read_entry terrainData z x with
            | Some calls, Some value => Some (calls ++ [((z * size + x)%nat, value)])
            | _, _ => None
            end)
         (seq 0 size) calls)
    (seq 0 size) (Some []).

End TerrainModel.

End TerrainModel.

Module PlotlyDroneVisualization.

Section PlotlyDroneVisualization.

Context {N : Type} `{Number N} `{Trig N} `{Ceil N}.
Local Open Scope num_scope.

(** [flightCoordinates].

    [[
    const scale = 111000;
    return trackPoints.map(point => ({
      x: (point.longitude - centerPoint.longitude) * scale,
      y: (point.latitude - centerPoint.latitude) * scale,
      z: point.altitude
    }));
    ]] *)
Definition flightCoordinates (centerPoint : Center N) (trackPoints : list (TrackPoint N))
    : list (RelCoords N) :=
  let scale := of_Z 111000 in
  map (fun point =>
         {| rc_x := (tp_longitude point - c_longitude centerPoint) * scale;
            rc_y := (tp_latitude point - c_latitude centerPoint) * scale;
            rc_z := tp_altitude point |})
      trackPoints.

(** [terrainData]; [x.push] and [y.push] append, and the row [z[i]] is
    filled in place by the inner loop.  A counter is 0 in the first round
    and in no other: [i === 0] tests the number of the round.

    [[
    const size = Math.ceil(terrainExtent * 2 / terrainResolution);
    const halfSize = size / 2;
    const x: number[] = [];
    const y: number[] = [];
    const z: number[][] = [];
    for (let i = 0; i < size; i++) {
      z[i] = [];
      const yPos = (i - halfSize) * terrainResolution;
      for (let j = 0; j < size; j++) {
        const xPos = (j - halfSize) * terrainResolution;
        if (i === 0) x.push(xPos);
        if (j === 0) y.push(yPos);
        const height = ...;
        z[i][j] = height;
      }
    }
    return { x, y, z };
    ]] *)
Definition terrainData (fuel : nat) (terrainResolution terrainExtent : N)
    : option (TerrainData N) :=
  let size := ceil (terrainExtent * of_Z 2 / terrainResolution) in
  let halfSize := size / of_Z 2 in
  match
    for_loop fuel size 0
      (fun i '(x, y, z) =>
         let yPos := (counter i - halfSize) * terrainResolution in
         match
           for_loop fuel size 0
             (fun j '(x, y, row) =>
                let xPos := (counter j - halfSize) * terrainResolution in
                let x := if (i =? 0)%nat then x ++ [xPos] else x in
                let y := if (j =? 0)%nat then y ++ [yPos] else y in
                Some (x, y, array_set row j (height xPos yPos)))
             (x, y, [])
         with
         | Some (x, y, row) => Some (x, y, array_set z i row)
         | None => None
         end)
      ([], [], [])
  with
  | Some (x, y, z) => Some {| td_x := x; td_y := y; td_z := z |}
  | None => None
  end.

End PlotlyDroneVisualization.

End PlotlyDroneVisualization.

(** The counter of a loop passes the test [i < size] in the rounds
    [0, ..., n - 1] and fails it after [n] rounds: the loop makes [n]
    rounds. *)
Definition counts_to {N} `{Number N} (size : N) (n : nat) : Prop :=
  (forall k, (k < n)%nat -> ltb (counter k) size = true) /\ ltb (counter n) size = false.

(** The place of the grid line [k], computed from the counter of the round
    [k]: [(k - size / 2) * resolution]. *)
Definition grid_line {N} `{Number N} (size resolution : N) (k : nat) : N :=
  mul (sub (counter k) (div size (of_Z 2))) resolution.

(** [Math.ceil] on binary64: the least whole number that is not below [a];
    [-0] for the numbers between -1 and 0; [NaN], the infinities and the
    zeros are kept. *)
Definition float_ceil (a : float) : float :=
  match Prim2SF a with
  | S754_finite s m e =>
      if (0 <=? e)%Z then a
      else
        let floor := Z.shiftr (Zpos m) (- e) in
        let whole := (Z.shiftl floor (- e) =? Zpos m)%Z in
        if s then
          if (floor =? 0)%Z then (-0)%float else PrimFloat.opp (float_of_Z floor)
        else float_of_Z (if whole then floor else floor + 1)
  | _ => a
  end.

#[export] Instance float_Ceil : Ceil float := {
  ceil := float_ceil
}.

(** * Properties *)

(** ** The model on concrete inputs *)

(** The decimal constants of the fallback are the doubles JavaScript reads
    the literals as. *)
Example fallback_constants :
  (of_Q 0.005 = 0.005%float /\ of_Q 0.02 = 0.02%float /\ of_Q 0.05 = 0.05%float)
  /\ (of_Z 30 = 30%float /\ of_Z 10 = 10%float /\ of_Z 5 = 5%float)
  /\ scale = 111320%float.
Proof. repeat split. Qed.

Example array_set_extends :
  array_set [Some 1%Z] 3 7%Z = [Some 1%Z; None; None; Some 7%Z]
  /\ array_set [Some 1%Z; Some 2%Z] 0 7%Z = [Some 7%Z; Some 2%Z].
Proof. split; reflexivity. Qed.

Example unique_sorted_axis :
  sort (fun a b => sub a b)
    (Array_from_Set [3%float; (-0)%float; 1.5%float; 0%float; 3%float; (-2)%float])
  = [(-2)%float; 0%float; 1.5%float; 3%float].
Proof. vm_compute. reflexivity. Qed.

(** The scenario of the specification: the track of two points, its center
    and the projection of its first point. *)
Example track_scenario :
  let trackPoints :=
    [ {| tp_latitude := 37.7749%float; tp_longitude := (-122.4194)%float;
         tp_altitude := 5%float |};
      {| tp_latitude := 37.7750%float; tp_longitude := (-122.4190)%float;
         tp_altitude := 20%float |} ] in
  centerPoint trackPoints
  = {| c_latitude := 37.774950000000004%float;
       c_longitude := (-122.41919999999999)%float |}
  /\ convertToRelativeCoords (centerPoint trackPoints)
       (-122.4194)%float 37.7749%float 5%float
     = {| rc_x := (-22.264000000739088)%float; rc_y := (-5.566000000184772)%float;
          rc_z := 5%float |}.
Proof. split; vm_compute; reflexivity. Qed.

(** The window of a cell is open: a sample at exactly twice the resolution
    from the cell, in x or in y, is not averaged into it. *)
Example window_excludes_its_border :
  let centerPoint := {| c_latitude := 0%float; c_longitude := 0%float |} in
  let samples :=
    [ {| es_longitude := 0%float; es_latitude := 0%float; es_elevation := 4%float |};
      {| es_longitude := 0.0001%float; es_latitude := 0.0001%float;
         es_elevation := 8%float |} ] in
  let resolution := div 11.132%float 2%float in
  mul resolution (of_Z 2) = 11.132%float
  /\ terrainData centerPoint resolution samples
     = {| td_x := [0%float; 11.132%float];
          td_y := [0%float; 11.132%float];
          td_z := [Some [Some 4%float; Some 0%float];
                   Some [Some 0%float; Some 8%float]] |}.
Proof. split; vm_compute; reflexivity. Qed.

(** Three batches for 250 locations; a status 500 on the second request
    ends the rounds there. *)
Example batches_of_250 :
  let locations := repeat {| loc_latitude := 0%Z; loc_longitude := 0%Z |} 250 in
  map (@length _) (batches locations) = [100; 100; 50]%nat
  /\ (let service : Service Z :=
        fun n _ => fulfilled {| status := if (n =? 1)%nat then 500 else 200;
                                body := results [] |} in
      fst (batch_loop locations 0 [] service new_world) = Throw (status_error 500)
      /\ map (@is_await Z) (trace (snd (batch_loop locations 0 [] service new_world)))
         = [true; true; true; true]).
Proof. split; [|split]; vm_compute; reflexivity. Qed.

(** ** Binary64 facts *)

Module Binary64.

Lemma Prim2SF_zero : Prim2SF 0%float = S754_zero false.
Proof. reflexivity. Qed.

Lemma Prim2SF_infinity : Prim2SF infinity = S754_infinity false.
Proof. reflexivity. Qed.

Lemma not_nan_spec a : not_nan a <-> Prim2SF a <> S754_nan.
Proof.
  unfold not_nan, PrimFloat.is_nan. rewrite FloatAxioms.eqb_spec.
  destruct (Prim2SF a) as [s|s| |s m e]; cbn.
  - split; [discriminate | reflexivity].
  - destruct s; (split; [discriminate | reflexivity]).
  - split; [discriminate | intros E; destruct E; reflexivity].
  - unfold SFeqb, SFcompare. rewrite Z.compare_refl, Pos.compare_cont_refl.
    destruct s; (split; [discriminate | reflexivity]).
Qed.

Lemma finite_spec a :
  finite a <->
  exists s, Prim2SF a = S754_zero s \/ exists m e, Prim2SF a = S754_finite s m e.
Proof.
  unfold finite, PrimFloat.is_finite, PrimFloat.is_nan, PrimFloat.is_infinity.
  rewrite !FloatAxioms.eqb_spec, FloatAxioms.abs_spec, Prim2SF_infinity.
  destruct (Prim2SF a) as [s|s| |s m e]; cbn.
  - split; [intros _; exists s; left; reflexivity | intros _; reflexivity].
  - split.
    + destruct s; discriminate.
    + intros [s' [E | [m [e E]]]]; discriminate.
  - split; [discriminate | intros [s' [E | [m [e E]]]]; discriminate].
  - rewrite Z.compare_refl, Pos.compare_cont_refl.
    split; [intros _; exists s; right; exists m, e; reflexivity |].
    intros _. destruct s; reflexivity.
Qed.

Lemma finite_not_nan a : finite a -> not_nan a.
Proof.
  intros F. apply not_nan_spec. apply finite_spec in F.
  destruct F as [s [E | [m [e E]]]]; rewrite E; discriminate.
Qed.

(** [a === a] holds for every number but [NaN]. *)
Lemma eqb_refl a : not_nan a -> PrimFloat.eqb a a = true.
Proof.
  unfold not_nan, PrimFloat.is_nan. intros E.
  apply negb_false_iff in E. exact E.
Qed.

(** A finite number minus itself is [+0]. *)
Lemma sub_diag a : finite a -> PrimFloat.sub a a = 0%float.
Proof.
  intros F. apply Prim2SF_inj. rewrite FloatAxioms.sub_spec, Prim2SF_zero.
  apply finite_spec in F. destruct F as [s [E | [m [e E]]]]; rewrite E.
  - destruct s; reflexivity.
  - unfold SF64sub, SFsub. cbv zeta. rewrite Z.sub_diag. reflexivity.
Qed.


Local Open Scope Z_scope.

Lemma digits2_pos_bounds (p : positive) :
  2 ^ (Zpos (digits2_pos p) - 1) <= Zpos p < 2 ^ Zpos (digits2_pos p).
Proof.
  induction p as [p IH|p IH|]; cbn [digits2_pos].
  - rewrite Pos2Z.inj_succ. replace (Z.succ (Zpos (digits2_pos p)) - 1) with (Zpos (digits2_pos p)) by lia.
    rewrite Z.pow_succ_r by lia.
    replace (Zpos (digits2_pos p)) with (Z.succ (Zpos (digits2_pos p) - 1)) at 1 by lia.
    rewrite Z.pow_succ_r by lia. lia.
  - rewrite Pos2Z.inj_succ. replace (Z.succ (Zpos (digits2_pos p)) - 1) with (Zpos (digits2_pos p)) by lia.
    rewrite Z.pow_succ_r by lia.
    replace (Zpos (digits2_pos p)) with (Z.succ (Zpos (digits2_pos p) - 1)) at 1 by lia.
    rewrite Z.pow_succ_r by lia. lia.
  - cbn. lia.
Qed.

Lemma iter_xO_pow (m d : positive) : Zpos (Pos.iter xO m d) = Zpos m * 2 ^ Zpos d.
Proof.
  rewrite <- Z.shiftl_mul_pow2 by lia. cbn [Z.shiftl].
  apply (Pos.iter_swap_gen _ _ Zpos xO (Z.mul 2)). reflexivity.
Qed.

Lemma shr_1_m mrs : 0 <= shr_m mrs -> shr_m (shr_1 mrs) = Z.div2 (shr_m mrs).
Proof.
  destruct mrs as [m r s]. cbn [shr_m shr_1]. intros Hm.
  destruct m as [|p|p]; [reflexivity | destruct p; reflexivity | lia].
Qed.

Lemma iter_shr_1_m (q : positive) :
  forall mrs, 0 <= shr_m mrs ->
    shr_m (SpecFloat.iter_pos shr_1 q mrs) = Z.shiftr (shr_m mrs) (Zpos q).
Proof.
  induction q as [q IH|q IH|]; intros mrs Hm; cbn [SpecFloat.iter_pos].
  - assert (H1 : 0 <= shr_m (shr_1 mrs)) by (rewrite shr_1_m by lia; rewrite Z.div2_div; apply Z.div_pos; lia).
    assert (H2 : 0 <= shr_m (SpecFloat.iter_pos shr_1 q (shr_1 mrs))) by (rewrite IH by lia; apply Z.shiftr_nonneg; lia).
    rewrite IH, IH, shr_1_m by lia.
    rewrite Z.div2_spec, !Z.shiftr_shiftr by lia. f_equal. lia.
  - assert (H2 : 0 <= shr_m (SpecFloat.iter_pos shr_1 q mrs)) by (rewrite IH by lia; apply Z.shiftr_nonneg; lia).
    rewrite IH, IH by lia. rewrite Z.shiftr_shiftr by lia. f_equal. lia.
  - rewrite shr_1_m by lia. apply Z.div2_spec.
Qed.


Lemma fexp_spec e : fexp prec emax e = Z.max (e - 53) emin64.
Proof. reflexivity. Qed.

(** Shifting a positive mantissa to its rounding exponent keeps it positive. *)
Lemma shr_fexp_pos (p : positive) (e : Z) (l : location) :
  emin64 <= e ->
  0 < shr_m (fst (shr_fexp prec emax (Zpos p) e l)) /\
  emin64 <= snd (shr_fexp prec emax (Zpos p) e l).
Proof.
  intros He. unfold shr_fexp, shr. rewrite fexp_spec. cbn [Zdigits2].
  pose proof (digits2_pos_bounds p) as [Hlo _].
  destruct (Z.max (Zpos (digits2_pos p) + e - 53) emin64 - e) as [|q|q] eqn:En; cbn [fst snd].
  - split; [destruct l as [|[]]; cbn; lia | exact He].
  - assert (Hq : Zpos q = Zpos (digits2_pos p) - 53) by lia.
    split; [|lia].
    rewrite iter_shr_1_m by (destruct l as [|[]]; cbn; lia).
    replace (shr_m (shr_record_of_loc (Zpos p) l)) with (Zpos p) by (destruct l as [|[]]; reflexivity).
    rewrite Z.shiftr_div_pow2 by lia.
    apply Z.div_str_pos. split; [apply Z.pow_pos_nonneg; lia|].
    apply Z.le_trans with (2 ^ (Zpos (digits2_pos p) - 1)); [|exact Hlo].
    apply Z.pow_le_mono_r; lia.
  - split; [destruct l as [|[]]; cbn; lia | exact He].
Qed.

Lemma round_nearest_even_pos m l : 0 < m -> 0 < round_nearest_even m l.
Proof.
  intros Hm. destruct l as [|[]]; cbn; try lia. destruct (Z.even m); lia.
Qed.

(** Rounding a positive mantissa gives a finite number or an infinity of the sign. *)
Lemma binary_round_aux_sign (s : bool) (p : positive) (e : Z) (l : location) :
  emin64 <= e ->
  (exists m' e', binary_round_aux prec emax s (Zpos p) e l = S754_finite s m' e')
  \/ binary_round_aux prec emax s (Zpos p) e l = S754_infinity s.
Proof.
  intros He. unfold binary_round_aux.
  destruct (shr_fexp_pos p l He) as [Hm1 He1].
  destruct (shr_fexp prec emax (Zpos p) e l) as [mrs' e'].
  cbn [fst snd] in Hm1, He1.
  pose proof (round_nearest_even_pos (loc_of_shr_record mrs') Hm1) as Hr.
  destruct (round_nearest_even (shr_m mrs') (loc_of_shr_record mrs')) as [|p'|p']; try lia.
  destruct (shr_fexp_pos p' loc_Exact He1) as [Hm2 _].
  destruct (shr_fexp prec emax (Zpos p') e' loc_Exact) as [mrs'' e''].
  cbn [fst] in Hm2.
  destruct (shr_m mrs'') as [|m|m]; try lia.
  destruct (Z.leb e'' (emax - prec)); [left; eauto | right; reflexivity].
Qed.

Lemma binary_round_sign (s : bool) (p : positive) (e : Z) :
  emin64 <= e ->
  (exists m' e', binary_round prec emax s p e = S754_finite s m' e')
  \/ binary_round prec emax s p e = S754_infinity s.
Proof.
  intros He. unfold binary_round, shl_align. rewrite fexp_spec.
  destruct (Z.max (Zpos (digits2_pos p) + e - 53) emin64 - e) as [|d|d] eqn:Ed.
  - apply binary_round_aux_sign, He.
  - apply binary_round_aux_sign, He.
  - apply binary_round_aux_sign. lia.
Qed.

Lemma canonical_spec m e :
  canonical_mantissa prec emax m e = true ->
  emin64 <= e /\ Zpos (digits2_pos m) <= 53 /\ (emin64 < e -> Zpos (digits2_pos m) = 53).
Proof.
  unfold canonical_mantissa. rewrite fexp_spec. intros Hc.
  apply Z.eqb_eq in Hc. lia.
Qed.

Lemma shl_align_fst mx ex ez :
  ez <= ex -> Zpos (fst (shl_align mx ex ez)) = Zpos mx * 2 ^ (ex - ez).
Proof.
  intros Hle. unfold shl_align.
  destruct (ez - ex) as [|d|d] eqn:Ed; cbn [fst].
  - replace (ex - ez) with 0 by lia. cbn. lia.
  - lia.
  - rewrite iter_xO_pow. f_equal. f_equal. lia.
Qed.

(** On canonical mantissas the order by exponent, then mantissa, is the
    order of the magnitudes. *)
Lemma aligned_compare mx ex my ey :
  canonical_mantissa prec emax mx ex = true ->
  canonical_mantissa prec emax my ey = true ->
  (Zpos (fst (shl_align mx ex (Z.min ex ey))) ?= Zpos (fst (shl_align my ey (Z.min ex ey))))
  = match ex ?= ey with
    | Eq => Pos.compare_cont Eq mx my
    | Lt => Lt
    | Gt => Gt
    end.
Proof.
  intros Hx Hy.
  apply canonical_spec in Hx, Hy.
  destruct Hx as [Hex [Hdx Hnx]], Hy as [Hey [Hdy Hny]].
  pose proof (digits2_pos_bounds mx) as [Hxl Hxu].
  pose proof (digits2_pos_bounds my) as [Hyl Hyu].
  rewrite !shl_align_fst by lia.
  destruct (Z.compare_spec ex ey) as [E|L|G].
  - subst ey. rewrite Z.min_id, Z.sub_diag. cbn [Z.pow]. rewrite !Z.mul_1_r. reflexivity.
  - rewrite Z.min_l, Z.sub_diag by lia. cbn [Z.pow]. rewrite Z.mul_1_r.
    apply Z.compare_lt_iff.
    rewrite (Hny ltac:(lia)) in Hyl. cbn in Hyl.
    assert (Hp : 2 ^ 1 <= 2 ^ (ey - ex)) by (apply Z.pow_le_mono_r; lia).
    assert (Hq : 2 ^ Zpos (digits2_pos mx) <= 2 ^ 53) by (apply Z.pow_le_mono_r; lia).
    cbn in Hp, Hq. nia.
  - rewrite Z.min_r, Z.sub_diag by lia. cbn [Z.pow]. rewrite Z.mul_1_r.
    apply Z.compare_gt_iff.
    rewrite (Hnx ltac:(lia)) in Hxl. cbn in Hxl.
    assert (Hp : 2 ^ 1 <= 2 ^ (ex - ey)) by (apply Z.pow_le_mono_r; lia).
    assert (Hq : 2 ^ Zpos (digits2_pos my) <= 2 ^ 53) by (apply Z.pow_le_mono_r; lia).
    cbn in Hp, Hq. nia.
Qed.

Lemma SFltb_zero_sign x s :
  ((exists m e, x = S754_finite s m e) \/ x = S754_infinity s) ->
  SFltb x (S754_zero false) = s.
Proof.
  intros [[m [e ->]] | ->]; destruct s; reflexivity.
Qed.

(** The sign of a difference of two numbers tells their order. *)
Lemma SFltb_sub x y :
  valid_binary x = true -> valid_binary y = true ->
  x <> S754_nan -> y <> S754_nan ->
  SFltb (SF64sub x y) (S754_zero false) = SFltb x y.
Proof.
  intros Vx Vy Nx Ny.
  destruct x as [sx|sx| |sx mx ex]; [| |congruence|];
  destruct y as [sy|sy| |sy my ey]; try congruence;
    try (destruct sx, sy; reflexivity); try (destruct sx; reflexivity);
    try (destruct sy; reflexivity).
  cbn [valid_binary] in Vx, Vy. unfold bounded in Vx, Vy.
  apply andb_true_iff in Vx, Vy. destruct Vx as [Cx _], Vy as [Cy _].
  pose proof (aligned_compare mx ex my ey Cx Cy) as Hc.
  assert (Hez : emin64 <= Z.min ex ey)
    by (apply canonical_spec in Cx, Cy; lia).
  unfold SF64sub, SFsub, SFltb, SFcompare. cbv zeta.
  set (X := Zpos (fst (shl_align mx ex (Z.min ex ey)))) in *.
  set (Y := Zpos (fst (shl_align my ey (Z.min ex ey)))) in *.
  assert (HX : 0 < X) by (subst X; lia).
  assert (HY : 0 < Y) by (subst Y; lia).
  fold (SFcompare (binary_normalize prec emax (cond_Zopp sx X - cond_Zopp sy Y)
                     (Z.min ex ey) false) (S754_zero false)).
  fold (SFltb (binary_normalize prec emax (cond_Zopp sx X - cond_Zopp sy Y)
                 (Z.min ex ey) false) (S754_zero false)).
  assert (Hneg : forall D, D < 0 ->
            SFltb (binary_normalize prec emax D (Z.min ex ey) false) (S754_zero false) = true).
  { intros [|p|p] HD; try lia. cbn [binary_normalize].
    apply SFltb_zero_sign, binary_round_sign, Hez. }
  assert (Hpos : forall D, 0 <= D ->
            SFltb (binary_normalize prec emax D (Z.min ex ey) false) (S754_zero false) = false).
  { intros [|p|p] HD; try lia; [reflexivity|]. cbn [binary_normalize].
    destruct (binary_round_sign false p Hez) as [[m [e ->]] | ->]; reflexivity. }
  destruct sx, sy; cbn [cond_Zopp].
  - (* both negative *)
    destruct (Z.compare_spec X Y) as [E|L|G].
    + rewrite Hpos by lia. destruct (ex ?= ey); try discriminate.
      rewrite <- Hc. reflexivity.
    + rewrite Hpos by lia. destruct (ex ?= ey); try discriminate; try reflexivity.
      rewrite <- Hc. reflexivity.
    + rewrite Hneg by lia. destruct (ex ?= ey); try discriminate; try reflexivity.
      rewrite <- Hc. reflexivity.
  - rewrite Hneg by lia. reflexivity.
  - rewrite Hpos by lia. reflexivity.
  - destruct (Z.compare_spec X Y) as [E|L|G].
    + rewrite Hpos by lia. destruct (ex ?= ey); try discriminate.
      rewrite <- Hc. reflexivity.
    + rewrite Hneg by lia. destruct (ex ?= ey); try discriminate; try reflexivity.
      rewrite <- Hc. reflexivity.
    + rewrite Hpos by lia. destruct (ex ?= ey); try discriminate; try reflexivity.
      rewrite <- Hc. reflexivity.
Qed.

Lemma ltb_sub (a b : float) :
  is_nan a = false -> is_nan b = false ->
  PrimFloat.ltb (PrimFloat.sub a b) 0%float = PrimFloat.ltb a b.
Proof.
  intros Ha Hb. rewrite !FloatAxioms.ltb_spec, FloatAxioms.sub_spec.
  change (Prim2SF 0%float) with (S754_zero false).
  apply SFltb_sub; try apply Prim2SF_valid.
  - intros E. unfold is_nan in Ha. rewrite FloatAxioms.eqb_spec, E in Ha. discriminate.
  - intros E. unfold is_nan in Hb. rewrite FloatAxioms.eqb_spec, E in Hb. discriminate.
Qed.

Ltac compare_cases :=
  repeat match goal with
  | |- context [(?a ?= ?b)%Z] => destruct (Z.compare_spec a b)
  | |- context [Pos.compare_cont Eq ?a ?b] =>
      change (Pos.compare_cont Eq a b) with (Pos.compare a b);
      destruct (Pos.compare_spec a b)
  end.

Lemma SFltb_key x y :
  x <> S754_nan -> y <> S754_nan ->
  (SFltb x y = true <-> key_lt (key x) (key y)).
Proof.
  intros Nx Ny. unfold SFltb, SFcompare.
  destruct x as [sx|sx| |sx mx ex]; [| |congruence|];
  destruct y as [sy|sy| |sy my ey]; try congruence;
    try destruct sx; try destruct sy; cbn [key key_lt CompOpp];
    compare_cases; cbn [CompOpp]; split; intros Hk; try lia; try discriminate;
    try reflexivity.
Qed.

Lemma SFeqb_key x y :
  x <> S754_nan -> y <> S754_nan ->
  (SFeqb x y = true <-> key_eq (key x) (key y)).
Proof.
  intros Nx Ny. unfold SFeqb, SFcompare.
  destruct x as [sx|sx| |sx mx ex]; [| |congruence|];
  destruct y as [sy|sy| |sy my ey]; try congruence;
    try destruct sx; try destruct sy; cbn [key key_eq CompOpp];
    compare_cases; cbn [CompOpp]; split; intros Hk; try lia; try discriminate;
    try reflexivity.
Qed.

(** The comparator [(a, b) => a - b] is negative exactly when [a < b]. *)
Lemma compare_sign (a b : float) :
  not_nan a -> not_nan b ->
  ltb (sub a b) (of_Z 0) = ltb a b.
Proof. exact (ltb_sub a b). Qed.

Lemma ltb_not_nan (a b : float) :
  PrimFloat.ltb a b = true -> not_nan a /\ not_nan b.
Proof.
  rewrite FloatAxioms.ltb_spec. intros Hlt. split; apply not_nan_spec; intros E;
    rewrite E in Hlt; [|destruct (Prim2SF a)]; discriminate.
Qed.

Lemma ltb_key (a b : float) :
  not_nan a -> not_nan b ->
  (PrimFloat.ltb a b = true <-> key_lt (key (Prim2SF a)) (key (Prim2SF b))).
Proof.
  intros Ha Hb. rewrite FloatAxioms.ltb_spec.
  apply SFltb_key; apply not_nan_spec; assumption.
Qed.

Lemma same_value_zero_key (a b : float) :
  not_nan a -> not_nan b ->
  (float_same_value_zero a b = true <-> key_eq (key (Prim2SF a)) (key (Prim2SF b))).
Proof.
  intros Ha Hb. unfold float_same_value_zero. rewrite Ha. cbn [andb].
  rewrite orb_false_r, FloatAxioms.eqb_spec.
  apply SFeqb_key; apply not_nan_spec; assumption.
Qed.

Ltac keys :=
  repeat match goal with
  | |- context [key (Prim2SF ?a)] =>
      let k := fresh "k" in
      generalize (key (Prim2SF a)); intros k; destruct k as [[? ?] ?]
  end;
  cbn [key_lt key_eq].

Lemma ltb_trans (a b c : float) :
  PrimFloat.ltb a b = true -> PrimFloat.ltb b c = true -> PrimFloat.ltb a c = true.
Proof.
  intros Hab Hbc.
  destruct (ltb_not_nan Hab) as [Ha Hb], (ltb_not_nan Hbc) as [_ Hc].
  apply ltb_key in Hab, Hbc; try assumption. apply ltb_key; try assumption.
  revert Hab Hbc. keys. lia.
Qed.

Lemma lt_total (a b : float) :
  not_nan a -> not_nan b ->
  PrimFloat.ltb a b = true \/ float_same_value_zero a b = true \/ PrimFloat.ltb b a = true.
Proof.
  intros Ha Hb.
  rewrite (ltb_key Ha Hb), (ltb_key Hb Ha), (same_value_zero_key Ha Hb).
  keys. lia.
Qed.

Lemma same_value_zero_sym (a b : float) :
  not_nan a -> not_nan b ->
  float_same_value_zero a b = true -> float_same_value_zero b a = true.
Proof.
  intros Ha Hb. rewrite (same_value_zero_key Ha Hb), (same_value_zero_key Hb Ha).
  keys. lia.
Qed.

Lemma same_value_zero_trans (a b c : float) :
  not_nan a -> not_nan b -> not_nan c ->
  float_same_value_zero a b = true -> float_same_value_zero b c = true ->
  float_same_value_zero a c = true.
Proof.
  intros Ha Hb Hc.
  rewrite (same_value_zero_key Ha Hb), (same_value_zero_key Hb Hc),
    (same_value_zero_key Ha Hc).
  keys. lia.
Qed.

Lemma set_key_not_nan (a : float) : not_nan a -> not_nan (float_set_key a).
Proof.
  intros Ha. unfold float_set_key. destruct (is_zero a); [reflexivity | exact Ha].
Qed.

End Binary64.

(** ** The loops that fill the grid *)

Section GridFacts.

Context {N : Type} `{Number N}.

Lemma array_set_end {A} (a : jsarray A) (v : A) :
  array_set a (length a) v = a ++ [Some v].
Proof.
  unfold array_set. rewrite Nat.ltb_irrefl, Nat.sub_diag. reflexivity.
Qed.

(** A counted loop that assigns [row[j] = f(values[j])] for each index in
    turn builds the array of the [f(values[j])], without holes. *)
Lemma counted_loop_from {A B} (f : A -> B) (values done rest : list A) (row : jsarray B) :
  values = done ++ rest ->
  length row = length done ->
  fold_left
    (fun row j =>
       match nth_error values j with
       | Some v => array_set row j (f v)
       | None => row
       end)
    (seq (length done) (length rest)) row
  = row ++ map (fun v => Some (f v)) rest.
Proof.
  revert done row. induction rest as [|v rest IH]; intros done row E L; cbn.
  - rewrite app_nil_r. reflexivity.
  - subst values. rewrite nth_error_app2, Nat.sub_diag by lia. cbn.
    rewrite <- L, array_set_end, L.
    replace (S (length done)) with (length (done ++ [v]))
      by (rewrite length_app; cbn; lia).
    rewrite IH.
    + rewrite <- app_assoc. reflexivity.
    + rewrite <- app_assoc. reflexivity.
    + rewrite !length_app. cbn. lia.
Qed.

Lemma counted_loop {A B} (f : A -> B) (values : list A) :
  fold_left
    (fun row j =>
       match nth_error values j with
       | Some v => array_set row j (f v)
       | None => row
       end)
    (seq 0 (length values)) []
  = map (fun v => Some (f v)) values.
Proof.
  exact (counted_loop_from f (values:=values) [] values [] eq_refl eq_refl).
Qed.

Lemma fill_row_spec points terrainResolution uniqueX yi :
  fill_row points terrainResolution uniqueX yi
  = map (fun xj => Some (cell_value points terrainResolution xj yi)) uniqueX.
Proof. apply counted_loop. Qed.

Lemma fill_grid_spec points terrainResolution uniqueX uniqueY :
  fill_grid points terrainResolution uniqueX uniqueY
  = map (fun yi => Some (fill_row points terrainResolution uniqueX yi)) uniqueY.
Proof. apply counted_loop. Qed.

(** The entry [zGrid[i][j]] is the value computed for [uniqueX[j]] and
    [uniqueY[i]]. *)
Lemma fill_grid_entry points terrainResolution uniqueX uniqueY i j xj yi :
  nth_error uniqueX j = Some xj ->
  nth_error uniqueY i = Some yi ->
  exists row,
    nth_error (fill_grid points terrainResolution uniqueX uniqueY) i = Some (Some row) /\
    nth_error row j = Some (Some (cell_value points terrainResolution xj yi)).
Proof.
  intros Hx Hy. exists (fill_row points terrainResolution uniqueX yi). split.
  - rewrite fill_grid_spec, nth_error_map, Hy. reflexivity.
  - rewrite fill_row_spec, nth_error_map, Hx. reflexivity.
Qed.

End GridFacts.

(** ** Cells of the rebuilt height field *)

Section CellFacts.

Context {N : Type} `{Number N}.

Lemma find_map {A B} (f : B -> bool) (g : A -> B) (l : list A) :
  find f (map g l) = option_map g (find (fun a => f (g a)) l).
Proof.
  induction l as [|a l IH]; cbn; [reflexivity|].
  destruct (f (g a)); [reflexivity | exact IH].
Qed.

Lemma filter_map {A B} (f : B -> bool) (g : A -> B) (l : list A) :
  filter f (map g l) = map g (filter (fun a => f (g a)) l).
Proof.
  induction l as [|a l IH]; cbn; [reflexivity|].
  destruct (f (g a)); cbn; rewrite IH; reflexivity.
Qed.

Lemma fold_left_map {A B C} (f : C -> B -> C) (g : A -> B) (l : list A) (c : C) :
  fold_left f (map g l) c = fold_left (fun c a => f c (g a)) l c.
Proof.
  revert c. induction l as [|a l IH]; intros c; cbn; [reflexivity | apply IH].
Qed.

Lemma cell_value_samples centerPoint resolution samples xj yi :
  cell_value (make_points centerPoint samples) resolution xj yi
  = cell_of_samples centerPoint resolution samples xj yi.
Proof.
  unfold cell_value, cell_of_samples, make_points.
  rewrite find_map. change (fun a => is_matching xj yi _) with (at_cell centerPoint xj yi).
  destruct (find (at_cell centerPoint xj yi) samples) as [s|]; [reflexivity|].
  cbn [option_map]. rewrite filter_map.
  change (fun a => is_nearby resolution xj yi _)
    with (within_window centerPoint resolution xj yi).
  set (near := filter (within_window centerPoint resolution xj yi) samples).
  destruct near as [|s near]; [reflexivity|].
  unfold avgElevation, mean, length_number.
  rewrite !fold_left_map, !length_map. reflexivity.
Qed.

End CellFacts.




(** ** The local projection *)

(** What is no finite number, minus itself, times a number, is [NaN]. *)
Lemma sub_diag_inv (a k : float) :
  PrimFloat.mul (PrimFloat.sub a a) k = 0%float -> finite a.
Proof.
  intros E. apply Binary64.finite_spec.
  apply (f_equal Prim2SF) in E.
  rewrite FloatAxioms.mul_spec, FloatAxioms.sub_spec, Binary64.Prim2SF_zero in E.
  destruct (Prim2SF a) as [s|s| |s m e].
  - exists s. left. reflexivity.
  - exfalso. destruct s; cbn in E; destruct (Prim2SF k) as [| | |]; discriminate.
  - exfalso. cbn in E. destruct (Prim2SF k); discriminate.
  - exists s. right. exists m, e. reflexivity.
Qed.

(** C6, as stated, fails on binary64 at a center that [centerPoint] itself
    gives: the longitudes of two track points add up to [Infinity], the
    center has the longitude [Infinity], and projecting the center gives an
    x that is [NaN], not 0. *)
Lemma infinite_center_breaks_origin :
  let p := {| tp_latitude := 0%float; tp_longitude := 1.7976931348623157e308%float;
              tp_altitude := 0%float |} in
  let center := centerPoint [p; p] in
  center = {| c_latitude := 0%float; c_longitude := infinity |}
  /\ PrimFloat.is_nan
       (rc_x (convertToRelativeCoords center (c_longitude center) (c_latitude center)
                0%float)) = true
  /\ convertToRelativeCoords center (c_longitude center) (c_latitude center) 0%float
     <> {| rc_x := 0%float; rc_y := 0%float; rc_z := 0%float |}.
Proof.
  intros p center. split; [vm_compute; reflexivity|].
  split; [vm_compute; reflexivity|].
  intros E. apply (f_equal (fun r => PrimFloat.is_nan (rc_x r))) in E.
  vm_compute in E. discriminate.
Qed.

(** C6, amended. [convertToRelativeCoords] is linear, and it preserves the
    origin at the center points whose coordinates are finite numbers and at
    no other: projecting the center with elevation 0 gives [(0, 0, 0)] if
    and only if the center's longitude and latitude are finite; for every
    center and every input, x is [(longitude - center.longitude) * K] and y
    is [(latitude - center.latitude) * K] for the single constant
    [K = 111320], and the third input passes through unchanged as z. *)
Theorem project_linear_origin_preserving (centerPoint : Center float) :
  (convertToRelativeCoords centerPoint
     (c_longitude centerPoint) (c_latitude centerPoint) 0%float
   = {| rc_x := 0%float; rc_y := 0%float; rc_z := 0%float |}
   <-> finite (c_longitude centerPoint) /\ finite (c_latitude centerPoint))
  /\ forall lng lat elev : float,
       convertToRelativeCoords centerPoint lng lat elev
       = {| rc_x := PrimFloat.mul (PrimFloat.sub lng (c_longitude centerPoint)) 111320%float;
            rc_y := PrimFloat.mul (PrimFloat.sub lat (c_latitude centerPoint)) 111320%float;
            rc_z := elev |}.
Proof.
  split.
  - split.
    + intros E. unfold convertToRelativeCoords in E. cbn [sub mul float_number] in E.
      injection E as Ex Ey. split; [exact (sub_diag_inv Ex) | exact (sub_diag_inv Ey)].
    + intros [Flng Flat]. unfold convertToRelativeCoords. cbn [sub mul float_number].
      rewrite (Binary64.sub_diag Flng), (Binary64.sub_diag Flat). reflexivity.
  - intros lng lat elev. reflexivity.
Qed.

Lemma project_linear_origin_preserving_witness :
  convertToRelativeCoords {| c_latitude := 37.77495%float; c_longitude := (-122.4192)%float |}
    (-122.4192)%float 37.77495%float 0%float
  = {| rc_x := 0%float; rc_y := 0%float; rc_z := 0%float |}.
Proof.
  apply (proj2 (proj1 (project_linear_origin_preserving
           {| c_latitude := 37.77495%float; c_longitude := (-122.4192)%float |}))).
  split; reflexivity.
Defined.

(** ** Empty and single-sample input *)

Lemma set_key_strict_eq (a : float) :
  not_nan a -> PrimFloat.eqb a (float_set_key a) = true.
Proof.
  intros Ha. unfold float_set_key, PrimFloat.is_zero.
  destruct (PrimFloat.eqb a zero) eqn:E; [exact E | apply Binary64.eqb_refl, Ha].
Qed.

(** C7, as stated, fails on binary64 for a single sample with a coordinate
    that is [NaN]: the x axis holds the [NaN], which equals no coordinate
    and is near none, so that the sole entry is 0, not the sample's
    elevation 16. *)
Lemma single_nan_sample_is_lost :
  let centerPoint := {| c_latitude := 0%float; c_longitude := 0%float |} in
  let s := {| es_longitude := nan; es_latitude := 0.0001%float;
              es_elevation := 16%float |} in
  terrainData centerPoint 10%float [s]
  = {| td_x := [nan]; td_y := [11.132%float]; td_z := [Some [Some 0%float]] |}
  /\ ~ entry (terrainData centerPoint 10%float [s]) 0 0 (es_elevation s).
Proof.
  intros centerPoint s. split; [vm_compute; reflexivity|].
  intros [row [Hrow Hv]]. vm_compute in Hrow. injection Hrow as <-.
  vm_compute in Hv. discriminate.
Qed.

(** C7, amended. [terrainData] of no samples is the empty height field (no
    xs, no ys, z a single empty row); of a single sample whose projected x
    and y are numbers (not [NaN]) it is a 1-by-1 field whose sole entry is
    that sample's elevation. *)
Theorem rebuild_empty_and_single (centerPoint : Center float) (resolution : float) :
  terrainData centerPoint resolution []
  = {| td_x := []; td_y := []; td_z := [Some []] |}
  /\ forall s : ElevationSample float,
       not_nan (rc_x (projected centerPoint s)) ->
       not_nan (rc_y (projected centerPoint s)) ->
       terrainData centerPoint resolution [s]
       = {| td_x := [float_set_key (rc_x (projected centerPoint s))];
            td_y := [float_set_key (rc_y (projected centerPoint s))];
            td_z := [Some [Some (es_elevation s)]] |}.
Proof.
  split; [reflexivity|]. intros s Hx Hy.
  unfold terrainData. f_equal.
  rewrite fill_grid_spec. cbn [map make_points Array_from_Set fold_left Set_add existsb app
                               sort sort_insert relCoords].
  rewrite fill_row_spec. cbn [map]. do 3 f_equal.
  change [{| sample := s; relCoords := _ |}] with (make_points centerPoint [s]).
  rewrite cell_value_samples. unfold cell_of_samples. cbn [find].
  replace (at_cell centerPoint _ _ s) with true; [reflexivity|].
  symmetry. unfold at_cell. apply andb_true_intro. split.
  - apply (set_key_strict_eq Hx).
  - apply (set_key_strict_eq Hy).
Qed.

Lemma rebuild_empty_and_single_witness :
  terrainData {| c_latitude := 37.77495%float; c_longitude := (-122.4192)%float |} 10%float
    [ {| es_longitude := (-122.4194)%float; es_latitude := 37.7749%float;
         es_elevation := 16%float |} ]
  = {| td_x := [(-22.263999999157136)%float];
       td_y := [(-5.5659999993937959)%float];
       td_z := [Some [Some 16%float]] |}.
Proof.
  refine (eq_trans
    (proj2 (rebuild_empty_and_single
              {| c_latitude := 37.77495%float; c_longitude := (-122.4192)%float |} 10%float)
       {| es_longitude := (-122.4194)%float; es_latitude := 37.7749%float;
          es_elevation := 16%float |} _ _) _).
  - reflexivity.
  - reflexivity.
  - vm_compute. reflexivity.
Defined.

(** ** The simulated elevation *)


(** ** The center point *)

Section MeanFacts.

Context {N : Type} `{Number N}.

Lemma centerPoint_mean (trackPoints : list (TrackPoint N)) :
  centerPoint trackPoints
  = {| c_latitude := mean (map (@tp_latitude N) trackPoints);
       c_longitude := mean (map (@tp_longitude N) trackPoints) |}.
Proof.
  unfold centerPoint, mean, length_number.
  rewrite !fold_left_map, !length_map. reflexivity.
Qed.

End MeanFacts.

(** In exact arithmetic the sum of [n] values between [lo] and [hi], added
    to [acc], lies between [acc + n * lo] and [acc + n * hi]. *)
Lemma Q_sum_bounds (values : list Q) (lo hi acc : Q) :
  (forall v, In v values -> lo <= v /\ v <= hi)%Q ->
  (acc + inject_Z (Z.of_nat (length values)) * lo
     <= fold_left Qplus values acc
   /\ fold_left Qplus values acc
     <= acc + inject_Z (Z.of_nat (length values)) * hi)%Q.
Proof.
  revert acc. induction values as [|v values IH]; intros acc Hb.
  - cbn. change (inject_Z 0) with 0%Q. split; lra.
  - cbn [fold_left length]. rewrite Nat2Z.inj_succ, <- Z.add_1_r, inject_Z_plus.
    destruct (Hb v (or_introl eq_refl)) as [Hlo Hhi].
    destruct (IH (acc + v)%Q (fun w Hw => Hb w (or_intror Hw))) as [IHlo IHhi].
    change (inject_Z 1) with 1%Q. split; lra.
Qed.

(** In exact arithmetic the mean of a non-empty list lies between any
    bounds of its values. *)
Lemma Q_mean_bounds (values : list Q) (lo hi : Q) :
  values <> [] ->
  (forall v, In v values -> lo <= v /\ v <= hi)%Q ->
  (lo <= mean values /\ mean values <= hi)%Q.
Proof.
  intros Hne Hb. unfold mean, length_number. cbn [div add of_Z Q_number].
  destruct (Q_sum_bounds values (inject_Z 0) Hb) as [Hlo Hhi].
  change (inject_Z 0) with 0%Q in *.
  assert (Hn : (0 < inject_Z (Z.of_nat (length values)))%Q).
  { change 0%Q with (inject_Z 0). rewrite <- Zlt_Qlt.
    destruct values; [congruence | cbn [length]; lia]. }
  split.
  - apply Qle_shift_div_l; [exact Hn | lra].
  - apply Qle_shift_div_r; [exact Hn | lra].
Qed.

(** C8, as stated, fails on binary64: the center of three points at
    latitude and longitude 0.1 lies above 0.1, the maximum of the track. *)
Lemma centroid_outside_extremes :
  let p := {| tp_latitude := 0.1%float; tp_longitude := 0.1%float;
              tp_altitude := 0%float |} in
  let trackPoints := [p; p; p] in
  c_latitude (centerPoint trackPoints) = 0.10000000000000002%float /\
  ~ within_extremes float_le (@tp_latitude float) trackPoints
      (c_latitude (centerPoint trackPoints)).
Proof.
  intros p trackPoints. split; [reflexivity|].
  intros Hin.
  destruct (Hin 0.1%float 0.1%float) as [_ Hhi].
  - intros q [E | [E | [E | []]]]; subst q; split; reflexivity.
  - vm_compute in Hhi. discriminate.
Qed.

(** C8, amended. For every non-empty track the center point is the mean of
    the latitudes and of the longitudes independently, each computed as the
    binary64 sum from the left, starting at 0, divided by the count; in
    exact arithmetic its latitude and longitude each lie within the closed
    interval between the minimum and the maximum occurring in the track. *)
Theorem centroid_mean_within_extremes :
  (forall trackPoints : list (TrackPoint float),
     centerPoint trackPoints
     = {| c_latitude := mean (map (@tp_latitude float) trackPoints);
          c_longitude := mean (map (@tp_longitude float) trackPoints) |})
  /\ (forall trackPoints : list (TrackPoint Q),
        trackPoints <> [] ->
        within_extremes Qle (@tp_latitude Q) trackPoints
          (c_latitude (centerPoint trackPoints))
        /\ within_extremes Qle (@tp_longitude Q) trackPoints
             (c_longitude (centerPoint trackPoints))).
Proof.
  split; [intros trackPoints; apply centerPoint_mean|].
  intros trackPoints Hne. rewrite centerPoint_mean. cbn [c_latitude c_longitude].
  split; intros lo hi Hb; apply Q_mean_bounds.
  - destruct trackPoints; [congruence | discriminate].
  - intros v Hv. apply in_map_iff in Hv. destruct Hv as [p [E Hp]]. subst v.
    apply Hb, Hp.
  - destruct trackPoints; [congruence | discriminate].
  - intros v Hv. apply in_map_iff in Hv. destruct Hv as [p [E Hp]]. subst v.
    apply Hb, Hp.
Qed.

Lemma centroid_mean_within_extremes_witness :
  let trackPoints :=
    [ {| tp_latitude := 37.7749%Q; tp_longitude := (-122.4194)%Q; tp_altitude := 5%Q |};
      {| tp_latitude := 37.7750%Q; tp_longitude := (-122.4190)%Q; tp_altitude := 20%Q |} ] in
  within_extremes Qle (@tp_latitude Q) trackPoints (c_latitude (centerPoint trackPoints)).
Proof.
  intros trackPoints.
  apply (proj2 centroid_mean_within_extremes trackPoints). discriminate.
Defined.

(** ** The entries of the height field *)

Section EntryFacts.

Context {N : Type} `{Number N}.

(** Every entry of the grid is the value computed for its cell. *)
Lemma terrainData_entry centerPoint resolution samples i j v :
  entry (terrainData centerPoint resolution samples) i j v ->
  exists xj yi,
    nth_error (td_x (terrainData centerPoint resolution samples)) j = Some xj /\
    nth_error (td_y (terrainData centerPoint resolution samples)) i = Some yi /\
    v = cell_of_samples centerPoint resolution samples xj yi.
Proof.
  intros [row [Hrow Hv]].
  destruct samples as [|s0 samples'].
  - cbn in Hrow. destruct i as [|[|i]]; try discriminate.
    injection Hrow as <-. destruct j; discriminate.
  - remember (s0 :: samples') as samples eqn:Es.
    unfold terrainData in *. rewrite Es in Hrow |- *. rewrite <- Es in Hrow |- *.
    cbn [td_x td_y td_z] in *.
    rewrite fill_grid_spec, nth_error_map in Hrow.
    destruct (nth_error _ i) as [yi|] eqn:Hy in Hrow; [|discriminate].
    injection Hrow as <-.
    rewrite fill_row_spec, nth_error_map in Hv.
    destruct (nth_error _ j) as [xj|] eqn:Hx in Hv; [|discriminate].
    injection Hv as <-.
    exists xj, yi. rewrite cell_value_samples. repeat split; assumption.
Qed.

(** A cell holds a sample's elevation, the mean elevation of a non-empty
    selection of the samples, or 0. *)
Lemma cell_of_samples_cases centerPoint resolution samples xj yi :
  let v := cell_of_samples centerPoint resolution samples xj yi in
  (exists s, In s samples /\ v = es_elevation s)
  \/ (exists keep : ElevationSample N -> bool,
        filter keep samples <> [] /\
        v = mean (map (@es_elevation N) (filter keep samples)))
  \/ v = of_Z 0.
Proof.
  unfold cell_of_samples.
  destruct (find _ samples) as [s|] eqn:Hfind.
  - left. exists s. split; [exact (proj1 (find_some _ _ Hfind)) | reflexivity].
  - destruct (filter (within_window centerPoint resolution xj yi) samples)
      as [|s near] eqn:Hnear.
    + right; right. reflexivity.
    + right; left. exists (within_window centerPoint resolution xj yi).
      rewrite Hnear. split; [discriminate | reflexivity].
Qed.

End EntryFacts.

(** C10, as stated, fails on binary64: three samples of elevation 0.1 lie in
    the window of a cell that none of them hits, and their mean, the entry
    of that cell, lies above 0.1. *)
Lemma entry_outside_extremes :
  let centerPoint := {| c_latitude := 0%float; c_longitude := 0%float |} in
  let samples :=
    [ {| es_longitude := 0%float; es_latitude := 0%float; es_elevation := 0.1%float |};
      {| es_longitude := 0.00005%float; es_latitude := 0.00005%float;
         es_elevation := 0.1%float |};
      {| es_longitude := 0.0001%float; es_latitude := 0.0001%float;
         es_elevation := 0.1%float |} ] in
  let field := terrainData centerPoint 10%float samples in
  entry field 0 1 0.10000000000000002%float /\
  ~ (forall i j v, entry field i j v ->
       within_extremes_and_zero float_le 0%float (@es_elevation float) samples v).
Proof.
  intros centerPoint samples field.
  assert (He : entry field 0 1 0.10000000000000002%float).
  { eexists. split; vm_compute; reflexivity. }
  split; [exact He|].
  intros Hall.
  destruct (Hall 0%nat 1%nat _ He 0%float 0.1%float) as [_ Hhi].
  - reflexivity.
  - reflexivity.
  - intros s [E | [E | [E | []]]]; subst s; split; reflexivity.
  - vm_compute in Hhi. discriminate.
Qed.

(** C10, amended. For every sample sequence, every entry of the rebuilt
    height field's z matrix is one input sample's elevation, the mean of a
    non-empty selection of the input samples' elevations (their sum from
    the left, starting at 0, divided by their count), or 0; in exact
    arithmetic every entry therefore lies in the closed interval from
    [min(0, minimum elevation)] to [max(0, maximum elevation)]. *)
Theorem entry_cases_and_extremes :
  (forall (centerPoint : Center float) (resolution : float)
          (samples : list (ElevationSample float)) i j v,
     entry (terrainData centerPoint resolution samples) i j v ->
     (exists s, In s samples /\ v = es_elevation s)
     \/ (exists keep : ElevationSample float -> bool,
           filter keep samples <> [] /\
           v = mean (map (@es_elevation float) (filter keep samples)))
     \/ v = 0%float)
  /\ (forall (centerPoint : Center Q) (resolution : Q)
             (samples : list (ElevationSample Q)) i j v,
        entry (terrainData centerPoint resolution samples) i j v ->
        within_extremes_and_zero Qle 0%Q (@es_elevation Q) samples v).
Proof.
  split.
  - intros centerPoint resolution samples i j v He.
    destruct (terrainData_entry _ _ _ He) as [xj [yi [_ [_ ->]]]].
    exact (cell_of_samples_cases centerPoint resolution samples xj yi).
  - intros centerPoint resolution samples i j v He lo hi Hlo Hhi Hb.
    destruct (terrainData_entry _ _ _ He) as [xj [yi [_ [_ ->]]]].
    destruct (cell_of_samples_cases centerPoint resolution samples xj yi)
      as [[s [Hin ->]] | [[keep [Hne ->]] | ->]].
    + apply Hb, Hin.
    + apply Q_mean_bounds.
      * destruct (filter keep samples); [congruence | discriminate].
      * intros w Hw. apply in_map_iff in Hw. destruct Hw as [s [E Hs]]. subst w.
        apply Hb. apply filter_In in Hs. apply Hs.
    + split; assumption.
Qed.

Lemma entry_cases_and_extremes_witness :
  let centerPoint := {| c_latitude := 0%Q; c_longitude := 0%Q |} in
  let samples :=
    [ {| es_longitude := 0%Q; es_latitude := 0%Q; es_elevation := 4%Q |};
      {| es_longitude := 0.0001%Q; es_latitude := 0.0001%Q; es_elevation := 8%Q |} ] in
  (0 <= 12 # 2 /\ 12 # 2 <= 8)%Q.
Proof.
  intros centerPoint samples.
  apply (proj2 entry_cases_and_extremes centerPoint 10%Q samples 0%nat 1%nat (12 # 2)%Q).
  - eexists. split; vm_compute; reflexivity.
  - discriminate.
  - discriminate.
  - intros s [E | [E | []]]; subst s; split; discriminate.
Defined.

(** ** The batch loop *)

Section BatchFacts.

Context {N : Type}.

Lemma batch_loop_done (locations : list (Location N)) i allResults :
  (length locations <= i)%nat ->
  batch_loop locations i allResults = ret allResults.
Proof.
  intros Hi. rewrite batch_loop_equation_1.
  destruct (lt_dec i (length locations)) as [Hlt|Hge]; [lia | reflexivity].
Qed.

Lemma batch_loop_step (locations : list (Location N)) i allResults :
  (i < length locations)%nat ->
  batch_loop locations i allResults
  = bind (await_fetch (slice locations i (i + BATCH_SIZE)))
      (fun response =>
         if negb (ok response) then throw (status_error (status response))
         else
           bind (await_json response) (fun data_results =>
           bind (spread allResults data_results) (fun allResults' =>
           bind (await_timeout 100) (fun _ =>
           batch_loop locations (i + BATCH_SIZE) allResults')))).
Proof.
  intros Hi. rewrite batch_loop_equation_1.
  destruct (lt_dec i (length locations)) as [Hlt|Hge]; [reflexivity | lia].
Qed.

Lemma batch_count_spec (locations : list (Location N)) k :
  (k < batch_count locations <-> k * BATCH_SIZE < length locations)%nat.
Proof.
  unfold batch_count, BATCH_SIZE. cbn [Nat.sub].
  pose proof (Nat.div_mod_eq (length locations + 99) 100) as E.
  pose proof (Nat.mod_upper_bound (length locations + 99) 100) as R.
  lia.
Qed.

Lemma slice_batch (locations : list (Location N)) k :
  slice locations (k * BATCH_SIZE) (k * BATCH_SIZE + BATCH_SIZE) = batch locations k.
Proof.
  unfold slice, batch. f_equal. lia.
Qed.

(** The loop is the rounds over the batches still to serve. *)
Lemma batch_loop_rounds (service : Service N) (locations : list (Location N)) m :
  forall k allResults (w : World N),
    (k + m = batch_count locations)%nat ->
    let result := batch_loop locations (k * BATCH_SIZE) allResults service w in
    let rounds :=
      batch_rounds service (requests w) (map (batch locations) (seq k m)) allResults in
    fst result = fst rounds /\ trace (snd result) = trace w ++ snd rounds.
Proof.
  induction m as [|m IH]; intros k allResults w Hk; cbn zeta.
  - rewrite batch_loop_done.
    + cbn. rewrite app_nil_r. split; reflexivity.
    + assert (Hn : ~ (k < batch_count locations)%nat) by lia.
      rewrite batch_count_spec in Hn. lia.
  - rewrite batch_loop_step by (apply batch_count_spec; lia).
    rewrite slice_batch. cbn [seq map batch_rounds].
    replace (k * BATCH_SIZE + BATCH_SIZE)%nat with (S k * BATCH_SIZE)%nat by lia.
    cbv [bind await_fetch await_json spread await_timeout emit ret throw].
    destruct (service (requests w) (batch locations k)) as [|response];
      [split; reflexivity|].
    destruct (negb (ok response)); [split; reflexivity|].
    destruct (body response) as [| |r];
      try (cbn; rewrite <- app_assoc; split; reflexivity).
    match goal with
    | |- context [batch_loop locations (S k * BATCH_SIZE) ?a service ?w'] =>
        destruct (IH (S k) a w' ltac:(lia)) as [IHo IHt]
    end.
    cbn [requests trace] in IHo, IHt |- *.
    destruct (batch_rounds service (S (requests w)) _ (allResults ++ r)) as [outcome log].
    cbn [fst snd] in *. split; [exact IHo|].
    rewrite IHt, <- !app_assoc. reflexivity.
Qed.

End BatchFacts.

Section RoundsFacts.

Context {N : Type}.

Lemma concat_batches_upto (n : nat) :
  forall locations : list (Location N),
    (length locations <= n * BATCH_SIZE)%nat ->
    concat (map (batch locations) (seq 0 n)) = locations.
Proof.
  induction n as [|n IH]; intros locations Hlen.
  - destruct locations; [reflexivity | cbn in Hlen; lia].
  - cbn [seq map concat]. rewrite <- seq_shift, map_map.
    rewrite (map_ext _ (batch (skipn BATCH_SIZE locations))).
    + rewrite IH.
      * unfold batch. cbn [Nat.mul skipn]. apply firstn_skipn.
      * rewrite length_skipn. lia.
    + intros k. unfold batch. rewrite skipn_skipn. do 2 f_equal. lia.
Qed.

Lemma concat_batches (locations : list (Location N)) :
  concat (batches locations) = locations.
Proof.
  apply concat_batches_upto.
  destruct (Nat.le_gt_cases (length locations) (batch_count locations * BATCH_SIZE))
    as [Hle|Hgt]; [exact Hle|].
  apply batch_count_spec in Hgt. lia.
Qed.

Lemma batches_sizes (locations : list (Location N)) :
  Forall (fun b => 1 <= length b <= BATCH_SIZE)%nat (batches locations).
Proof.
  apply Forall_forall. intros b Hb. unfold batches in Hb.
  apply in_map_iff in Hb. destruct Hb as [k [<- Hk]].
  apply in_seq in Hk. destruct Hk as [_ Hk]. cbn in Hk.
  apply batch_count_spec in Hk.
  unfold batch. rewrite length_firstn, length_skipn. unfold BATCH_SIZE in *. lia.
Qed.

(** When every batch is answered, the rounds return the answers, in order,
    and each batch is requested once and followed by the delay. *)
Lemma rounds_answered (service : Service N) bs :
  forall n allResults answers,
    answered service n bs answers ->
    batch_rounds service n bs allResults
    = (Return (allResults ++ concat answers), concat (map (@served N) bs)).
Proof.
  induction bs as [|b bs IH]; intros n allResults answers Ha.
  - destruct answers; [|destruct Ha]. cbn. rewrite app_nil_r. reflexivity.
  - destruct answers as [|r answers]; [destruct Ha|].
    destruct Ha as [[response [Es [Eok Eb]]] Ha].
    cbn [batch_rounds]. rewrite Es, Eok, Eb. cbn [negb].
    rewrite (IH _ _ _ Ha). cbn [concat map]. rewrite <- app_assoc. reflexivity.
Qed.

(** When the batches before [b] are answered and [b] receives a
    non-success status, the rounds end there with the status error. *)
Lemma rounds_status_error (service : Service N) done :
  forall n allResults answers b rest response,
    answered service n done answers ->
    service (n + length done)%nat b = fulfilled response ->
    ok response = false ->
    batch_rounds service n (done ++ b :: rest) allResults
    = (Throw (status_error (status response)),
       concat (map (@served N) done) ++ [fetch b]).
Proof.
  induction done as [|d done IH]; intros n allResults answers b rest response Ha Es Eok.
  - cbn in Es |- *. rewrite Nat.add_0_r in Es. rewrite Es, Eok. reflexivity.
  - destruct answers as [|r answers]; [destruct Ha|].
    destruct Ha as [[response' [Es' [Eok' Eb']]] Ha].
    cbn [app batch_rounds]. rewrite Es', Eok', Eb'. cbn [negb].
    rewrite (IH (S n) _ answers b rest response Ha); [reflexivity | | exact Eok].
    rewrite <- Es. f_equal. cbn. lia.
Qed.

(** The rounds return exactly when every batch is answered. *)
Lemma rounds_return (service : Service N) bs :
  forall n allResults all,
    fst (batch_rounds service n bs allResults) = Return all ->
    exists answers,
      answered service n bs answers /\ all = allResults ++ concat answers.
Proof.
  induction bs as [|b bs IH]; intros n allResults all Hr.
  - cbn in Hr. injection Hr as <-. exists []. split; [exact I|].
    cbn. rewrite app_nil_r. reflexivity.
  - cbn [batch_rounds] in Hr.
    destruct (service n b) as [|response] eqn:Es; [discriminate|].
    destruct (ok response) eqn:Eok; [|discriminate]. cbn [negb] in Hr.
    destruct (body response) as [| |r] eqn:Eb; try discriminate.
    destruct (batch_rounds service (S n) bs (allResults ++ r)) as [outcome log] eqn:Er.
    cbn [fst] in Hr.
    destruct (IH (S n) (allResults ++ r) all) as [answers [Ha ->]].
    + rewrite Er. exact Hr.
    + exists (r :: answers). split.
      * split; [exists response; repeat split; assumption | exact Ha].
      * cbn [concat]. rewrite app_assoc. reflexivity.
Qed.

End RoundsFacts.

(** C4, as stated, fails: a single batch is followed by the delay although
    no batch comes after it. *)
Lemma delay_after_last_batch :
  let location := {| loc_latitude := 37.7749%float; loc_longitude := (-122.4194)%float |} in
  let answer := {| es_longitude := (-122.4194)%float; es_latitude := 37.7749%float;
                   es_elevation := 16%float |} in
  let service : Service float :=
    fun _ _ => fulfilled {| status := 200; body := results [answer] |} in
  let log := trace (snd (batch_loop [location] 0 [] service new_world)) in
  log = [fetch [location]; response_json; setTimeout 100] /\
  ~ delays_only_between_batches log.
Proof.
  intros location answer service log.
  assert (E : log = [fetch [location]; response_json; setTimeout 100])
    by (vm_compute; reflexivity).
  split; [exact E|].
  intros Hd.
  destruct (Hd [fetch [location]; response_json] [] 100%Z E) as [locations []].
Qed.

(** C4, amended. For every sequence of sample locations, the primary path
    partitions the locations into consecutive batches of at most 100 and
    serves them one after the other: when every batch is answered it has
    issued exactly one request per batch, in order, each followed by the
    reading of its results and by a fixed 100 ms delay -- the last batch
    included --, and it returns all results in request order; when a batch
    receives a non-success status, the batches before it having been
    answered, it throws the status error at once, having issued no request
    after that one. *)
Theorem batch_loop_serves_batches {N : Type} (service : Service N)
    (locations : list (Location N)) :
  let bs := batches locations in
  let result := batch_loop locations 0 [] service new_world in
  concat bs = locations
  /\ Forall (fun b => 1 <= length b <= BATCH_SIZE)%nat bs
  /\ (forall answers,
        answered service 0 bs answers ->
        fst result = Return (concat answers) /\
        trace (snd result) = concat (map (@served N) bs))
  /\ (forall done b rest answers response,
        bs = done ++ b :: rest ->
        answered service 0 done answers ->
        service (length done) b = fulfilled response ->
        ok response = false ->
        fst result = Throw (status_error (status response)) /\
        trace (snd result) = concat (map (@served N) done) ++ [fetch b]).
Proof.
  intros bs result.
  destruct (batch_loop_rounds service locations (batch_count locations)
              0 [] new_world eq_refl) as [Ho Ht].
  fold (batches locations) in Ho, Ht. fold bs in Ho, Ht.
  change (batch_loop locations (0 * BATCH_SIZE) [] service new_world) with result in Ho, Ht.
  cbn [requests trace new_world app] in Ho, Ht.
  split; [apply concat_batches|]. split; [apply batches_sizes|]. split.
  - intros answers Ha. rewrite Ho, Ht, (rounds_answered _ _ _ [] _ Ha). split; reflexivity.
  - intros done b rest answers response Eb Ha Es Eok.
    rewrite Ho, Ht, Eb.
    rewrite (rounds_status_error service done 0 [] answers b rest Ha Es Eok).
    split; reflexivity.
Qed.

Lemma batch_loop_serves_batches_witness :
  let location := {| loc_latitude := 37.7749%float; loc_longitude := (-122.4194)%float |} in
  let service : Service float :=
    fun _ _ => fulfilled {| status := 500; body := invalid_json |} in
  let result := batch_loop [location] 0 [] service new_world in
  fst result = Throw (status_error 500) /\ trace (snd result) = [fetch [location]].
Proof.
  intros location service result.
  destruct (batch_loop_serves_batches service [location]) as [_ [_ [_ Habort]]].
  apply (Habort [] [location] [] [] {| status := 500; body := invalid_json |});
    [reflexivity | exact I | reflexivity | reflexivity].
Defined.

(** ** The whole call *)

Section RunFacts.

Context {N : Type} `{Number N} `{Trig N}.

(** The log of a call on a non-empty grid: the start, the rounds over the
    batches, then the success events or, on any error, the fallback. *)
Lemma run_log (service : Service N) (gridPoints : list (Feature N))
    (centerPoint : Center N) :
  gridPoints <> [] ->
  let rounds := batch_rounds service 0 (batches (make_locations gridPoints)) [] in
  run service gridPoints centerPoint
  = start_events ++ snd rounds ++
    match fst rounds with
    | Return allResults => success_events allResults
    | Throw _ => fallback_events centerPoint gridPoints
    end.
Proof.
  intros Hne rounds. unfold run, elevation_effect.
  destruct gridPoints as [|f gridPoints']; [congruence|].
  remember (f :: gridPoints') as gridPoints eqn:Eg. clear Hne.
  unfold fetchElevationData.
  cbv [try_catch bind emit].
  cbn [requests trace new_world app].
  match goal with
  | |- context [batch_loop ?l 0 [] service ?w] =>
      destruct (batch_loop_rounds service l (batch_count l) 0 [] w eq_refl) as [Ho Ht];
      change (0 * BATCH_SIZE)%nat with 0%nat in Ho, Ht;
      destruct (batch_loop l 0 [] service w) as [outcome w'] eqn:El
  end.
  fold (batches (make_locations gridPoints)) in Ho, Ht. subst rounds.
  cbn [fst snd requests trace] in Ho, Ht.
  rewrite <- Ho.
  destruct outcome as [allResults|e]; cbn [snd trace requests]; rewrite Ht;
    rewrite <- !app_assoc; reflexivity.
Qed.

Lemma replay_app (s : State N) (log1 log2 : list (Event N)) :
  replay s (log1 ++ log2) = replay (replay s log1) log2.
Proof. apply fold_left_app. Qed.

(** The requests and the awaited operations leave the state alone. *)
Lemma replay_rounds (service : Service N) bs :
  forall n allResults (s : State N),
    replay s (snd (batch_rounds service n bs allResults)) = s.
Proof.
  induction bs as [|b bs IH]; intros n allResults s; [reflexivity|].
  cbn [batch_rounds].
  destruct (service n b) as [|response]; [reflexivity|].
  destruct (negb (ok response)); [reflexivity|].
  destruct (body response) as [| |r]; try reflexivity.
  specialize (IH (S n) (allResults ++ r) s).
  destruct (batch_rounds service (S n) bs (allResults ++ r)) as [outcome log].
  exact IH.
Qed.

(** The state a call leaves, whatever the state before. *)
Lemma run_state (service : Service N) (gridPoints : list (Feature N))
    (centerPoint : Center N) (s : State N) :
  gridPoints <> [] ->
  replay s (run service gridPoints centerPoint)
  = match fst (batch_rounds service 0 (batches (make_locations gridPoints)) []) with
    | Return allResults =>
        {| isLoading := false; errorMessage := None; elevationData := allResults |}
    | Throw _ =>
        {| isLoading := false; errorMessage := Some failure_message;
           elevationData := map (simulate centerPoint) gridPoints |}
    end.
Proof.
  intros Hne. rewrite (run_log service centerPoint Hne). cbv zeta.
  rewrite !replay_app, replay_rounds.
  destruct (fst (batch_rounds service 0 (batches (make_locations gridPoints)) []));
    reflexivity.
Qed.

Lemma answered_lengths (service : Service N) bs :
  forall n answers,
    answers_every_location service ->
    answered service n bs answers ->
    length (concat answers) = length (concat bs).
Proof.
  induction bs as [|b bs IH]; intros n answers Hs Ha.
  - destruct answers; [reflexivity | destruct Ha].
  - destruct answers as [|r answers]; [destruct Ha|].
    destruct Ha as [[response [Es [_ Eb]]] Ha].
    cbn [concat]. rewrite !length_app, (Hs _ _ _ _ Es Eb), (IH _ _ Hs Ha). reflexivity.
Qed.

End RunFacts.

(** C2, as stated, fails: a service that answers with a success status and
    an array of no results leaves no sample for the one grid point, and no
    notice. *)
Lemma resolve_misses_samples :
  let gridPoints := [ {| coordinates := ((-122.4194)%float, 37.7749%float) |} ] in
  let centerPoint := {| c_latitude := 37.7749%float; c_longitude := (-122.4194)%float |} in
  let service : Service float :=
    fun _ _ => fulfilled {| status := 200; body := results [] |} in
  let final :=
    replay initial_state (run (H0 := unused_trig) service gridPoints centerPoint) in
  final = {| isLoading := false; errorMessage := None; elevationData := [] |}
  /\ length (elevationData final) <> length gridPoints.
Proof. split; [vm_compute; reflexivity | vm_compute; discriminate]. Qed.

(** C2, amended. For every non-empty sequence of grid points the call runs
    to its end and leaves the state as follows.  When every batch is
    answered with a success status and an array of results, the stored
    data are those results in request order and no notice is set: one
    sample per grid point when the service returns one result per location.
    On any failure (a rejected request, a non-success status, a body that
    is not JSON or has no array of results) the results accumulated so far
    are dropped, the stored data are the simulated sample of every grid
    point, one for each, and the notice is set. *)
Theorem resolve_outcome {N : Type} `{Number N} `{Trig N} (service : Service N)
    (gridPoints : list (Feature N)) (centerPoint : Center N) (s : State N) :
  gridPoints <> [] ->
  let bs := batches (make_locations gridPoints) in
  let final := replay s (run service gridPoints centerPoint) in
  (forall answers,
     answered service 0 bs answers ->
     final = {| isLoading := false; errorMessage := None;
                elevationData := concat answers |}
     /\ (answers_every_location service ->
         length (elevationData final) = length gridPoints))
  /\ ((forall answers, ~ answered service 0 bs answers) ->
      final = {| isLoading := false; errorMessage := Some failure_message;
                 elevationData := map (simulate centerPoint) gridPoints |}
      /\ length (elevationData final) = length gridPoints).
Proof.
  intros Hne bs final. subst final. rewrite (run_state service centerPoint s Hne).
  fold bs. split.
  - intros answers Ha. rewrite (rounds_answered _ _ _ [] _ Ha). cbn [fst app].
    split; [reflexivity|]. intros Hs. cbn [elevationData].
    rewrite (answered_lengths _ _ _ Hs Ha). subst bs.
    rewrite concat_batches. apply length_map.
  - intros Hno.
    destruct (fst (batch_rounds service 0 bs [])) as [all|e] eqn:Er.
    + destruct (rounds_return _ _ _ _ Er) as [answers [Ha _]].
      destruct (Hno answers Ha).
    + split; [reflexivity | apply length_map].
Qed.

Lemma resolve_outcome_witness :
  let gridPoints := [ {| coordinates := (1%Q, 2%Q) |}; {| coordinates := (3%Q, 4%Q) |} ] in
  let centerPoint := {| c_latitude := 3%Q; c_longitude := 2%Q |} in
  let service : Service Q :=
    fun _ _ => fulfilled {| status := 500; body := invalid_json |} in
  let trig : Trig Q := {| sin := fun a => a; cos := fun _ => 1%Q |} in
  length (elevationData (replay initial_state (run service gridPoints centerPoint))) = 2%nat.
Proof.
  intros gridPoints centerPoint service trig.
  refine (proj2 (proj2 (resolve_outcome service centerPoint initial_state
                          (gridPoints := gridPoints) _) _)).
  - discriminate.
  - intros [|r [|r' answers]] Ha; cbn in Ha.
    + exact Ha.
    + destruct Ha as [[response [Es [Eok _]]] _]. injection Es as <-. discriminate.
    + destruct Ha as [_ []].
Defined.

(** ** Calls that overlap *)

Section TurnFacts.

Context {N : Type} `{Number N} `{Trig N}.

Lemma interleaved_app_right {A} (a b : list A) : interleaved a b (b ++ a).
Proof.
  induction b as [|t b IH]; cbn.
  - induction a as [|t a IH]; [constructor | apply interleaved_left, IH].
  - apply interleaved_right, IH.
Qed.

Lemma interleaved_app_left {A} (p a b m : list A) :
  interleaved a b m -> interleaved (p ++ a) b (p ++ m).
Proof.
  intros Hi. induction p as [|t p IH]; [exact Hi | apply interleaved_left, IH].
Qed.

Lemma overlapping_interleaved {A} (a b m : list A) :
  overlapping a b m -> interleaved a b m /\ m <> [].
Proof.
  intros [a1 [a2 [b1 [b2 [m2 [-> [Ha1 [_ [-> [Hi ->]]]]]]]]]]. split.
  - apply interleaved_app_left, interleaved_right, Hi.
  - destruct a1; [congruence | discriminate].
Qed.

(** The schedule in which the newer call starts after the first turn of the
    older one and completes before the older call goes on. *)
Lemma overlapping_newer_first {A} (a1 b1 : A) (a2 b2 : list A) :
  a2 <> [] -> overlapping (a1 :: a2) (b1 :: b2) (a1 :: b1 :: b2 ++ a2).
Proof.
  intros Ha2. exists [a1], a2, b1, b2, (b2 ++ a2).
  repeat split; try assumption; try discriminate. apply interleaved_app_right.
Qed.

(** The schedule in which the newer call starts after the first turn of the
    older one and goes on once the older call has completed. *)
Lemma overlapping_older_first {A} (a1 b1 : A) (a2 b2 : list A) :
  a2 <> [] -> overlapping (a1 :: a2) (b1 :: b2) (a1 :: b1 :: a2 ++ b2).
Proof.
  intros Ha2. exists [a1], a2, b1, b2, (a2 ++ b2).
  repeat split; try assumption; try discriminate.
  rewrite <- (app_nil_r a2) at 1. apply interleaved_app_left.
  induction b2 as [|t b2 IH]; [constructor | apply interleaved_right, IH].
Qed.

Lemma last_cons {A} (t d : A) (l : list A) : l <> [] -> last (t :: l) d = last l d.
Proof. destruct l; [congruence | reflexivity]. Qed.

(** The last turn of an interleaving is the last turn of one of the two. *)
Lemma interleaved_last {A} (a b m : list A) (d : A) :
  interleaved a b m ->
  m <> [] ->
  (a <> [] /\ last m d = last a d) \/ (b <> [] /\ last m d = last b d).
Proof.
  intros Hi. induction Hi as [|t a b m Hi IH|t a b m Hi IH]; intros Hm.
  - congruence.
  - destruct m as [|t' m'].
    + inversion Hi; subst. left. split; [discriminate | reflexivity].
    + rewrite last_cons by discriminate.
      destruct (IH ltac:(discriminate)) as [[Ha E] | [Hb E]].
      * left. split; [discriminate|]. rewrite (last_cons t d Ha). exact E.
      * right. split; assumption.
  - destruct m as [|t' m'].
    + inversion Hi; subst. right. split; [discriminate | reflexivity].
    + rewrite last_cons by discriminate.
      destruct (IH ltac:(discriminate)) as [[Ha E] | [Hb E]].
      * left. split; assumption.
      * right. split; [discriminate|]. rewrite (last_cons t d Hb). exact E.
Qed.

Lemma turns_nonempty (log : list (Event N)) : log <> [] -> turns log <> [].
Proof.
  destruct log as [|e rest]; [congruence|]. intros _. cbn.
  destruct (is_await e); [discriminate|].
  destruct (turns rest); discriminate.
Qed.

(** A turn ends at an awaited operation. *)
Lemma turns_app_await (pre rest : list (Event N)) (e : Event N) :
  is_await e = true ->
  turns (pre ++ e :: rest) = turns (pre ++ [e]) ++ turns rest.
Proof.
  intros He. induction pre as [|e' pre IH]; cbn [app turns].
  - rewrite He. reflexivity.
  - destruct (is_await e'); [rewrite IH; reflexivity|].
    rewrite IH.
    destruct (turns (pre ++ [e])) as [|turn later] eqn:Et; [|reflexivity].
    exfalso. revert Et. apply turns_nonempty. destruct pre; discriminate.
Qed.

(** Events without an awaited operation among them are a single turn. *)
Lemma turns_single (log : list (Event N)) :
  log <> [] ->
  Forall (fun e => is_await e = false) log ->
  turns log = [log].
Proof.
  induction log as [|e rest IH]; [congruence|]. intros _ Hf.
  inversion Hf as [|e' rest' He Hrest]; subst. cbn [turns]. rewrite He.
  destruct rest as [|e2 rest2]; [reflexivity|].
  rewrite IH; [reflexivity | discriminate | exact Hrest].
Qed.

Lemma last_turn (pre final : list (Event N)) (e : Event N) :
  is_await e = true ->
  final <> [] ->
  Forall (fun e => is_await e = false) final ->
  last (turns ((pre ++ [e]) ++ final)) [] = final.
Proof.
  intros He Hne Hf. rewrite <- app_assoc. cbn [app].
  rewrite turns_app_await by exact He. rewrite (turns_single Hne Hf).
  apply last_last.
Qed.

Lemma rounds_log_awaits (service : Service N) bs :
  forall n allResults,
    Forall (fun e => is_await e = true) (snd (batch_rounds service n bs allResults)).
Proof.
  induction bs as [|b bs IH]; intros n allResults; [constructor|].
  cbn [batch_rounds].
  destruct (service n b) as [|response]; [repeat constructor|].
  destruct (negb (ok response)); [repeat constructor|].
  destruct (body response) as [| |r]; try (repeat constructor).
  specialize (IH (S n) (allResults ++ r)).
  destruct (batch_rounds service (S n) bs (allResults ++ r)) as [outcome log].
  repeat constructor. exact IH.
Qed.

Lemma rounds_log_nonempty (service : Service N) b bs n allResults :
  snd (batch_rounds service n (b :: bs) allResults) <> [].
Proof.
  cbn [batch_rounds].
  destruct (service n b) as [|response]; [discriminate|].
  destruct (negb (ok response)); [discriminate|].
  destruct (body response) as [| |r]; try discriminate.
  destruct (batch_rounds service (S n) bs (allResults ++ r)). discriminate.
Qed.

Lemma batches_nonempty (locations : list (Location N)) :
  locations <> [] -> batches locations <> [].
Proof.
  intros Hne. unfold batches.
  assert (Hc : (0 < batch_count locations)%nat).
  { apply batch_count_spec. destruct locations; [congruence | cbn; lia]. }
  destruct (batch_count locations); [lia | discriminate].
Qed.

(** The last turn of a call is made of its final events: the data are
    stored when the call completes. *)
Lemma run_last_turn (service : Service N) (gridPoints : list (Feature N))
    (centerPoint : Center N) :
  gridPoints <> [] ->
  last (turns (run service gridPoints centerPoint)) []
  = final_events service gridPoints centerPoint.
Proof.
  intros Hne. rewrite (run_log service centerPoint Hne). cbv zeta.
  fold (final_events service gridPoints centerPoint).
  pose proof (rounds_log_awaits service (batches (make_locations gridPoints)) 0 [])
    as Haw.
  assert (Hlog : snd (batch_rounds service 0 (batches (make_locations gridPoints)) [])
                 <> []).
  { destruct (batches (make_locations gridPoints)) as [|b bs] eqn:Eb.
    - exfalso. revert Eb. apply batches_nonempty.
      destruct gridPoints; [congruence | discriminate].
    - apply rounds_log_nonempty. }
  destruct (exists_last Hlog) as [pre [e Elog]]. rewrite Elog in Haw |- *.
  replace (start_events ++ (pre ++ [e]) ++ final_events service gridPoints centerPoint)
    with (((start_events ++ pre) ++ [e]) ++ final_events service gridPoints centerPoint)
    by (rewrite <- !app_assoc; reflexivity).
  apply last_turn.
  - apply Forall_app in Haw. destruct Haw as [_ Haw]. inversion Haw; assumption.
  - unfold final_events. destruct (fst _); discriminate.
  - unfold final_events. destruct (fst _); repeat constructor.
Qed.

Lemma replay_final_events (service : Service N) (gridPoints : list (Feature N))
    (centerPoint : Center N) (s s' : State N) :
  gridPoints <> [] ->
  elevationData (replay s' (final_events service gridPoints centerPoint))
  = elevationData (replay s (run service gridPoints centerPoint)).
Proof.
  intros Hne. rewrite (run_state service centerPoint s Hne). unfold final_events.
  destruct (fst _); reflexivity.
Qed.

Lemma turns_awaits (log rest : list (Event N)) :
  Forall (fun e => is_await e = true) log ->
  turns (log ++ rest) = map (fun e => [e]) log ++ turns rest.
Proof.
  induction 1 as [|e log He _ IH]; [reflexivity|].
  cbn [app turns map]. rewrite He, IH. reflexivity.
Qed.

Lemma turns_first (pre rest : list (Event N)) (e : Event N) :
  Forall (fun e => is_await e = false) pre ->
  is_await e = true ->
  turns (pre ++ e :: rest) = (pre ++ [e]) :: turns rest.
Proof.
  intros Hpre He. induction Hpre as [|x pre Hx _ IH]; cbn [app turns].
  - rewrite He. reflexivity.
  - rewrite Hx, IH. reflexivity.
Qed.

(** The turns of a call: the start up to the first request, one turn for
    each further awaited operation, and the final events. *)
Lemma run_turns (service : Service N) (gridPoints : list (Feature N))
    (centerPoint : Center N) :
  gridPoints <> [] ->
  exists e awaits,
    is_await e = true /\
    Forall (fun e => is_await e = true) awaits /\
    turns (run service gridPoints centerPoint)
    = (start_events ++ [e]) :: map (fun e => [e]) awaits
      ++ [final_events service gridPoints centerPoint].
Proof.
  intros Hne. rewrite (run_log service centerPoint Hne). cbv zeta.
  fold (final_events service gridPoints centerPoint).
  pose proof (rounds_log_awaits service (batches (make_locations gridPoints)) 0 [])
    as Haw.
  destruct (snd (batch_rounds service 0 (batches (make_locations gridPoints)) []))
    as [|e awaits] eqn:Elog.
  - exfalso. revert Elog.
    destruct (batches (make_locations gridPoints)) as [|b bs] eqn:Eb.
    + exfalso. revert Eb. apply batches_nonempty.
      destruct gridPoints; [congruence | discriminate].
    + apply rounds_log_nonempty.
  - inversion Haw as [|e' awaits' He Hawaits]; subst.
    exists e, awaits. split; [exact He|]. split; [exact Hawaits|].
    cbn [app]. rewrite (turns_first (pre := start_events)).
    + rewrite turns_awaits by exact Hawaits. f_equal. f_equal.
      apply turns_single.
      * unfold final_events. destruct (fst _); discriminate.
      * unfold final_events. destruct (fst _); repeat constructor.
    + repeat constructor.
    + exact He.
Qed.


Lemma existsb_concat {A} (f : A -> bool) (l : list (list A)) :
  existsb f (concat l) = existsb (existsb f) l.
Proof.
  induction l as [|t l IH]; [reflexivity|].
  cbn [concat existsb]. rewrite existsb_app, IH. reflexivity.
Qed.

Lemma interleaved_existsb {A} (f : A -> bool) (a b m : list A) :
  interleaved a b m -> existsb f m = existsb f a || existsb f b.
Proof.
  induction 1 as [|t a b m _ IH|t a b m _ IH]; cbn [existsb].
  - reflexivity.
  - rewrite IH. apply orb_assoc.
  - rewrite IH. rewrite !orb_assoc. f_equal. apply orb_comm.
Qed.

Lemma interleaved_Forall {A} (P : A -> Prop) (a b m : list A) :
  interleaved a b m -> Forall P a -> Forall P b -> Forall P m.
Proof.
  induction 1 as [|t a b m _ IH|t a b m _ IH]; intros Ha Hb.
  - constructor.
  - inversion Ha; subst. constructor; auto.
  - inversion Hb; subst. constructor; auto.
Qed.

(** Events that do not clear the notice and set no other message than the
    failure message leave the notice set when one of them sets it, and as
    it was otherwise. *)
Lemma replay_notice (log : list (Event N)) :
  Forall (fun e => forall m, e = setErrorMessage m -> m = Some failure_message) log ->
  forall s : State N,
    errorMessage (replay s log)
    = if existsb sets_notice log then Some failure_message else errorMessage s.
Proof.
  induction 1 as [|e log He _ IH]; intros s; [reflexivity|].
  cbn [replay fold_left existsb]. fold (replay (apply_event s e) log). rewrite IH.
  destruct e as [b|m|d| | | |ms]; cbn [sets_notice orb apply_event errorMessage];
    try reflexivity.
  rewrite (He m eq_refl). cbn. destruct (existsb sets_notice log); reflexivity.
Qed.

Lemma final_events_notice (service : Service N) gridPoints centerPoint :
  Forall (fun e => forall m, e = setErrorMessage m -> m = Some failure_message)
    (final_events service gridPoints centerPoint)
  /\ existsb sets_notice (final_events service gridPoints centerPoint)
     = fell_back service gridPoints
  /\ forall s : State N,
       isLoading (replay s (final_events service gridPoints centerPoint)) = false.
Proof.
  unfold final_events, fell_back.
  destruct (fst _); (split; [|split; [reflexivity | intros s; reflexivity]]);
    repeat constructor; try discriminate.
  intros m E. injection E as <-. reflexivity.
Qed.

(** What is left of a call after some of its turns, when something is
    left: awaited operations and then the final events. *)
Lemma run_turns_suffix (service : Service N) gridPoints centerPoint a1 a2 :
  gridPoints <> [] ->
  turns (run service gridPoints centerPoint) = a1 ++ a2 ->
  a1 <> [] -> a2 <> [] ->
  (exists e, is_await e = true /\ hd [] a1 = start_events ++ [e])
  /\ Forall await_turn (tl a1)
  /\ exists a2',
       a2 = a2' ++ [final_events service gridPoints centerPoint] /\
       Forall await_turn a2'.
Proof.
  intros Hne Et Ha1 Ha2.
  destruct (run_turns service centerPoint Hne) as [e [awaits [He [Haw Et']]]].
  rewrite Et in Et'. clear Et.
  assert (Hsingle : Forall await_turn (map (fun e : Event N => [e]) awaits)).
  { apply Forall_forall. intros t Ht. apply in_map_iff in Ht.
    destruct Ht as [x [<- Hx]]. exists x. split; [reflexivity|].
    rewrite Forall_forall in Haw. apply Haw, Hx. }
  destruct a1 as [|t a1']; [congruence|]. cbn [app] in Et'.
  injection Et' as -> Et'.
  destruct (exists_last Ha2) as [a2' [l ->]].
  rewrite app_assoc in Et'. apply app_inj_tail in Et'. destruct Et' as [Em ->].
  rewrite <- Em in Hsingle. apply Forall_app in Hsingle. destruct Hsingle as [H1 H2].
  split; [|split].
  - exists e. split; [exact He | reflexivity].
  - exact H1.
  - exists a2'. split; [reflexivity | exact H2].
Qed.

Lemma replay_start (s : State N) (e : Event N) :
  is_await e = true ->
  replay s (start_events ++ [e])
  = {| isLoading := true; errorMessage := None; elevationData := elevationData s |}.
Proof. destruct e; try discriminate; reflexivity. Qed.

(** The state once two overlapping calls have completed: nothing is
    loading, and the notice is set when either call fell back. *)
Lemma overlapping_notice (serviceA serviceB : Service N)
    (gridPointsA gridPointsB : list (Feature N)) (centerPointA centerPointB : Center N)
    (m : list (list (Event N))) (s : State N) :
  gridPointsA <> [] ->
  gridPointsB <> [] ->
  overlapping (turns (run serviceA gridPointsA centerPointA))
    (turns (run serviceB gridPointsB centerPointB)) m ->
  errorMessage (replay s (concat m))
  = if fell_back serviceA gridPointsA || fell_back serviceB gridPointsB
    then Some failure_message else None.
Proof.
  intros HA HB [a1 [a2 [b1 [b2 [m2 [Ea [Ha1 [Ha2 [Eb [Hi ->]]]]]]]]]].
  destruct (run_turns_suffix serviceA centerPointA HA Ea Ha1 Ha2)
    as [_ [_ [a2' [-> Ha2']]]].
  destruct (run_turns_suffix serviceB centerPointB (a1 := [b1]) HB Eb)
    as [[eB [HeB Eb1]] [_ [b2' [-> Hb2']]]]; [discriminate | | ].
  { intros ->. destruct (run_turns serviceB centerPointB HB) as [e [aw [_ [_ Et]]]].
    rewrite Eb in Et. injection Et as _ Et. destruct (map _ aw); discriminate. }
  cbn [hd] in Eb1. subst b1.
  rewrite concat_app. cbn [concat]. rewrite app_assoc, replay_app, replay_app.
  rewrite replay_start by exact HeB.
  destruct (final_events_notice serviceA gridPointsA centerPointA) as [FA [NA _]].
  destruct (final_events_notice serviceB gridPointsB centerPointB) as [FB [NB _]].
  assert (Hquiet : forall ts : list (list (Event N)),
            Forall await_turn ts ->
            Forall (fun t => existsb sets_notice t = false
                             /\ Forall (fun e => forall m, e = setErrorMessage m ->
                                                  m = Some failure_message) t) ts).
  { intros ts Hts. apply Forall_forall. intros t Ht. rewrite Forall_forall in Hts.
    destruct (Hts t Ht) as [e [-> He]].
    split; [destruct e; try discriminate; reflexivity|].
    repeat constructor. intros m ->. discriminate. }
  rewrite replay_notice.
  - cbn [errorMessage].
    rewrite existsb_concat, (interleaved_existsb _ Hi), !existsb_app.
    cbn [existsb]. rewrite NA, NB, !orb_false_r.
    replace (existsb (existsb sets_notice) a2') with false.
    + replace (existsb (existsb sets_notice) b2') with false; [reflexivity|].
      symmetry. apply not_true_is_false. intros Ex. apply existsb_exists in Ex.
      destruct Ex as [t [Ht Ex]]. pose proof (Hquiet _ Hb2') as Hq.
      rewrite Forall_forall in Hq. destruct (Hq t Ht) as [Eq _]. congruence.
    + symmetry. apply not_true_is_false. intros Ex. apply existsb_exists in Ex.
      destruct Ex as [t [Ht Ex]]. pose proof (Hquiet _ Ha2') as Hq.
      rewrite Forall_forall in Hq. destruct (Hq t Ht) as [Eq _]. congruence.
  - apply Forall_concat. eapply interleaved_Forall; [exact Hi | |].
    + apply Forall_app. split; [|repeat constructor; exact FA].
      eapply Forall_impl; [|apply (Hquiet _ Ha2')]. intros t [_ Ht]. exact Ht.
    + apply Forall_app. split; [|repeat constructor; exact FB].
      eapply Forall_impl; [|apply (Hquiet _ Hb2')]. intros t [_ Ht]. exact Ht.
Qed.

End TurnFacts.

(** C9, as stated, fails: the older call is started for one grid point and
    the newer for two; the newer call completes first, the older after it,
    and the state observed at the end holds the older call's single
    sample. *)
Lemma stale_call_overwrites :
  let centerPoint := {| c_latitude := 37.7749%float; c_longitude := (-122.4194)%float |} in
  let p1 := {| coordinates := ((-122.4194)%float, 37.7749%float) |} in
  let p2 := {| coordinates := ((-122.4190)%float, 37.7750%float) |} in
  let service : Service float :=
    fun _ locations =>
      fulfilled
        {| status := 200;
           body := results (map (fun l => {| es_longitude := loc_longitude l;
                                             es_latitude := loc_latitude l;
                                             es_elevation := 16%float |}) locations) |} in
  let older := run (H0 := unused_trig) service [p1] centerPoint in
  let newer := run (H0 := unused_trig) service [p1; p2] centerPoint in
  ~ newer_call_wins older newer.
Proof.
  intros centerPoint p1 p2 service older newer Hwins.
  unfold newer_call_wins in Hwins.
  destruct (turns older) as [|a1 a2] eqn:Ea; [discriminate|].
  destruct (turns newer) as [|b1 b2] eqn:Eb; [discriminate|].
  assert (Ha2 : a2 <> []) by (injection Ea as _ <-; discriminate).
  pose proof (Hwins _ (overlapping_newer_first a1 b1 b2 Ha2)) as E.
  injection Ea as <- <-. injection Eb as <- <-.
  apply (f_equal (fun s => length (elevationData s))) in E.
  vm_compute in E. discriminate.
Qed.

(** The notice of a stale call outlives it: the older call falls back and
    completes first, the newer call succeeds and completes last, and the
    state observed holds the newer call's data under the older call's
    notice. *)
Example stale_notice_over_newer_data :
  let centerPoint := {| c_latitude := 37.7749%float; c_longitude := (-122.4194)%float |} in
  let p1 := {| coordinates := ((-122.4194)%float, 37.7749%float) |} in
  let answer := {| es_longitude := (-122.4194)%float; es_latitude := 37.7749%float;
                   es_elevation := 16%float |} in
  let failing : Service float := fun _ _ => rejected in
  let answering : Service float :=
    fun _ _ => fulfilled {| status := 200; body := results [answer] |} in
  let older := run (H0 := unused_trig) failing [p1] centerPoint in
  let newer := run (H0 := unused_trig) answering [p1] centerPoint in
  let m := hd [] (turns older) :: hd [] (turns newer)
             :: tl (turns older) ++ tl (turns newer) in
  overlapping (turns older) (turns newer) m /\
  replay initial_state (concat m)
  = {| isLoading := false; errorMessage := Some failure_message;
       elevationData := [answer] |}.
Proof.
  intros centerPoint p1 answer failing answering older newer m. split.
  - assert (Ea : turns older = hd [] (turns older) :: tl (turns older))
      by (vm_compute; reflexivity).
    assert (Eb : turns newer = hd [] (turns newer) :: tl (turns newer))
      by (vm_compute; reflexivity).
    rewrite Ea at 1. rewrite Eb at 1. apply overlapping_older_first.
    vm_compute. discriminate.
  - vm_compute. reflexivity.
Qed.

(** C9, amended. When a newer call starts while an older one is
    outstanding, the elevation data observed once both have completed are
    those of the call that completed last, whether it succeeded or fell
    back: nothing cancels the older call or discards its results, and when
    it completes after the newer one its data replace the newer call's.
    Nothing is loading then, and the notice is active exactly when one of
    the two calls fell back, whichever completed last. *)
Theorem last_completed_call_is_observed {N : Type} `{Number N} `{Trig N}
    (serviceA serviceB : Service N) (gridPointsA gridPointsB : list (Feature N))
    (centerPointA centerPointB : Center N) (m : list (list (Event N))) (s : State N) :
  gridPointsA <> [] ->
  gridPointsB <> [] ->
  let older := run serviceA gridPointsA centerPointA in
  let newer := run serviceB gridPointsB centerPointB in
  overlapping (turns older) (turns newer) m ->
  let final := replay s (concat m) in
  ((exists m', m = m' ++ [last (turns older) []] /\
               elevationData final = elevationData (replay s older))
   \/ (exists m', m = m' ++ [last (turns newer) []] /\
                  elevationData final = elevationData (replay s newer)))
  /\ isLoading final = false
  /\ errorMessage final
     = if fell_back serviceA gridPointsA || fell_back serviceB gridPointsB
       then Some failure_message else None.
Proof.
  intros HA HB older newer Ho final.
  destruct (overlapping_interleaved Ho) as [Hi Hm].
  pose proof (app_removelast_last [] Hm) as Em.
  split; [|split].
  - destruct (interleaved_last [] Hi Hm) as [[_ El] | [_ El]]; rewrite El in Em.
    + left. exists (removelast m). split; [exact Em|].
      subst final. rewrite Em, concat_app, replay_app. cbn [concat]. rewrite app_nil_r.
      subst older. rewrite (run_last_turn serviceA centerPointA HA).
      apply replay_final_events, HA.
    + right. exists (removelast m). split; [exact Em|].
      subst final. rewrite Em, concat_app, replay_app. cbn [concat]. rewrite app_nil_r.
      subst newer. rewrite (run_last_turn serviceB centerPointB HB).
      apply replay_final_events, HB.
  - subst final. rewrite Em, concat_app, replay_app. cbn [concat]. rewrite app_nil_r.
    destruct (interleaved_last [] Hi Hm) as [[_ El] | [_ El]]; rewrite El.
    + subst older. rewrite (run_last_turn serviceA centerPointA HA).
      apply final_events_notice.
    + subst newer. rewrite (run_last_turn serviceB centerPointB HB).
      apply final_events_notice.
  - exact (overlapping_notice serviceA serviceB centerPointA centerPointB s HA HB Ho).
Qed.

Lemma last_completed_call_is_observed_witness :
  let centerPoint := {| c_latitude := 3%Q; c_longitude := 2%Q |} in
  let p1 := {| coordinates := (1%Q, 2%Q) |} in
  let p2 := {| coordinates := (3%Q, 4%Q) |} in
  let trig : Trig Q := {| sin := fun a => a; cos := fun _ => 1%Q |} in
  let failing : Service Q := fun _ _ => rejected in
  let answering : Service Q :=
    fun _ _ => fulfilled {| status := 200; body := results [] |} in
  let older := run failing [p1] centerPoint in
  let newer := run answering [p1; p2] centerPoint in
  let m := hd [] (turns older) :: hd [] (turns newer)
             :: tl (turns newer) ++ tl (turns older) in
  let final := replay initial_state (concat m) in
  ((exists m', m = m' ++ [last (turns older) []] /\
               elevationData final = elevationData (replay initial_state older))
   \/ (exists m', m = m' ++ [last (turns newer) []] /\
                  elevationData final = elevationData (replay initial_state newer)))
  /\ isLoading final = false
  /\ errorMessage final = Some failure_message.
Proof.
  intros centerPoint p1 p2 trig failing answering older newer m.
  apply (last_completed_call_is_observed failing answering centerPoint centerPoint
           (gridPointsA := [p1]) (gridPointsB := [p1; p2])).
  - discriminate.
  - discriminate.
  - fold older newer.
    assert (Ea : turns older = hd [] (turns older) :: tl (turns older))
      by (vm_compute; reflexivity).
    assert (Eb : turns newer = hd [] (turns newer) :: tl (turns newer))
      by (vm_compute; reflexivity).
    rewrite Ea at 1. rewrite Eb at 1. apply overlapping_newer_first.
    vm_compute. discriminate.
Defined.

(** ** The axes of the height field *)

Section AxisFacts.

Context {N : Type} `{Number N}.
Local Open Scope num_scope.

(** The numbers the order behaves on (all but [NaN], for binary64), and
    what is assumed of them. *)
Variable valid : N -> Prop.

Hypothesis valid_compare_sign : forall a b,
  valid a -> valid b -> ((a - b) <? of_Z 0) = (a <? b).
Hypothesis valid_lt_trans : forall a b c,
  (a <? b) = true -> (b <? c) = true -> (a <? c) = true.
Hypothesis valid_lt_total : forall a b,
  valid a -> valid b ->
  (a <? b) = true \/ same_value_zero a b = true \/ (b <? a) = true.
Hypothesis valid_same_sym : forall a b,
  valid a -> valid b -> same_value_zero a b = true -> same_value_zero b a = true.
Hypothesis valid_same_trans : forall a b c,
  valid a -> valid b -> valid c ->
  same_value_zero a b = true -> same_value_zero b c = true -> same_value_zero a c = true.
Hypothesis valid_set_key : forall a, valid a -> valid (set_key a).
Hypothesis valid_set_key_same : forall a, valid a -> same_value_zero a (set_key a) = true.

Lemma distinct_app_one (values : list N) (k : N) :
  distinct values ->
  Forall (fun a => same_value_zero a k = false) values ->
  distinct (values ++ [k]).
Proof.
  intros Hd Hk. induction Hd as [|a values Ha Hd IH]; cbn.
  - repeat constructor.
  - inversion Hk as [|a' values' Hak Hk']; subst. constructor.
    + apply Forall_app. split; [exact Ha | repeat constructor; exact Hak].
    + apply IH, Hk'.
Qed.

Lemma Set_add_distinct (set : list N) (value : N) :
  Forall valid set -> valid value -> distinct set ->
  Forall valid (Set_add set value) /\ distinct (Set_add set value).
Proof.
  intros Hv Hvalue Hd. unfold Set_add.
  destruct (existsb (same_value_zero value) set) eqn:Ex; [split; assumption|].
  split.
  - apply Forall_app. split; [exact Hv | repeat constructor; apply valid_set_key, Hvalue].
  - apply distinct_app_one; [exact Hd|].
    apply Forall_forall. intros a Ha.
    destruct (same_value_zero a (set_key value)) eqn:Es; [|reflexivity].
    exfalso. rewrite Forall_forall in Hv.
    assert (Hva : same_value_zero value a = true).
    { apply valid_same_trans with (set_key value); auto. }
    assert (Hex : existsb (same_value_zero value) set = true)
      by (apply existsb_exists; exists a; split; assumption).
    congruence.
Qed.

Lemma Array_from_Set_distinct (values : list N) :
  Forall valid values ->
  Forall valid (Array_from_Set values) /\ distinct (Array_from_Set values).
Proof.
  unfold Array_from_Set.
  assert (Hgen : forall set, Forall valid set -> distinct set -> Forall valid values ->
            Forall valid (fold_left Set_add values set) /\
            distinct (fold_left Set_add values set)).
  { induction values as [|v values IH]; intros set Hs Hd Hv; cbn; [split; assumption|].
    inversion Hv as [|v' values' Hv1 Hv2]; subst.
    destruct (Set_add_distinct Hs Hv1 Hd) as [Hs' Hd']. apply IH; assumption. }
  intros Hv. apply Hgen; [constructor | constructor | exact Hv].
Qed.

Lemma sort_insert_In (compare : N -> N -> N) (a x : N) (sorted : list N) :
  In x (sort_insert compare a sorted) -> x = a \/ In x sorted.
Proof.
  induction sorted as [|b rest IH]; cbn.
  - intros [E | []]; left; symmetry; exact E.
  - destruct (compare a b <? of_Z 0); cbn.
    + intros [E | Hin]; [left; symmetry; exact E | right; exact Hin].
    + intros [E | Hin]; [right; left; exact E|].
      destruct (IH Hin) as [E | Hr]; [left; exact E | right; right; exact Hr].
Qed.

Lemma sort_insert_ascending (a : N) (sorted : list N) :
  valid a -> Forall valid sorted -> ascending sorted ->
  Forall (fun b => same_value_zero a b = false) sorted ->
  ascending (sort_insert (fun a b => a - b) a sorted).
Proof.
  intros Ha Hv Hs Hd. induction Hs as [|b rest Hrest IH Hb]; cbn.
  - repeat constructor.
  - inversion Hv as [|b' rest' Hvb Hvrest]; subst.
    inversion Hd as [|b' rest' Hab Hdrest]; subst.
    rewrite (valid_compare_sign Ha Hvb).
    destruct (a <? b) eqn:Elt.
    + constructor; [constructor; assumption|].
      constructor; [exact Elt|].
      rewrite Forall_forall in Hb |- *. intros c Hc.
      apply valid_lt_trans with b; [exact Elt | apply Hb, Hc].
    + constructor; [apply IH; assumption|].
      apply Forall_forall. intros c Hc.
      destruct (sort_insert_In _ _ _ _ Hc) as [-> | Hc'].
      * destruct (valid_lt_total Ha Hvb) as [L | [S | G]]; [congruence | congruence | exact G].
      * rewrite Forall_forall in Hb. apply Hb, Hc'.
Qed.

Lemma sort_ascending (values : list N) :
  Forall valid values -> distinct values ->
  ascending (sort (fun a b => a - b) values).
Proof.
  unfold sort.
  assert (Hgen : forall sorted,
            Forall valid values -> distinct values ->
            Forall valid sorted -> ascending sorted ->
            (forall a b, In a sorted -> In b values -> same_value_zero b a = false) ->
            ascending (fold_left (fun sorted a => sort_insert (fun a b => a - b) a sorted)
                         values sorted)).
  { induction values as [|v values IH]; intros sorted Hv Hd Hs Ha Hx; cbn; [exact Ha|].
    inversion Hv as [|v' values' Hv1 Hv2]; subst.
    inversion Hd as [|v' values' Hd1 Hd2]; subst.
    apply IH; try assumption.
    - apply Forall_forall. intros c Hc.
      destruct (sort_insert_In _ _ _ _ Hc) as [-> | Hc']; [exact Hv1|].
      rewrite Forall_forall in Hs. apply Hs, Hc'.
    - apply sort_insert_ascending; try assumption.
      apply Forall_forall. intros b Hb. apply Hx; [exact Hb | left; reflexivity].
    - intros a b Hin Hb.
      destruct (sort_insert_In _ _ _ _ Hin) as [-> | Hin'].
      + rewrite Forall_forall in Hd1, Hv2.
        destruct (same_value_zero b v) eqn:Es; [|reflexivity].
        pose proof (valid_same_sym (Hv2 b Hb) Hv1 Es) as Es'. rewrite (Hd1 b Hb) in Es'.
        discriminate.
      + apply Hx; [exact Hin' | right; exact Hb]. }
  intros Hv Hd. apply Hgen; try assumption; try constructor.
  intros a b [].
Qed.

(** The axis built from the coordinates of the points is strictly
    ascending. *)
Lemma axis_ascending (coordinates : list N) :
  Forall valid coordinates ->
  ascending (sort (fun a b => a - b) (Array_from_Set coordinates)).
Proof.
  intros Hv. destruct (Array_from_Set_distinct Hv) as [Hv' Hd'].
  apply sort_ascending; assumption.
Qed.

(** The grid has a defined entry for each pair of axis values. *)
Lemma fill_grid_full points terrainResolution (uniqueX uniqueY : list N) :
  full_matrix (fill_grid points terrainResolution uniqueX uniqueY)
    (length uniqueY) (length uniqueX).
Proof.
  exists (map (fun yi => map (fun xj => cell_value points terrainResolution xj yi) uniqueX)
            uniqueY).
  split; [|split].
  - rewrite fill_grid_spec, map_map. apply map_ext. intros yi.
    rewrite fill_row_spec, map_map. reflexivity.
  - apply length_map.
  - apply Forall_forall. intros row Hrow. apply in_map_iff in Hrow.
    destruct Hrow as [yi [<- _]]. apply length_map.
Qed.

End AxisFacts.

(** C3, as stated, fails: the height field of no samples has one row in
    [z], and no ys. *)
Lemma empty_field_breaks_invariant :
  let field :=
    terrainData {| c_latitude := 0%float; c_longitude := 0%float |} 10%float [] in
  length (td_z field) = 1%nat /\ length (td_y field) = 0%nat /\
  ~ height_field_invariant field.
Proof.
  intros field. split; [reflexivity|]. split; [reflexivity|].
  intros [_ [_ [entries [Ez [El _]]]]].
  apply (f_equal (@length _)) in Ez. rewrite length_map, El in Ez. discriminate.
Qed.

(** A coordinate that is [NaN] breaks the order of an axis: it is less than
    no number and no number is less than it. *)
Lemma nan_breaks_order :
  let samples :=
    [ {| es_longitude := nan; es_latitude := 0%float; es_elevation := 1%float |};
      {| es_longitude := 1%float; es_latitude := 1%float; es_elevation := 2%float |} ] in
  let field :=
    terrainData {| c_latitude := 0%float; c_longitude := 0%float |} 10%float samples in
  td_x field = [nan; 111320%float] /\ ~ ascending (td_x field).
Proof.
  intros samples field. split; [vm_compute; reflexivity|].
  intros Ha. assert (E : td_x field = [nan; 111320%float]) by (vm_compute; reflexivity).
  rewrite E in Ha. inversion Ha as [|a l _ Hf]; subst.
  inversion Hf as [|b l' Hlt _]; subst. vm_compute in Hlt. discriminate.
Qed.

(** C3, amended. Every height field rebuilt from a non-empty sample
    sequence whose projected coordinates are numbers satisfies: xs and ys
    are sequences of distinct values sorted ascending, [z.length] equals
    [ys.length], every row of [z] has length [xs.length], and every entry
    of [z] is defined.  (The field of no samples has no xs, no ys and the
    single empty row.) *)
Theorem rebuilt_field_invariant (centerPoint : Center float) (resolution : float)
    (samples : list (ElevationSample float)) :
  samples <> [] ->
  (forall s, In s samples ->
     not_nan (rc_x (projected centerPoint s)) /\
     not_nan (rc_y (projected centerPoint s))) ->
  height_field_invariant (terrainData centerPoint resolution samples).
Proof.
  intros Hne Hnum.
  destruct samples as [|s0 samples']; [congruence|].
  remember (s0 :: samples') as samples eqn:Es. clear Hne.
  assert (Haxis : forall coordinates : list float,
            Forall not_nan coordinates ->
            ascending (sort (fun a b => sub a b) (Array_from_Set coordinates))).
  { apply axis_ascending.
    - exact Binary64.compare_sign.
    - exact Binary64.ltb_trans.
    - exact Binary64.lt_total.
    - exact Binary64.same_value_zero_sym.
    - exact Binary64.same_value_zero_trans.
    - exact Binary64.set_key_not_nan.
    - intros a Ha. unfold same_value_zero, float_number, float_same_value_zero.
      change (set_key a) with (float_set_key a).
      rewrite (set_key_strict_eq Ha). reflexivity. }
  unfold terrainData. rewrite Es. rewrite <- Es.
  split; [|split]; cbn [td_x td_y td_z].
  - apply Haxis. apply Forall_forall. intros a Ha.
    unfold make_points in Ha. rewrite map_map in Ha. apply in_map_iff in Ha.
    destruct Ha as [s [<- Hs]]. apply (Hnum s Hs).
  - apply Haxis. apply Forall_forall. intros a Ha.
    unfold make_points in Ha. rewrite map_map in Ha. apply in_map_iff in Ha.
    destruct Ha as [s [<- Hs]]. apply (Hnum s Hs).
  - apply fill_grid_full.
Qed.

Lemma rebuilt_field_invariant_witness :
  height_field_invariant
    (terrainData {| c_latitude := 37.77495%float; c_longitude := (-122.4192)%float |}
       10%float
       [ {| es_longitude := (-122.4194)%float; es_latitude := 37.7749%float;
            es_elevation := 16%float |};
         {| es_longitude := (-122.4190)%float; es_latitude := 37.7750%float;
            es_elevation := 12%float |} ]).
Proof.
  apply rebuilt_field_invariant.
  - discriminate.
  - intros s [E | [E | []]]; subst s; split; reflexivity.
Defined.

(** ** Samples and axes *)

Section AxisMembership.

Context {N : Type} `{Number N}.
Local Open Scope num_scope.

Lemma Set_add_incl (set : list N) (value u : N) :
  In u set -> In u (Set_add set value).
Proof.
  intros Hu. unfold Set_add. destruct (existsb _ set); [exact Hu|].
  apply in_or_app. left. exact Hu.
Qed.

Lemma Set_add_all_incl (values set : list N) (u : N) :
  In u set -> In u (fold_left Set_add values set).
Proof.
  revert set. induction values as [|v values IH]; intros set Hu; [exact Hu|].
  cbn. apply IH, Set_add_incl, Hu.
Qed.

Lemma Set_add_all_keys (values set : list N) (u : N) :
  In u (fold_left Set_add values set) ->
  In u set \/ exists v, In v values /\ u = set_key v.
Proof.
  revert set. induction values as [|v values IH]; intros set Hu; [left; exact Hu|].
  cbn in Hu. destruct (IH _ Hu) as [Hs | [w [Hw E]]].
  - unfold Set_add in Hs. destruct (existsb _ set); [left; exact Hs|].
    apply in_app_or in Hs. destruct Hs as [Hs | [E | []]]; [left; exact Hs|].
    right. exists v. split; [left; reflexivity | symmetry; exact E].
  - right. exists w. split; [right; exact Hw | exact E].
Qed.

(** Every element of [Array.from(new Set(values))] is the key of one of the
    values. *)
Lemma Array_from_Set_keys (values : list N) (u : N) :
  In u (Array_from_Set values) -> exists v, In v values /\ u = set_key v.
Proof.
  intros Hu. destruct (Set_add_all_keys _ _ _ Hu) as [[] | Hv]. exact Hv.
Qed.

Lemma Set_add_all_covers (values set : list N) (v : N) :
  (forall a, same_value_zero a (set_key a) = true) ->
  In v values ->
  exists u, In u (fold_left Set_add values set) /\ same_value_zero v u = true.
Proof.
  intros Hkey. revert set. induction values as [|w values IH]; intros set Hv;
    [destruct Hv|]. destruct Hv as [E | Hv].
  - subst w. cbn [fold_left].
    assert (Hs : exists u, In u (Set_add set v) /\ same_value_zero v u = true).
    { unfold Set_add. destruct (existsb (same_value_zero v) set) eqn:Ex.
      - apply existsb_exists in Ex. exact Ex.
      - exists (set_key v). split; [apply in_or_app; right; left; reflexivity | apply Hkey]. }
    destruct Hs as [u [Hu Es]]. exists u. split; [apply Set_add_all_incl, Hu | exact Es].
  - cbn [fold_left]. apply IH, Hv.
Qed.

(** Every value is the same, for the [Set], as one of its elements. *)
Lemma Array_from_Set_covers (values : list N) (v : N) :
  (forall a, same_value_zero a (set_key a) = true) ->
  In v values ->
  exists u, In u (Array_from_Set values) /\ same_value_zero v u = true.
Proof. intros Hkey Hv. apply Set_add_all_covers; assumption. Qed.

Lemma Set_add_all_length (values set : list N) :
  (length (fold_left Set_add values set) <= length set + length values)%nat.
Proof.
  revert set. induction values as [|v values IH]; intros set; cbn; [lia|].
  specialize (IH (Set_add set v)).
  assert (length (Set_add set v) <= S (length set))%nat.
  { unfold Set_add. destruct (existsb _ set); [lia|]. rewrite length_app. cbn. lia. }
  lia.
Qed.

Lemma Array_from_Set_length (values : list N) :
  (length (Array_from_Set values) <= length values)%nat.
Proof. apply (Set_add_all_length values []). Qed.

Lemma Array_from_Set_nonempty (values : list N) :
  values <> [] -> Array_from_Set values <> [].
Proof.
  destruct values as [|v values]; [congruence|]. intros _ E.
  assert (Hin : In (set_key v) (Array_from_Set (v :: values))).
  { unfold Array_from_Set. cbn [fold_left]. apply Set_add_all_incl. left. reflexivity. }
  rewrite E in Hin. destruct Hin.
Qed.

Lemma Array_from_Set_length_pos (values : list N) :
  values <> [] -> (1 <= length (Array_from_Set values))%nat.
Proof.
  intros Hne. pose proof (Array_from_Set_nonempty Hne) as Hn.
  destruct (Array_from_Set values); [congruence | cbn; lia].
Qed.

Lemma sort_insert_length (compare : N -> N -> N) (a : N) (sorted : list N) :
  length (sort_insert compare a sorted) = S (length sorted).
Proof.
  induction sorted as [|b rest IH]; cbn; [reflexivity|].
  destruct (compare a b <? of_Z 0); cbn; [reflexivity | rewrite IH; reflexivity].
Qed.

Lemma sort_length (compare : N -> N -> N) (array : list N) :
  length (sort compare array) = length array.
Proof.
  unfold sort.
  assert (Hgen : forall sorted,
            length (fold_left (fun sorted a => sort_insert compare a sorted) array sorted)
            = (length sorted + length array)%nat).
  { induction array as [|a array IH]; intros sorted; cbn; [lia|].
    rewrite IH, sort_insert_length. lia. }
  apply (Hgen []).
Qed.

Lemma In_sort_insert (compare : N -> N -> N) (a x : N) (sorted : list N) :
  x = a \/ In x sorted -> In x (sort_insert compare a sorted).
Proof.
  induction sorted as [|b rest IH]; cbn.
  - intros [E | []]. left. symmetry. exact E.
  - destruct (compare a b <? of_Z 0); cbn.
    + intros [E | [E | Hin]]; [left; symmetry; exact E | right; left; exact E |
                               right; right; exact Hin].
    + intros [E | [E | Hin]]; [right; apply IH; left; exact E | left; exact E |
                               right; apply IH; right; exact Hin].
Qed.

(** Sorting keeps the elements. *)
Lemma sort_In (compare : N -> N -> N) (array : list N) (x : N) :
  In x (sort compare array) <-> In x array.
Proof.
  unfold sort.
  assert (Hgen : forall sorted,
            In x (fold_left (fun sorted a => sort_insert compare a sorted) array sorted)
            <-> In x sorted \/ In x array).
  { induction array as [|a array IH]; intros sorted; cbn [fold_left].
    - split; [intros Hx; left; exact Hx | intros [Hx | []]; exact Hx].
    - rewrite IH. split.
      + intros [Hx | Hx]; [|right; right; exact Hx].
        destruct (sort_insert_In _ _ _ _ Hx) as [E | Hs];
          [right; left; symmetry; exact E | left; exact Hs].
      + intros [Hx | [E | Hx]].
        * left. apply In_sort_insert. right. exact Hx.
        * left. apply In_sort_insert. left. symmetry. exact E.
        * right. exact Hx. }
  rewrite Hgen. split; [intros [[] | Hx]; exact Hx | intros Hx; right; exact Hx].
Qed.

(** The axes of a non-empty sample sequence, on the samples. *)
Lemma terrainData_axes centerPoint resolution (samples : list (ElevationSample N)) :
  samples <> [] ->
  td_x (terrainData centerPoint resolution samples)
  = sort (fun a b => a - b)
      (Array_from_Set (map (fun s => rc_x (projected centerPoint s)) samples))
  /\ td_y (terrainData centerPoint resolution samples)
     = sort (fun a b => a - b)
         (Array_from_Set (map (fun s => rc_y (projected centerPoint s)) samples))
  /\ td_z (terrainData centerPoint resolution samples)
     = fill_grid (make_points centerPoint samples) resolution
         (td_x (terrainData centerPoint resolution samples))
         (td_y (terrainData centerPoint resolution samples)).
Proof.
  intros Hne. destruct samples as [|s0 samples']; [congruence|].
  remember (s0 :: samples') as samples eqn:Es.
  unfold terrainData. rewrite Es. rewrite <- Es. cbn [td_x td_y td_z].
  unfold make_points. rewrite !map_map. repeat split.
Qed.

End AxisMembership.

(** ** Keys of a [Set] of binary64 numbers *)

Lemma is_nan_spec (a : float) : PrimFloat.is_nan a = true -> Prim2SF a = S754_nan.
Proof.
  intros Ha. destruct (Prim2SF a) as [s|s| |s m e] eqn:E; [| |reflexivity|];
    exfalso; (assert (Hn : not_nan a) by (apply Binary64.not_nan_spec; rewrite E; discriminate));
    unfold not_nan in Hn; congruence.
Qed.

Lemma SFeqb_true (x y : spec_float) :
  SFeqb x y = true ->
  x = y \/ exists s s', x = S754_zero s /\ y = S754_zero s'.
Proof.
  unfold SFeqb, SFcompare.
  destruct x as [sx|sx| |sx mx ex], y as [sy|sy| |sy my ey]; try discriminate;
    try (destruct sx, sy; discriminate).
  - intros _. right. exists sx, sy. split; reflexivity.
  - destruct sx, sy; try discriminate; intros _; left; reflexivity.
  - destruct sx, sy; try discriminate.
    + destruct (Z.compare_spec ex ey) as [Ee| |]; try discriminate.
      cbn [CompOpp].
      change (Pos.compare_cont Eq mx my) with (Pos.compare mx my).
      destruct (Pos.compare_spec mx my) as [Em| |]; try discriminate.
      intros _. left. subst. reflexivity.
    + destruct (Z.compare_spec ex ey) as [Ee| |]; try discriminate.
      change (Pos.compare_cont Eq mx my) with (Pos.compare mx my).
      destruct (Pos.compare_spec mx my) as [Em| |]; try discriminate.
      intros _. left. subst. reflexivity.
Qed.

(** Numbers that are the same for a [Set] are stored as the same key. *)
Lemma set_key_same_value (a u : float) :
  float_same_value_zero a u = true -> float_set_key a = float_set_key u.
Proof.
  unfold float_same_value_zero. intros Hs. apply orb_true_iff in Hs.
  destruct Hs as [He | Hn].
  - pose proof He as He'. rewrite FloatAxioms.eqb_spec in He'.
    destruct (SFeqb_true _ _ He') as [E | [s [s' [Ea Eu]]]].
    + apply Prim2SF_inj in E. subst u. reflexivity.
    + unfold float_set_key, PrimFloat.is_zero.
      rewrite !FloatAxioms.eqb_spec, Ea, Eu. reflexivity.
  - apply andb_true_iff in Hn. destruct Hn as [Ha Hu].
    apply is_nan_spec in Ha, Hu. f_equal. apply Prim2SF_inj. congruence.
Qed.

Lemma set_key_idempotent (a : float) :
  float_set_key (float_set_key a) = float_set_key a.
Proof.
  unfold float_set_key. destruct (PrimFloat.is_zero a) eqn:E; [reflexivity|].
  rewrite E. reflexivity.
Qed.

Lemma same_value_zero_set_key (a : float) :
  float_same_value_zero a (float_set_key a) = true.
Proof.
  destruct (PrimFloat.is_nan a) eqn:Ha.
  - unfold float_same_value_zero, float_set_key, PrimFloat.is_zero.
    replace (PrimFloat.eqb a zero) with false.
    + rewrite Ha. apply orb_true_r.
    + symmetry. rewrite FloatAxioms.eqb_spec, (is_nan_spec a Ha). reflexivity.
  - unfold float_same_value_zero. rewrite (set_key_strict_eq Ha). reflexivity.
Qed.

Lemma same_value_zero_strict_eq (a b : float) :
  not_nan a -> float_same_value_zero a b = true -> PrimFloat.eqb a b = true.
Proof.
  unfold float_same_value_zero. intros Ha Hs. rewrite Ha in Hs.
  cbn [andb] in Hs. rewrite orb_false_r in Hs. exact Hs.
Qed.

Lemma strict_eq_not_nan (a b : float) :
  PrimFloat.eqb a b = true -> not_nan a /\ not_nan b.
Proof.
  rewrite FloatAxioms.eqb_spec. intros He.
  split; apply Binary64.not_nan_spec; intros E; rewrite E in He;
    [|destruct (Prim2SF a)]; discriminate.
Qed.

Lemma strict_eq_same_value_zero (a b : float) :
  PrimFloat.eqb a b = true -> float_same_value_zero a b = true.
Proof. intros He. unfold float_same_value_zero. rewrite He. reflexivity. Qed.

(** [===] is symmetric, and transitive. *)
Lemma strict_eq_sym (a b : float) :
  PrimFloat.eqb a b = true -> PrimFloat.eqb b a = true.
Proof.
  intros He. destruct (strict_eq_not_nan He) as [Ha Hb].
  apply same_value_zero_strict_eq; [exact Hb|].
  apply Binary64.same_value_zero_sym; try assumption.
  apply strict_eq_same_value_zero, He.
Qed.

Lemma strict_eq_trans (a b c : float) :
  PrimFloat.eqb a b = true -> PrimFloat.eqb b c = true -> PrimFloat.eqb a c = true.
Proof.
  intros Hab Hbc. destruct (strict_eq_not_nan Hab) as [Ha Hb].
  destruct (strict_eq_not_nan Hbc) as [_ Hc].
  apply same_value_zero_strict_eq; [exact Ha|].
  apply Binary64.same_value_zero_trans with b; try assumption;
    apply strict_eq_same_value_zero; assumption.
Qed.

(** The axis value of a coordinate: the element of the axis that [===] it. *)
Lemma axis_value (coordinates : list float) (v : float) :
  In v coordinates ->
  In (float_set_key v) (sort (fun a b => sub a b) (Array_from_Set coordinates)).
Proof.
  intros Hv. apply sort_In.
  destruct (@Array_from_Set_covers float float_number coordinates v
              same_value_zero_set_key Hv) as [u [Hu Es]].
  destruct (Array_from_Set_keys _ _ Hu) as [w [_ Ew]].
  replace (float_set_key v) with u; [exact Hu|].
  change (set_key w) with (float_set_key w) in Ew.
  rewrite (set_key_same_value v u Es), Ew. symmetry. apply set_key_idempotent.
Qed.

Lemma axis_value_inv (coordinates : list float) (u : float) :
  In u (sort (fun a b => sub a b) (Array_from_Set coordinates)) ->
  exists v, In v coordinates /\ u = float_set_key v.
Proof. intros Hu. apply sort_In in Hu. apply (Array_from_Set_keys _ _ Hu). Qed.

Lemma ltb_irrefl (a : float) : PrimFloat.ltb a a = false.
Proof.
  rewrite FloatAxioms.ltb_spec. unfold SFltb, SFcompare.
  destruct (Prim2SF a) as [s|s| |s m e]; try reflexivity.
  - destruct s; reflexivity.
  - rewrite Z.compare_refl, Pos.compare_cont_refl. destruct s; reflexivity.
Qed.

(** A strictly ascending sequence is determined by its elements. *)
Lemma ascending_unique (l1 l2 : list float) :
  ascending l1 -> ascending l2 ->
  (forall u, In u l1 <-> In u l2) ->
  l1 = l2.
Proof.
  intros H1. revert l2. induction H1 as [|a l1 Hs1 IH Ha]; intros l2 H2 Hin.
  - destruct l2 as [|b l2]; [reflexivity|].
    destruct (proj2 (Hin b) (or_introl eq_refl)).
  - destruct H2 as [|b l2 Hs2 Hb].
    + destruct (proj1 (Hin a) (or_introl eq_refl)).
    + rewrite Forall_forall in Ha, Hb.
      assert (E : a = b).
      { destruct (proj1 (Hin a) (or_introl eq_refl)) as [E | Hab]; [symmetry; exact E|].
        destruct (proj2 (Hin b) (or_introl eq_refl)) as [E | Hba]; [exact E|].
        pose proof (Binary64.ltb_trans (Ha b Hba) (Hb a Hab)) as Hlt.
        rewrite ltb_irrefl in Hlt. discriminate. }
      subst b. f_equal. apply IH; [exact Hs2|].
      intros u. split; intros Hu.
      * destruct (proj1 (Hin u) (or_intror Hu)) as [E | Hu']; [|exact Hu'].
        subst u. pose proof (Ha a Hu) as Hlt. cbn in Hlt.
        rewrite ltb_irrefl in Hlt. discriminate.
      * destruct (proj2 (Hin u) (or_intror Hu)) as [E | Hu']; [|exact Hu'].
        subst u. pose proof (Hb a Hu) as Hlt. cbn in Hlt.
        rewrite ltb_irrefl in Hlt. discriminate.
Qed.

(** The axis of coordinates that are numbers is strictly ascending. *)
Lemma float_axis_ascending (coordinates : list float) :
  Forall not_nan coordinates ->
  ascending (sort (fun a b => sub a b) (Array_from_Set coordinates)).
Proof.
  apply axis_ascending.
  - exact Binary64.compare_sign.
  - exact Binary64.ltb_trans.
  - exact Binary64.lt_total.
  - exact Binary64.same_value_zero_sym.
  - exact Binary64.same_value_zero_trans.
  - exact Binary64.set_key_not_nan.
  - intros a _. apply same_value_zero_set_key.
Qed.

(** The values of an axis are the keys of the coordinates. *)
Lemma axis_members (coordinates : list float) (u : float) :
  In u (sort (fun a b => sub a b) (Array_from_Set coordinates))
  <-> exists v, In v coordinates /\ u = float_set_key v.
Proof.
  split; [apply axis_value_inv|]. intros [v [Hv ->]]. apply axis_value, Hv.
Qed.

(** X1. The axes hold the coordinates of the samples and nothing else: a
    value is on the x axis exactly when it is the projected x of some
    sample, with [-0] stored as [0]; likewise for y.  This holds for every
    sample sequence, [NaN] coordinates included. *)
Theorem axes_hold_the_sample_coordinates (centerPoint : Center float)
    (resolution : float) (samples : list (ElevationSample float)) :
  let field := terrainData centerPoint resolution samples in
  (forall u, In u (td_x field) <->
     exists s, In s samples /\ u = float_set_key (rc_x (projected centerPoint s)))
  /\ (forall u, In u (td_y field) <->
        exists s, In s samples /\ u = float_set_key (rc_y (projected centerPoint s))).
Proof.
  intros field. subst field.
  destruct samples as [|s0 samples'].
  - split; intros u; (split; [intros [] | intros [s [[] _]]]).
  - remember (s0 :: samples') as samples eqn:Es.
    assert (Hne : samples <> []) by (rewrite Es; discriminate).
    destruct (terrainData_axes centerPoint resolution Hne) as [Ex [Ey _]].
    rewrite Ex, Ey. split; intros u; split.
    + intros Hu. destruct (axis_value_inv _ _ Hu) as [v [Hv ->]].
      apply in_map_iff in Hv. destruct Hv as [s [<- Hs]]. exists s. split; [exact Hs | reflexivity].
    + intros [s [Hs ->]]. apply axis_value.
      apply in_map_iff. exists s. split; [reflexivity | exact Hs].
    + intros Hu. destruct (axis_value_inv _ _ Hu) as [v [Hv ->]].
      apply in_map_iff in Hv. destruct Hv as [s [<- Hs]]. exists s. split; [exact Hs | reflexivity].
    + intros [s [Hs ->]]. apply axis_value.
      apply in_map_iff. exists s. split; [reflexivity | exact Hs].
Qed.

(** X2. The height field of [n >= 1] samples has between 1 and [n] values
    on each axis and a defined entry of [z] for each pair of them, whatever
    the numbers ([NaN] included): it has at most [n * n] cells. *)
Theorem field_size_bounds {N : Type} `{Number N} (centerPoint : Center N)
    (resolution : N) (samples : list (ElevationSample N)) :
  samples <> [] ->
  let field := terrainData centerPoint resolution samples in
  (1 <= length (td_x field) <= length samples)%nat
  /\ (1 <= length (td_y field) <= length samples)%nat
  /\ full_matrix (td_z field) (length (td_y field)) (length (td_x field)).
Proof.
  intros Hne field. subst field.
  destruct (terrainData_axes centerPoint resolution Hne) as [Ex [Ey Ez]].
  rewrite Ez. split; [|split; [|apply fill_grid_full]].
  - rewrite Ex, sort_length. split.
    + apply Array_from_Set_length_pos. intros E. apply map_eq_nil in E. exact (Hne E).
    + etransitivity; [apply Array_from_Set_length|]. rewrite length_map. lia.
  - rewrite Ey, sort_length. split.
    + apply Array_from_Set_length_pos. intros E. apply map_eq_nil in E. exact (Hne E).
    + etransitivity; [apply Array_from_Set_length|]. rewrite length_map. lia.
Qed.

(** Two samples, one of them with a [NaN] longitude. *)
Lemma field_size_bounds_witness :
  let samples :=
    [ {| es_longitude := nan; es_latitude := 0%float; es_elevation := 1%float |};
      {| es_longitude := 1%float; es_latitude := 0%float; es_elevation := 2%float |} ] in
  let field :=
    terrainData {| c_latitude := 0%float; c_longitude := 0%float |} 10%float samples in
  (1 <= length (td_y field) <= 2)%nat
  /\ full_matrix (td_z field) (length (td_y field)) (length (td_x field)).
Proof.
  intros samples field.
  refine (proj2 (field_size_bounds {| c_latitude := 0%float; c_longitude := 0%float |}
                   10%float (samples := samples) _)).
  discriminate.
Defined.

(** X3. The axes depend on the set of samples only: two sample sequences
    with the same elements, in any order and with any repetitions, whose
    projected coordinates are numbers, give the same x axis and the same y
    axis, whatever the resolutions. *)
Theorem axes_ignore_sample_order (centerPoint : Center float)
    (resolution resolution' : float) (samples samples' : list (ElevationSample float)) :
  (forall s, In s samples <-> In s samples') ->
  (forall s, In s samples ->
     not_nan (rc_x (projected centerPoint s)) /\
     not_nan (rc_y (projected centerPoint s))) ->
  td_x (terrainData centerPoint resolution samples)
  = td_x (terrainData centerPoint resolution' samples')
  /\ td_y (terrainData centerPoint resolution samples)
     = td_y (terrainData centerPoint resolution' samples').
Proof.
  intros Hsame Hnum.
  destruct samples as [|s0 samples0].
  { destruct samples' as [|s1 samples1]; [split; reflexivity|].
    destruct (proj2 (Hsame s1) (or_introl eq_refl)). }
  destruct samples' as [|s1 samples1].
  { destruct (proj1 (Hsame s0) (or_introl eq_refl)). }
  remember (s0 :: samples0) as samples eqn:Es.
  remember (s1 :: samples1) as samples' eqn:Es'.
  assert (Hne : samples <> []) by (rewrite Es; discriminate).
  assert (Hne' : samples' <> []) by (rewrite Es'; discriminate).
  destruct (terrainData_axes centerPoint resolution Hne) as [Ex [Ey _]].
  destruct (terrainData_axes centerPoint resolution' Hne') as [Ex' [Ey' _]].
  rewrite Ex, Ey, Ex', Ey'. split.
  - apply ascending_unique.
    + apply float_axis_ascending, Forall_forall. intros v Hv.
      apply in_map_iff in Hv. destruct Hv as [s [<- Hs]]. apply (Hnum s Hs).
    + apply float_axis_ascending, Forall_forall. intros v Hv.
      apply in_map_iff in Hv. destruct Hv as [s [<- Hs]]. apply (Hnum s), Hsame, Hs.
    + intros u. rewrite !axis_members. split; intros [v [Hv E]]; exists v;
        (split; [|exact E]); apply in_map_iff in Hv; destruct Hv as [s [<- Hs]];
        apply in_map_iff; exists s; (split; [reflexivity | apply Hsame, Hs]).
  - apply ascending_unique.
    + apply float_axis_ascending, Forall_forall. intros v Hv.
      apply in_map_iff in Hv. destruct Hv as [s [<- Hs]]. apply (Hnum s Hs).
    + apply float_axis_ascending, Forall_forall. intros v Hv.
      apply in_map_iff in Hv. destruct Hv as [s [<- Hs]]. apply (Hnum s), Hsame, Hs.
    + intros u. rewrite !axis_members. split; intros [v [Hv E]]; exists v;
        (split; [|exact E]); apply in_map_iff in Hv; destruct Hv as [s [<- Hs]];
        apply in_map_iff; exists s; (split; [reflexivity | apply Hsame, Hs]).
Qed.

(** Two samples, and the same two in the other order with one repeated. *)
Lemma axes_ignore_sample_order_witness :
  let centerPoint := {| c_latitude := 0%float; c_longitude := 0%float |} in
  let a := {| es_longitude := 0.0001%float; es_latitude := 0%float; es_elevation := 4%float |} in
  let b := {| es_longitude := 0%float; es_latitude := 0.0001%float; es_elevation := 8%float |} in
  td_x (terrainData centerPoint 10%float [a; b])
  = td_x (terrainData centerPoint 5%float [b; a; b]).
Proof.
  intros centerPoint a b.
  refine (proj1 (@axes_ignore_sample_order centerPoint 10%float 5%float
                   [a; b] [b; a; b] _ _)).
  - intros s. cbn [In]. tauto.
  - intros s [E | [E | []]]; subst s; split; reflexivity.
Defined.

(** X4. Every sample whose projected coordinates are numbers has a cell of
    its own in the height field: its x and its y are, up to [===], values
    of the axes, and the entry of that cell is the elevation of the first
    sample at that place -- the sample's own elevation when the samples at
    its place agree on the elevation (so, when no other sample is there). *)
Theorem sample_kept_at_its_cell (centerPoint : Center float) (resolution : float)
    (samples : list (ElevationSample float)) (s : ElevationSample float) :
  In s samples ->
  not_nan (rc_x (projected centerPoint s)) ->
  not_nan (rc_y (projected centerPoint s)) ->
  let field := terrainData centerPoint resolution samples in
  exists i j xj yi first,
    nth_error (td_x field) j = Some xj /\
    nth_error (td_y field) i = Some yi /\
    at_cell centerPoint xj yi s = true /\
    find (at_cell centerPoint xj yi) samples = Some first /\
    same_position centerPoint first s = true /\
    entry field i j (es_elevation first) /\
    ((forall s', In s' samples -> same_position centerPoint s' s = true ->
        es_elevation s' = es_elevation s) ->
     entry field i j (es_elevation s)).
Proof.
  intros Hs Hx Hy field. subst field.
  assert (Hne : samples <> []) by (intros E; rewrite E in Hs; destruct Hs).
  destruct (terrainData_axes centerPoint resolution Hne) as [Ex [Ey Ez]].
  set (xj := float_set_key (rc_x (projected centerPoint s))).
  set (yi := float_set_key (rc_y (projected centerPoint s))).
  assert (Hxj : In xj (td_x (terrainData centerPoint resolution samples))).
  { rewrite Ex. apply axis_value. apply in_map_iff. exists s. split; [reflexivity | exact Hs]. }
  assert (Hyi : In yi (td_y (terrainData centerPoint resolution samples))).
  { rewrite Ey. apply axis_value. apply in_map_iff. exists s. split; [reflexivity | exact Hs]. }
  destruct (In_nth_error _ _ Hxj) as [j Hj]. destruct (In_nth_error _ _ Hyi) as [i Hi].
  assert (Hat : at_cell centerPoint xj yi s = true).
  { unfold at_cell. apply andb_true_intro.
    split; [apply (set_key_strict_eq Hx) | apply (set_key_strict_eq Hy)]. }
  destruct (find (at_cell centerPoint xj yi) samples) as [first|] eqn:Hfind;
    [|rewrite (find_none _ _ Hfind s Hs) in Hat; discriminate].
  destruct (find_some _ _ Hfind) as [Hin Hfirst].
  assert (Hsame : same_position centerPoint first s = true).
  { unfold at_cell in Hat, Hfirst. unfold same_position.
    apply andb_true_iff in Hat, Hfirst. destruct Hat as [Hsx Hsy], Hfirst as [Hfx Hfy].
    apply andb_true_intro. split.
    - apply strict_eq_trans with xj; [exact Hfx | apply strict_eq_sym, Hsx].
    - apply strict_eq_trans with yi; [exact Hfy | apply strict_eq_sym, Hsy]. }
  assert (He : entry (terrainData centerPoint resolution samples) i j (es_elevation first)).
  { unfold entry. rewrite Ez.
    destruct (fill_grid_entry (make_points centerPoint samples) resolution _ _ _ _ Hj Hi)
      as [row [Hrow Hv]].
    exists row. split; [exact Hrow|]. rewrite Hv, cell_value_samples.
    unfold cell_of_samples. rewrite Hfind. reflexivity. }
  exists i, j, xj, yi, first. repeat split; try assumption.
  intros Hagree. rewrite <- (Hagree first Hin Hsame). exact He.
Qed.

(** The second of two samples: its elevation 12 is an entry of the field. *)
Lemma sample_kept_at_its_cell_witness :
  let centerPoint := {| c_latitude := 37.77495%float; c_longitude := (-122.4192)%float |} in
  let a := {| es_longitude := (-122.4194)%float; es_latitude := 37.7749%float;
              es_elevation := 16%float |} in
  let b := {| es_longitude := (-122.4190)%float; es_latitude := 37.7750%float;
              es_elevation := 12%float |} in
  exists i j, entry (terrainData centerPoint 10%float [a; b]) i j 12%float.
Proof.
  intros centerPoint a b.
  destruct (@sample_kept_at_its_cell centerPoint 10%float [a; b] b)
    as [i [j [xj [yi [first [_ [_ [_ [_ [_ [_ He]]]]]]]]]]].
  - right. left. reflexivity.
  - reflexivity.
  - reflexivity.
  - exists i, j. apply He.
    intros s' [E | [E | []]]; subst s'; [vm_compute; discriminate | reflexivity].
Defined.

(** X5. When the samples form a complete lattice -- for any two samples
    there is a sample with the x of the one and the y of the other --
    every entry of the height field is the elevation of a sample at its
    cell: nothing is averaged and no cell is filled with 0. *)
Theorem complete_lattice_needs_no_interpolation (centerPoint : Center float)
    (resolution : float) (samples : list (ElevationSample float)) :
  (forall s1 s2, In s1 samples -> In s2 samples ->
     exists s, In s samples /\
       PrimFloat.eqb (rc_x (projected centerPoint s)) (rc_x (projected centerPoint s1)) = true /\
       PrimFloat.eqb (rc_y (projected centerPoint s)) (rc_y (projected centerPoint s2)) = true) ->
  forall i j v,
    entry (terrainData centerPoint resolution samples) i j v ->
    exists s xj yi,
      nth_error (td_x (terrainData centerPoint resolution samples)) j = Some xj /\
      nth_error (td_y (terrainData centerPoint resolution samples)) i = Some yi /\
      In s samples /\
      at_cell centerPoint xj yi s = true /\
      v = es_elevation s.
Proof.
  intros Hfull i j v He.
  destruct (terrainData_entry _ _ _ He) as [xj [yi [Hj [Hi ->]]]].
  assert (Hne : samples <> []).
  { intros E. rewrite E in Hj. destruct j; discriminate. }
  destruct (terrainData_axes centerPoint resolution Hne) as [Ex [Ey _]].
  assert (Hx : exists s1, In s1 samples /\ xj = float_set_key (rc_x (projected centerPoint s1))).
  { apply nth_error_In in Hj. rewrite Ex in Hj. apply axis_members in Hj.
    destruct Hj as [u [Hu ->]]. apply in_map_iff in Hu. destruct Hu as [s1 [<- Hs1]].
    exists s1. split; [exact Hs1 | reflexivity]. }
  assert (Hy : exists s2, In s2 samples /\ yi = float_set_key (rc_y (projected centerPoint s2))).
  { apply nth_error_In in Hi. rewrite Ey in Hi. apply axis_members in Hi.
    destruct Hi as [u [Hu ->]]. apply in_map_iff in Hu. destruct Hu as [s2 [<- Hs2]].
    exists s2. split; [exact Hs2 | reflexivity]. }
  destruct Hx as [s1 [Hs1 Exj]], Hy as [s2 [Hs2 Eyi]].
  destruct (Hfull s1 s2 Hs1 Hs2) as [s [Hs [Hsx Hsy]]].
  assert (Hat : at_cell centerPoint xj yi s = true).
  { unfold at_cell. apply andb_true_intro. split.
    - apply strict_eq_trans with (rc_x (projected centerPoint s1)); [exact Hsx|].
      rewrite Exj. apply set_key_strict_eq. apply (strict_eq_not_nan Hsx).
    - apply strict_eq_trans with (rc_y (projected centerPoint s2)); [exact Hsy|].
      rewrite Eyi. apply set_key_strict_eq. apply (strict_eq_not_nan Hsy). }
  unfold cell_of_samples.
  destruct (find (at_cell centerPoint xj yi) samples) as [first|] eqn:Hfind;
    [|rewrite (find_none _ _ Hfind s Hs) in Hat; discriminate].
  destruct (find_some _ _ Hfind) as [Hin Hfirst].
  exists first, xj, yi. repeat split; assumption.
Qed.

(** Four samples on a 2-by-2 lattice: the entry [z[1][0]] is the elevation 15 of
    one of them. *)
Lemma complete_lattice_needs_no_interpolation_witness :
  let centerPoint := {| c_latitude := 0%float; c_longitude := 0%float |} in
  let sample lng lat elev :=
    {| es_longitude := lng; es_latitude := lat; es_elevation := elev |} in
  let samples :=
    [ sample 0%float 0%float 4%float; sample 0.0001%float 0%float 8%float;
      sample 0%float 0.0001%float 15%float; sample 0.0001%float 0.0001%float 16%float ] in
  exists s, In s samples /\ 15%float = es_elevation s.
Proof.
  intros centerPoint sample samples.
  destruct (@complete_lattice_needs_no_interpolation centerPoint 10%float samples)
    with (i := 1%nat) (j := 0%nat) (v := 15%float)
    as [s [xj [yi [_ [_ [Hs [_ Ev]]]]]]].
  - intros s1 s2 [E1 | [E1 | [E1 | [E1 | []]]]] [E2 | [E2 | [E2 | [E2 | []]]]];
      subst s1 s2;
      first [ exists (sample 0%float 0%float 4%float);
              split; [cbn; tauto | split; reflexivity]
            | exists (sample 0.0001%float 0%float 8%float);
              split; [cbn; tauto | split; reflexivity]
            | exists (sample 0%float 0.0001%float 15%float);
              split; [cbn; tauto | split; reflexivity]
            | exists (sample 0.0001%float 0.0001%float 16%float);
              split; [cbn; tauto | split; reflexivity] ].
  - eexists. split; vm_compute; reflexivity.
  - exists s. split; assumption.
Defined.

(** ** The requests and the state of a call *)

Section RequestFacts.

Context {N : Type} `{Number N} `{Trig N}.

Lemma requested_app (log1 log2 : list (Event N)) :
  requested (log1 ++ log2) = requested log1 ++ requested log2.
Proof. apply flat_map_app. Qed.

(** The requests of the rounds are the batches served, up to the first that
    fails: all of them when the rounds return. *)
Lemma rounds_requested (service : Service N) bs :
  forall n allResults,
    let rounds := batch_rounds service n bs allResults in
    requested (snd rounds) = firstn (length (requested (snd rounds))) bs
    /\ (bs <> [] -> 1 <= length (requested (snd rounds)))%nat
    /\ (forall all, fst rounds = Return all -> requested (snd rounds) = bs).
Proof.
  induction bs as [|b bs IH]; intros n allResults; cbn zeta.
  - cbn. repeat split; congruence.
  - cbn [batch_rounds].
    destruct (service n b) as [|response];
      [cbn; repeat split; try lia; discriminate|].
    destruct (negb (ok response)); [cbn; repeat split; try lia; discriminate|].
    destruct (body response) as [| |r];
      try (cbn; repeat split; try lia; discriminate).
    specialize (IH (S n) (allResults ++ r)). cbn zeta in IH.
    destruct (batch_rounds service (S n) bs (allResults ++ r)) as [outcome log].
    cbn [fst snd] in *. destruct IH as [IH1 [_ IH3]].
    cbn [requested flat_map app length firstn]. fold (requested log).
    split; [f_equal; exact IH1|]. split; [intros _; lia|].
    intros all E. f_equal. apply (IH3 all E).
Qed.

Lemma run_requested (service : Service N) (gridPoints : list (Feature N))
    (centerPoint : Center N) :
  requested (run service gridPoints centerPoint)
  = requested (snd (batch_rounds service 0 (batches (make_locations gridPoints)) [])).
Proof.
  destruct gridPoints as [|f gridPoints']; [reflexivity|].
  rewrite run_log by discriminate. cbv zeta.
  rewrite !requested_app. cbn [requested flat_map start_events app].
  destruct (fst _); cbn; rewrite app_nil_r; reflexivity.
Qed.

Lemma firstn_Forall {A} (P : A -> Prop) (n : nat) (l : list A) :
  Forall P l -> Forall P (firstn n l).
Proof.
  intros Hl. revert n. induction Hl as [|a l Ha _ IH]; intros [|n]; cbn;
    constructor; [exact Ha | apply IH].
Qed.

(** Awaited operations leave the state as it is. *)
Lemma replay_await_turns (ts : list (list (Event N))) (s : State N) :
  Forall await_turn ts -> replay s (concat ts) = s.
Proof.
  induction 1 as [|t ts [e [-> He]] _ IH]; [reflexivity|].
  cbn [concat app]. destruct e; try discriminate; exact IH.
Qed.

Lemma answered_positions (service : Service N) bs :
  forall n answers,
    echoes_locations service ->
    answered service n bs answers ->
    map (fun d => (es_longitude d, es_latitude d)) (concat answers)
    = map (fun l => (loc_longitude l, loc_latitude l)) (concat bs).
Proof.
  induction bs as [|b bs IH]; intros n answers Hs Ha.
  - destruct answers; [reflexivity | destruct Ha].
  - destruct answers as [|r answers]; [destruct Ha|].
    destruct Ha as [[response [Es [_ Eb]]] Ha].
    cbn [concat]. rewrite !map_app, (Hs _ _ _ _ Es Eb), (IH _ _ Hs Ha). reflexivity.
Qed.

Lemma make_locations_positions (gridPoints : list (Feature N)) :
  map (fun l => (loc_longitude l, loc_latitude l)) (make_locations gridPoints)
  = map (@coordinates N) gridPoints.
Proof.
  unfold make_locations. rewrite map_map. apply map_ext.
  intros f. cbn. destruct (coordinates f). reflexivity.
Qed.

Lemma simulate_positions (centerPoint : Center N) (gridPoints : list (Feature N)) :
  map (fun d => (es_longitude d, es_latitude d)) (map (simulate centerPoint) gridPoints)
  = map (@coordinates N) gridPoints.
Proof.
  rewrite map_map. apply map_ext.
  intros f. cbn. destruct (coordinates f). reflexivity.
Qed.

End RequestFacts.

(** X6. Whatever the service answers, the requests of a call carry the
    first batches of the grid's locations, in order: no location is sent
    twice or out of order, every request carries between 1 and 100
    locations, there are never more requests than batches, there is at
    least one for a non-empty grid, and there is one per batch when the
    call does not fall back. *)
Theorem requests_follow_the_batches {N : Type} `{Number N} `{Trig N}
    (service : Service N) (gridPoints : list (Feature N)) (centerPoint : Center N) :
  let bs := batches (make_locations gridPoints) in
  let sent := requested (run service gridPoints centerPoint) in
  sent = firstn (length sent) bs
  /\ (length sent <= batch_count (make_locations gridPoints))%nat
  /\ Forall (fun b => 1 <= length b <= BATCH_SIZE)%nat sent
  /\ (gridPoints <> [] -> 1 <= length sent)%nat
  /\ (fell_back service gridPoints = false -> sent = bs).
Proof.
  intros bs sent. subst sent. rewrite run_requested. fold bs.
  destruct (rounds_requested service bs 0 []) as [Hprefix [Hone Hall]].
  cbv zeta in Hprefix, Hone, Hall.
  set (sent := requested (snd (batch_rounds service 0 bs []))) in *.
  split; [exact Hprefix|]. split; [|split; [|split]].
  - apply (f_equal (@length _)) in Hprefix. rewrite length_firstn in Hprefix.
    unfold bs, batches in Hprefix. rewrite length_map, length_seq in Hprefix. lia.
  - rewrite Hprefix. apply firstn_Forall, batches_sizes.
  - intros Hne. apply Hone. apply batches_nonempty.
    destruct gridPoints; [congruence | discriminate].
  - unfold fell_back. fold bs.
    destruct (fst (batch_rounds service 0 bs [])) as [all|e] eqn:Er; [|discriminate].
    intros _. apply (Hall all eq_refl).
Qed.

(** X7. A call on a non-empty grid takes at least two turns, and between
    its first turn and its last the state shows that it is loading, shows
    no notice and holds the data it held before: the results of single
    batches never reach the state. *)
Theorem call_in_flight_state {N : Type} `{Number N} `{Trig N}
    (service : Service N) (gridPoints : list (Feature N)) (centerPoint : Center N)
    (s : State N) :
  gridPoints <> [] ->
  (2 <= length (turns (run service gridPoints centerPoint)))%nat
  /\ forall done rest,
       turns (run service gridPoints centerPoint) = done ++ rest ->
       done <> [] -> rest <> [] ->
       replay s (concat done)
       = {| isLoading := true; errorMessage := None; elevationData := elevationData s |}.
Proof.
  intros Hne. split.
  - destruct (run_turns service centerPoint Hne) as [e [awaits [_ [_ ->]]]].
    cbn [length]. rewrite length_app. cbn. lia.
  - intros done rest Et Hdone Hrest.
    destruct (run_turns_suffix service centerPoint Hne Et Hdone Hrest)
      as [[e [He Ehd]] [Htl _]].
    destruct done as [|first later]; [congruence|]. cbn [hd tl] in Ehd, Htl. subst first.
    cbn [concat]. rewrite replay_app, (replay_start s e He).
    apply replay_await_turns, Htl.
Qed.

(** X8. When the service answers each request with one sample per
    location, at that location and in order, the stored samples lie on the
    grid points, one for each and in their order, whether they are the
    service's or, after a failure, the simulated ones. *)
Theorem stored_samples_sit_on_the_grid {N : Type} `{Number N} `{Trig N}
    (service : Service N) (gridPoints : list (Feature N)) (centerPoint : Center N)
    (s : State N) :
  gridPoints <> [] ->
  echoes_locations service ->
  map (fun d => (es_longitude d, es_latitude d))
    (elevationData (replay s (run service gridPoints centerPoint)))
  = map (@coordinates N) gridPoints.
Proof.
  intros Hne Hecho. rewrite (run_state service centerPoint s Hne).
  destruct (fst (batch_rounds service 0 (batches (make_locations gridPoints)) []))
    as [all|e] eqn:Er; cbn [elevationData].
  - destruct (rounds_return _ _ _ _ Er) as [answers [Ha ->]]. cbn [app].
    rewrite (answered_positions _ _ _ Hecho Ha), concat_batches.
    apply make_locations_positions.
  - apply simulate_positions.
Qed.

(** A call for one grid point, after its first two turns. *)
Lemma call_in_flight_state_witness :
  let gridPoints := [ {| coordinates := ((-122.4194)%float, 37.7749%float) |} ] in
  let centerPoint := {| c_latitude := 37.7749%float; c_longitude := (-122.4194)%float |} in
  let answer := {| es_longitude := (-122.4194)%float; es_latitude := 37.7749%float;
                   es_elevation := 16%float |} in
  let service : Service float :=
    fun _ _ => fulfilled {| status := 200; body := results [answer] |} in
  let log := run (H0 := unused_trig) service gridPoints centerPoint in
  replay initial_state (concat (firstn 2 (turns log)))
  = {| isLoading := true; errorMessage := None; elevationData := [] |}.
Proof.
  intros gridPoints centerPoint answer service log.
  refine (proj2 (@call_in_flight_state float float_number unused_trig
                   service gridPoints centerPoint initial_state _)
            (firstn 2 (turns log)) (skipn 2 (turns log)) _ _ _).
  - discriminate.
  - symmetry. apply firstn_skipn.
  - vm_compute. discriminate.
  - vm_compute. discriminate.
Defined.

(** Two grid points and a service that gives every location the elevation 16. *)
Lemma stored_samples_sit_on_the_grid_witness :
  let gridPoints :=
    [ {| coordinates := ((-122.4194)%float, 37.7749%float) |};
      {| coordinates := ((-122.4190)%float, 37.7750%float) |} ] in
  let centerPoint := {| c_latitude := 37.77495%float; c_longitude := (-122.4192)%float |} in
  let service : Service float :=
    fun _ locations =>
      fulfilled
        {| status := 200;
           body := results
             (map (fun l => {| es_longitude := loc_longitude l;
                               es_latitude := loc_latitude l;
                               es_elevation := 16%float |}) locations) |} in
  map (fun d => (es_longitude d, es_latitude d))
    (elevationData
       (replay initial_state (run (H0 := unused_trig) service gridPoints centerPoint)))
  = [ ((-122.4194)%float, 37.7749%float); ((-122.4190)%float, 37.7750%float) ].
Proof.
  intros gridPoints centerPoint service.
  apply (@stored_samples_sit_on_the_grid float float_number unused_trig
           service gridPoints centerPoint initial_state).
  - discriminate.
  - intros n locations response r Es Eb. injection Es as <-. cbn in Eb.
    injection Eb as <-. rewrite map_map. reflexivity.
Defined.

(** ** Whole numbers on binary64 *)

Module Binary64Counting.

Local Open Scope Z_scope.

Lemma digits2_pos_iter_xO (p c : positive) :
  Zpos (digits2_pos (Pos.iter xO p c)) = Zpos (digits2_pos p) + Zpos c.
Proof.
  induction c as [|c IH] using Pos.peano_ind.
  - cbn [Pos.iter digits2_pos]. lia.
  - rewrite Pos.iter_succ. cbn [digits2_pos]. lia.
Qed.

(** The mantissa and the exponent of a whole number below [2^53]: the
    number is represented exactly, on 53 digits. *)
Lemma binary_round_whole (p : positive) :
  Zpos p < 2 ^ 53 ->
  let d := Zpos (digits2_pos p) in
  binary_round prec emax false p 0
  = S754_finite false (fst (shl_align p 0 (d - 53))) (d - 53).
Proof.
  intros Hp d.
  assert (Hd : 1 <= d <= 53).
  { pose proof (Binary64.digits2_pos_bounds p) as [Hlo Hhi]. fold d in Hlo, Hhi. split; [lia|].
    destruct (Z.le_gt_cases d 53) as [L|G]; [exact L|].
    assert (2 ^ 53 <= 2 ^ (d - 1)) by (apply Z.pow_le_mono_r; lia). lia. }
  unfold binary_round. rewrite Binary64.fexp_spec. fold d.
  replace (Z.max (d + 0 - 53) emin64) with (d - 53) by (unfold emin64; lia).
  assert (Hm : Zpos (digits2_pos (fst (shl_align p 0 (d - 53)))) = 53
               /\ snd (shl_align p 0 (d - 53)) = d - 53).
  { unfold shl_align. destruct (d - 53 - 0) as [|q|q] eqn:Eq; cbn [fst snd].
    - fold d. lia.
    - lia.
    - rewrite digits2_pos_iter_xO. fold d. lia. }
  destruct (shl_align p 0 (d - 53)) as [mz ez]. cbn [fst snd] in Hm |- *.
  destruct Hm as [Hmz ->].
  unfold binary_round_aux, shr_fexp. cbn [Zdigits2]. rewrite Hmz, Binary64.fexp_spec.
  replace (Z.max (53 + (d - 53) - 53) emin64 - (d - 53)) with 0 by (unfold emin64; lia).
  cbn [shr shr_record_of_loc shr_m loc_of_shr_record round_nearest_even Zdigits2].
  rewrite Hmz, Binary64.fexp_spec.
  replace (Z.max (53 + (d - 53) - 53) emin64 - (d - 53)) with 0 by (unfold emin64; lia).
  cbn [shr shr_m].
  replace (d - 53 <=? emax - prec) with true; [reflexivity|].
  symmetry. apply Z.leb_le. change (emax - prec) with 971. lia.
Qed.

Lemma Prim2SF_whole (k : Z) :
  0 <= k < 2 ^ 53 ->
  Prim2SF (float_of_Z k) = binary_normalize prec emax k 0 false.
Proof.
  intros Hk.
  assert (E : float_of_Z k = PrimFloat.of_uint63 (Uint63.of_Z k))
    by (destruct k; [reflexivity | reflexivity | lia]).
  rewrite E, FloatAxioms.of_uint63_spec, Uint63.of_Z_spec.
  rewrite Z.mod_small; [reflexivity|].
  split; [lia|]. apply Z.lt_trans with (2 ^ 53); [lia | reflexivity].
Qed.

(** The key of a whole number below [2^53]. *)
Lemma whole_key (p : positive) :
  Zpos p < 2 ^ 53 ->
  let d := Zpos (digits2_pos p) in
  Prim2SF (float_of_Z (Zpos p)) <> S754_nan /\
  exists m, key (Prim2SF (float_of_Z (Zpos p))) = (1, d - 53, Zpos m) /\
            Zpos m = Zpos p * 2 ^ (53 - d).
Proof.
  intros Hp d. rewrite Prim2SF_whole by lia. cbn [binary_normalize].
  rewrite (binary_round_whole Hp). fold d. split; [discriminate|].
  exists (fst (shl_align p 0 (d - 53))). split; [reflexivity|].
  assert (Hd : d <= 53).
  { pose proof (Binary64.digits2_pos_bounds p) as [Hlo Hhi]. fold d in Hlo, Hhi.
    destruct (Z.le_gt_cases d 53) as [L|G]; [exact L|].
    assert (2 ^ 53 <= 2 ^ (d - 1)) by (apply Z.pow_le_mono_r; lia). lia. }
  rewrite Binary64.shl_align_fst by lia. do 2 f_equal. lia.
Qed.

(** Whole numbers below [2^53] compare as numbers the way they compare as
    integers. *)
Lemma whole_ltb (k m : Z) :
  0 <= k < 2 ^ 53 -> 0 <= m < 2 ^ 53 ->
  PrimFloat.ltb (float_of_Z k) (float_of_Z m) = (k <? m).
Proof.
  intros Hk Hm.
  destruct k as [|p|p]; [| |lia]; destruct m as [|q|q]; try lia.
  - reflexivity.
  - destruct (@whole_key q) as [Nq [mq [Kq Eq]]]; [lia|].
    rewrite FloatAxioms.ltb_spec.
    change (Prim2SF (float_of_Z 0)) with (S754_zero false).
    revert Nq Kq. destruct (Prim2SF (float_of_Z (Zpos q))) as [s|s| |s mm e];
      cbn [key]; try destruct s; try congruence; reflexivity.
  - destruct (@whole_key p) as [Np [mp [Kp Ep]]]; [lia|].
    rewrite FloatAxioms.ltb_spec.
    change (Prim2SF (float_of_Z 0)) with (S754_zero false).
    revert Np Kp. destruct (Prim2SF (float_of_Z (Zpos p))) as [s|s| |s mm e];
      cbn [key]; try destruct s; try congruence; reflexivity.
  - destruct (@whole_key p) as [Np [mp [Kp Ep]]]; [lia|].
    destruct (@whole_key q) as [Nq [mq [Kq Eq]]]; [lia|].
    pose proof (Binary64.digits2_pos_bounds p) as [Lp Up].
    pose proof (Binary64.digits2_pos_bounds q) as [Lq Uq].
    set (dp := Zpos (digits2_pos p)) in *. set (dq := Zpos (digits2_pos q)) in *.
    assert (Hdp : 1 <= dp <= 53).
    { split; [subst dp; lia|]. destruct (Z.le_gt_cases dp 53) as [L|G]; [exact L|].
      assert (2 ^ 53 <= 2 ^ (dp - 1)) by (apply Z.pow_le_mono_r; lia). lia. }
    assert (Hdq : 1 <= dq <= 53).
    { split; [subst dq; lia|]. destruct (Z.le_gt_cases dq 53) as [L|G]; [exact L|].
      assert (2 ^ 53 <= 2 ^ (dq - 1)) by (apply Z.pow_le_mono_r; lia). lia. }
    assert (Hiff : PrimFloat.ltb (float_of_Z (Zpos p)) (float_of_Z (Zpos q)) = true
                   <-> Zpos p < Zpos q).
    { rewrite FloatAxioms.ltb_spec, (Binary64.SFltb_key Np Nq), Kp, Kq. cbn [key_lt].
      assert (Hpow : 0 < 2 ^ (53 - dp)) by (apply Z.pow_pos_nonneg; lia).
      split.
      - intros [L | [_ [L | [E L]]]]; [lia | |].
        + assert (2 ^ dp <= 2 ^ (dq - 1)) by (apply Z.pow_le_mono_r; lia). lia.
        + assert (E' : dp = dq) by lia. rewrite Ep, Eq, E' in L. rewrite E' in Hpow. nia.
      - intros L. right. split; [reflexivity|].
        destruct (Z.lt_trichotomy dp dq) as [Ld | [Ed | Gd]].
        + left. lia.
        + right. split; [lia|]. rewrite Ep, Eq, Ed. rewrite Ed in Hpow. nia.
        + assert (2 ^ dq <= 2 ^ (dp - 1)) by (apply Z.pow_le_mono_r; lia). lia. }
    destruct (Z.ltb_spec (Zpos p) (Zpos q)) as [L|G].
    + apply Hiff, L.
    + apply not_true_is_false. intros Ht. apply Hiff in Ht. lia.
Qed.

End Binary64Counting.

Module Binary64Whole.

Local Open Scope Z_scope.


Lemma digits2_pos_le (p : positive) (n : Z) :
  Zpos p < 2 ^ n -> 0 <= n -> Zpos (digits2_pos p) <= n.
Proof.
  intros Hp Hn. pose proof (Binary64.digits2_pos_bounds p) as [Hlo _].
  destruct (Z.le_gt_cases (Zpos (digits2_pos p)) n) as [L|G]; [exact L|].
  assert (2 ^ n <= 2 ^ (Zpos (digits2_pos p) - 1)) by (apply Z.pow_le_mono_r; lia). lia.
Qed.

(** Shifting a positive mantissa to its rounding exponent leaves at most 53
    digits of it. *)
Lemma shr_fexp_bounds (p : positive) (e : Z) (l : location) :
  emin64 <= e ->
  0 < shr_m (fst (shr_fexp prec emax (Zpos p) e l)) < 2 ^ 53 /\
  snd (shr_fexp prec emax (Zpos p) e l)
  = Z.max e (Z.max (Zpos (digits2_pos p) + e - 53) emin64).
Proof.
  intros He.
  destruct (Binary64.shr_fexp_pos p l He) as [Hpos _].
  split; [split; [exact Hpos|]|]; clear Hpos;
    unfold shr_fexp, shr; rewrite Binary64.fexp_spec; cbn [Zdigits2];
    pose proof (Binary64.digits2_pos_bounds p) as [Hlo Hhi];
    destruct (Z.max (Zpos (digits2_pos p) + e - 53) emin64 - e) as [|q|q] eqn:En;
    cbn [fst snd]; try lia.
  - replace (shr_m (shr_record_of_loc (Zpos p) l)) with (Zpos p)
      by (destruct l as [|[]]; reflexivity).
    assert (2 ^ Zpos (digits2_pos p) <= 2 ^ 53) by (apply Z.pow_le_mono_r; lia). lia.
  - rewrite Binary64.iter_shr_1_m by (destruct l as [|[]]; cbn; lia).
    replace (shr_m (shr_record_of_loc (Zpos p) l)) with (Zpos p)
      by (destruct l as [|[]]; reflexivity).
    rewrite Z.shiftr_div_pow2 by lia.
    apply Z.div_lt_upper_bound; [apply Z.pow_pos_nonneg; lia|].
    rewrite <- Z.pow_add_r by lia.
    apply Z.lt_le_trans with (2 ^ Zpos (digits2_pos p)); [exact Hhi|].
    apply Z.pow_le_mono_r; lia.
  - replace (shr_m (shr_record_of_loc (Zpos p) l)) with (Zpos p)
      by (destruct l as [|[]]; reflexivity).
    assert (2 ^ Zpos (digits2_pos p) <= 2 ^ 53) by (apply Z.pow_le_mono_r; lia). lia.
Qed.

Lemma round_nearest_even_le m l : round_nearest_even m l <= m + 1.
Proof. destruct l as [|[]]; cbn; try lia. destruct (Z.even m); lia. Qed.

(** Rounding a positive mantissa whose exponent is far from the largest
    gives a finite number. *)
Lemma binary_round_aux_finite (s : bool) (p : positive) (e : Z) (l : location) :
  emin64 <= e ->
  Z.max e (Zpos (digits2_pos p) + e - 53) + 1 <= emax - prec ->
  exists m' e', binary_round_aux prec emax s (Zpos p) e l = S754_finite s m' e'.
Proof.
  intros He Hmax. unfold binary_round_aux.
  destruct (shr_fexp_bounds p l He) as [[Hm1 Hu1] He1].
  destruct (shr_fexp prec emax (Zpos p) e l) as [mrs' e'].
  cbn [fst snd] in Hm1, Hu1, He1.
  pose proof (Binary64.round_nearest_even_pos (loc_of_shr_record mrs') Hm1) as Hr.
  pose proof (round_nearest_even_le (shr_m mrs') (loc_of_shr_record mrs')) as Hr'.
  destruct (round_nearest_even (shr_m mrs') (loc_of_shr_record mrs')) as [|p'|p']; try lia.
  assert (He' : emin64 <= e') by lia.
  destruct (shr_fexp_bounds p' loc_Exact He') as [[Hm2 _] He2].
  assert (Hd : Zpos (digits2_pos p') <= 54).
  { apply digits2_pos_le; [|lia]. change (2 ^ 54) with (2 * 2 ^ 53). lia. }
  destruct (shr_fexp prec emax (Zpos p') e' loc_Exact) as [mrs'' e''].
  cbn [fst snd] in Hm2, He2.
  destruct (shr_m mrs'') as [|m|m]; try lia.
  replace (e'' <=? emax - prec) with true; [eauto|].
  symmetry. apply Z.leb_le. unfold emin64 in *. lia.
Qed.

Lemma binary_round_finite (p : positive) :
  Zpos p < 2 ^ 63 ->
  exists m e, binary_round prec emax false p 0 = S754_finite false m e.
Proof.
  intros Hp. pose proof (@digits2_pos_le p 63 Hp ltac:(lia)) as Hd.
  pose proof (Binary64.digits2_pos_bounds p) as [Hlo _].
  unfold binary_round, shl_align. rewrite Binary64.fexp_spec.
  destruct (Z.max (Zpos (digits2_pos p) + 0 - 53) emin64 - 0) as [|d|d] eqn:Ed.
  - apply binary_round_aux_finite; [unfold emin64; lia|].
    change (emax - prec) with 971. lia.
  - apply binary_round_aux_finite; [unfold emin64; lia|].
    change (emax - prec) with 971. lia.
  - apply binary_round_aux_finite; [unfold emin64 in *; lia|].
    rewrite Binary64Counting.digits2_pos_iter_xO. change (emax - prec) with 971. unfold emin64 in *. lia.
Qed.

(** A loop counter is below [Infinity], whatever its value. *)
Lemma whole_below_infinity (k : Z) :
  0 <= k -> PrimFloat.ltb (float_of_Z k) infinity = true.
Proof.
  intros Hk.
  rewrite FloatAxioms.ltb_spec. change (Prim2SF infinity) with (S754_infinity false).
  assert (E : float_of_Z k = PrimFloat.of_uint63 (Uint63.of_Z k))
    by (destruct k; [reflexivity | reflexivity | lia]).
  rewrite E, FloatAxioms.of_uint63_spec.
  pose proof (Uint63.to_Z_bounded (Uint63.of_Z k)) as [Hlo Hhi].
  destruct (Uint63Axioms.to_Z (Uint63.of_Z k)) as [|p|p]; [reflexivity| |lia].
  cbn [binary_normalize].
  destruct (@binary_round_finite p) as [m [e ->]]; [exact Hhi | reflexivity].
Qed.

End Binary64Whole.

(** ** The counter of a loop on binary64 *)

Module Binary64Successor.

Local Open Scope Z_scope.

(** Shifting out digits that are all 0 is exact. *)
Lemma iter_shr_1_exact (q : positive) :
  forall c, 0 <= c ->
    SpecFloat.iter_pos shr_1 q {| shr_m := c * 2 ^ Zpos q; shr_r := false; shr_s := false |}
    = {| shr_m := c; shr_r := false; shr_s := false |}.
Proof.
  assert (Hone : forall c, 0 <= c ->
            shr_1 {| shr_m := c * 2; shr_r := false; shr_s := false |}
            = {| shr_m := c; shr_r := false; shr_s := false |}).
  { intros [|p|p] Hc; [reflexivity | | lia].
    replace (Zpos p * 2) with (Zpos p~0) by lia. reflexivity. }
  induction q as [q IH|q IH|]; intros c Hc; cbn [SpecFloat.iter_pos].
  - replace (c * 2 ^ Zpos q~1) with ((c * 2 ^ Zpos q * 2 ^ Zpos q) * 2).
    + rewrite Hone by (repeat apply Z.mul_nonneg_nonneg; lia).
      rewrite IH by (apply Z.mul_nonneg_nonneg; lia). apply IH, Hc.
    + replace (Zpos q~1) with (Zpos q + Zpos q + 1) by lia.
      rewrite !Z.pow_add_r by lia. change (2 ^ 1) with 2. ring.
  - replace (c * 2 ^ Zpos q~0) with (c * 2 ^ Zpos q * 2 ^ Zpos q).
    + rewrite IH by (apply Z.mul_nonneg_nonneg; lia). apply IH, Hc.
    + replace (Zpos q~0) with (Zpos q + Zpos q) by lia.
      rewrite Z.pow_add_r by lia. ring.
  - change (2 ^ 1) with 2. apply Hone, Hc.
Qed.

Lemma digits2_pos_unique (p : positive) (n : Z) :
  2 ^ (n - 1) <= Zpos p < 2 ^ n -> 1 <= n -> Zpos (digits2_pos p) = n.
Proof.
  intros [Hlo Hhi] Hn. pose proof (Binary64.digits2_pos_bounds p) as [Dlo Dhi].
  destruct (Z.lt_trichotomy (Zpos (digits2_pos p)) n) as [L | [E | G]]; [|exact E|].
  - assert (2 ^ Zpos (digits2_pos p) <= 2 ^ (n - 1)) by (apply Z.pow_le_mono_r; lia). lia.
  - assert (2 ^ n <= 2 ^ (Zpos (digits2_pos p) - 1)) by (apply Z.pow_le_mono_r; lia). lia.
Qed.

(** A mantissa of exactly 53 digits, at an exponent that is not too large,
    is kept as it is. *)
Lemma canonical_kept (M : positive) (e : Z) :
  Zpos (digits2_pos M) = 53 -> emin64 <= e <= emax - prec ->
  (let '(mrs, e') := shr_fexp prec emax (Zpos M) e loc_Exact in
   match shr_m mrs with
   | 0 => S754_zero false
   | Zpos m => if e' <=? emax - prec then S754_finite false m e' else S754_infinity false
   | Zneg _ => S754_nan
   end)
  = S754_finite false M e.
Proof.
  intros Hd [Hlo Hhi]. unfold shr_fexp. cbn [Zdigits2].
  rewrite Hd, Binary64.fexp_spec.
  replace (Z.max (53 + e - 53) emin64 - e) with 0 by lia.
  cbn [shr shr_record_of_loc shr_m].
  replace (e <=? emax - prec) with true; [reflexivity|].
  symmetry. apply Z.leb_le. exact Hhi.
Qed.

(** A whole number below [2^53], written with 52 more binary digits at the
    exponent -52, rounds to itself. *)
Lemma binary_round_scaled (W P : positive) :
  Zpos W < 2 ^ 53 ->
  Zpos P = Zpos W * 2 ^ 52 ->
  binary_round prec emax false P (-52) = binary_round prec emax false W 0.
Proof.
  intros HW HP. rewrite (Binary64Counting.binary_round_whole HW). cbv zeta.
  pose proof (Binary64.digits2_pos_bounds W) as [Wlo Whi].
  set (d := Zpos (digits2_pos W)) in *.
  assert (Hd : 1 <= d <= 53).
  { split; [subst d; lia|]. apply Binary64Whole.digits2_pos_le; [exact HW | lia]. }
  set (M := fst (shl_align W 0 (d - 53))).
  assert (HM : Zpos M = Zpos W * 2 ^ (53 - d)).
  { subst M. rewrite Binary64.shl_align_fst by lia. do 2 f_equal. lia. }
  assert (HdM : Zpos (digits2_pos M) = 53).
  { apply digits2_pos_unique; [|lia]. rewrite HM.
    assert (Hp : 0 < 2 ^ (53 - d)) by (apply Z.pow_pos_nonneg; lia).
    replace (2 ^ (53 - 1)) with (2 ^ (d - 1) * 2 ^ (53 - d))
      by (rewrite <- Z.pow_add_r by lia; f_equal; lia).
    replace (2 ^ 53) with (2 ^ d * 2 ^ (53 - d))
      by (rewrite <- Z.pow_add_r by lia; f_equal; lia).
    split; nia. }
  assert (HdP : Zpos (digits2_pos P) = d + 52).
  { apply digits2_pos_unique; [|lia]. rewrite HP.
    replace (2 ^ (d + 52 - 1)) with (2 ^ (d - 1) * 2 ^ 52)
      by (rewrite <- Z.pow_add_r by lia; f_equal; lia).
    replace (2 ^ (d + 52)) with (2 ^ d * 2 ^ 52)
      by (rewrite <- Z.pow_add_r by lia; f_equal; lia).
    split; nia. }
  assert (Haux : binary_round_aux prec emax false (Zpos P) (-52) loc_Exact
                 = S754_finite false M (d - 53)).
  { unfold binary_round_aux at 1. unfold shr_fexp at 1. cbn [Zdigits2].
    rewrite HdP, Binary64.fexp_spec.
    replace (Z.max (d + 52 + -52 - 53) emin64 - -52) with (d - 1) by (unfold emin64; lia).
    unfold shr.
    destruct (d - 1) as [|q|q] eqn:Eq; [| |lia].
    - assert (E : P = M).
      { apply Pos2Z.inj. rewrite HP, HM. do 2 f_equal. lia. }
      subst P. cbn [shr_record_of_loc shr_m loc_of_shr_record round_nearest_even].
      replace (-52) with (d - 53) by lia.
      apply (canonical_kept M HdM). unfold emin64. change (emax - prec) with 971. lia.
    - cbn [shr_record_of_loc].
      replace (Zpos P) with (Zpos M * 2 ^ Zpos q).
      + rewrite iter_shr_1_exact by lia.
        cbn [shr_m loc_of_shr_record round_nearest_even].
        replace (-52 + Zpos q) with (d - 53) by lia.
        apply (canonical_kept M HdM).
        unfold emin64. change (emax - prec) with 971. lia.
      + rewrite HP, HM, <- Z.mul_assoc, <- Z.pow_add_r by lia. do 2 f_equal. lia. }
  unfold binary_round, shl_align. rewrite HdP, Binary64.fexp_spec.
  destruct (Z.max (d + 52 + -52 - 53) emin64 - -52) as [|q|q] eqn:Eq;
    [exact Haux | exact Haux | unfold emin64 in Eq; lia].
Qed.

(** Adding 1 to a whole number below [2^53] gives the next whole number. *)
Lemma whole_succ (k : Z) :
  0 <= k < 2 ^ 53 ->
  PrimFloat.add (float_of_Z k) 1%float = float_of_Z (k + 1).
Proof.
  intros Hk. destruct k as [|p|p]; [reflexivity | | lia].
  destruct (Z.eq_dec (Zpos p + 1) (2 ^ 53)) as [Etop | Hnot].
  { assert (E : p = 9007199254740991%positive) by lia. subst p. reflexivity. }
  apply Prim2SF_inj.
  rewrite FloatAxioms.add_spec, !Binary64Counting.Prim2SF_whole by lia.
  replace (Zpos p + 1) with (Zpos (p + 1)) by lia. cbn [binary_normalize].
  assert (Hp : Zpos p < 2 ^ 53) by lia.
  rewrite (Binary64Counting.binary_round_whole Hp). cbv zeta.
  pose proof (Binary64.digits2_pos_bounds p) as [Plo Phi].
  set (d := Zpos (digits2_pos p)) in *.
  assert (Hd : 1 <= d <= 53).
  { split; [subst d; lia|]. apply Binary64Whole.digits2_pos_le; [exact Hp | lia]. }
  set (M := fst (shl_align p 0 (d - 53))).
  assert (HM : Zpos M = Zpos p * 2 ^ (53 - d)).
  { subst M. rewrite Binary64.shl_align_fst by lia. do 2 f_equal. lia. }
  change (Prim2SF 1%float) with (S754_finite false 4503599627370496 (-52)).
  unfold SF64add, SFadd. cbv zeta.
  replace (Z.min (d - 53) (-52)) with (-52) by lia.
  cbn [cond_Zopp].
  assert (HA : Zpos (fst (shl_align M (d - 53) (-52))) = Zpos p * 2 ^ 52).
  { rewrite Binary64.shl_align_fst by lia. rewrite HM, <- Z.mul_assoc, <- Z.pow_add_r by lia.
    do 2 f_equal. lia. }
  assert (HB : Zpos (fst (shl_align 4503599627370496 (-52) (-52))) = 2 ^ 52)
    by reflexivity.
  set (A := fst (shl_align M (d - 53) (-52))) in *.
  set (B := fst (shl_align 4503599627370496 (-52) (-52))) in *.
  change (Zpos A + Zpos B) with (Zpos (A + B)). cbn [binary_normalize].
  apply binary_round_scaled; [lia|].
  rewrite Pos2Z.inj_add, HA, HB, Pos2Z.inj_add. ring.
Qed.

(** The value of a loop counter after [k] rounds: the whole number [k] up
    to [2^53], where adding 1 changes it no more. *)
Lemma counter_value (k : nat) :
  counter k = float_of_Z (Z.min (Z.of_nat k) (2 ^ 53)).
Proof.
  unfold counter. cbn [add of_Z float_number].
  change (float_of_Z 1) with 1%float. change (float_of_Z 0) with 0%float.
  induction k as [|k IH]; [reflexivity|].
  rewrite Nat.iter_succ, IH.
  destruct (Z.lt_ge_cases (Z.of_nat k) (2 ^ 53)) as [L|G].
  - rewrite Z.min_l by lia. rewrite whole_succ by lia. f_equal. lia.
  - rewrite !Z.min_r by lia. reflexivity.
Qed.

(** Up to [2^53] rounds the counter is the number of the round. *)
Lemma counter_whole (k : nat) :
  Z.of_nat k <= 2 ^ 53 -> counter k = float_of_Z (Z.of_nat k).
Proof. intros Hk. rewrite counter_value, Z.min_l by exact Hk. reflexivity. Qed.

End Binary64Successor.

(** ** Counted loops *)

Section LoopFacts.

Context {N : Type} `{Number N}.

(** A loop that makes [n] rounds, run on more fuel than that, ends with the
    state its rounds build. *)
Lemma for_loop_rounds {S : Type} (size : N) (n : nat) (body : nat -> S -> option S)
    (round : nat -> S -> S) :
  counts_to size n ->
  (forall k s, body k s = Some (round k s)) ->
  forall fuel i s,
    (i <= n)%nat -> (n - i < fuel)%nat ->
    for_loop fuel size i body s
    = Some (fold_left (fun s k => round k s) (seq i (n - i)) s).
Proof.
  intros [Hbelow Hend] Hbody.
  induction fuel as [|fuel IH]; intros i s Hi Hfuel; [lia|].
  cbn [for_loop].
  destruct (Nat.eq_dec i n) as [->|Hne].
  - rewrite Hend, Nat.sub_diag. reflexivity.
  - rewrite (Hbelow i) by lia. rewrite Hbody, IH by lia.
    replace (n - i)%nat with (Datatypes.S (n - Datatypes.S i)) by lia. reflexivity.
Qed.

(** Run on no more fuel than it makes rounds, the loop does not end. *)
Lemma for_loop_out_of_fuel {S : Type} (size : N) (n : nat) (body : nat -> S -> option S) :
  counts_to size n ->
  forall fuel i s,
    (i <= n)%nat -> (fuel <= n - i)%nat ->
    for_loop fuel size i body s = None.
Proof.
  intros [Hbelow Hend].
  induction fuel as [|fuel IH]; intros i s Hi Hfuel; [reflexivity|].
  cbn [for_loop]. rewrite (Hbelow i) by lia.
  destruct (body i s) as [s'|]; [apply IH; lia | reflexivity].
Qed.

(** The loop makes as many rounds in every run. *)
Lemma counts_to_unique (size : N) (n m : nat) :
  counts_to size n -> counts_to size m -> n = m.
Proof.
  intros [Hn En] [Hm Em].
  destruct (Nat.lt_trichotomy n m) as [L | [E | G]]; [|exact E|].
  - rewrite (Hm n L) in En. discriminate.
  - rewrite (Hn m G) in Em. discriminate.
Qed.

(** Assigning [row[j] = f(j)] for [j = 0, ..., n - 1] builds the array of
    the [f(j)], without holes. *)
Lemma index_loop {B} (f : nat -> B) (n : nat) :
  fold_left (fun row j => array_set row j (f j)) (seq 0 n) []
  = map (fun j => Some (f j)) (seq 0 n).
Proof.
  induction n as [|n IH]; [reflexivity|].
  rewrite seq_S, fold_left_app, IH, map_app. cbn [fold_left map Nat.add].
  replace n with (length (map (fun j => Some (f j)) (seq 0 n))) at 2
    by (rewrite length_map, length_seq; reflexivity).
  apply array_set_end.
Qed.

End LoopFacts.

Section SyntheticFacts.

Context {N : Type} `{Number N} `{Trig N} `{Ceil N}.

Lemma generateTerrainData_rounds (fuel n : nat) (centerLat centerLng resolution extent : N) :
  let size := ceil (div (mul extent (of_Z 2)) resolution) in
  counts_to size n ->
  (n < fuel)%nat ->
  TerrainModel.generateTerrainData fuel centerLat centerLng resolution extent
  = Some (map (fun z =>
                 Some (map (fun x =>
                              Some (height (grid_line size resolution x)
                                      (grid_line size resolution z)))
                         (seq 0 n)))
            (seq 0 n)).
Proof.
  intros size Hn Hfuel. unfold TerrainModel.generateTerrainData. fold size.
  rewrite for_loop_rounds
    with (n := n)
         (round := fun z terrain =>
            array_set terrain z
              (map (fun x => Some (height (grid_line size resolution x)
                                     (grid_line size resolution z)))
                 (seq 0 n))); try assumption; try lia.
  - rewrite Nat.sub_0_r. f_equal. apply index_loop.
  - intros z terrain.
    rewrite for_loop_rounds
      with (n := n)
           (round := fun x row =>
              array_set row x (height (grid_line size resolution x)
                                 (grid_line size resolution z)));
      try assumption; try lia; [|reflexivity].
    rewrite Nat.sub_0_r, index_loop. reflexivity.
Qed.

(** The inner loop of [terrainData], from the arrays [x0] and [y0] and an
    empty row, after [m] rounds. *)
Lemma plotly_row_rounds (size resolution : N) (i m : nat) (x0 y0 : list N) :
  let pos := grid_line size resolution in
  fold_left
    (fun (s : list N * list N * jsarray N) j =>
       let '(x, y, row) := s in
       (if (i =? 0)%nat then x ++ [pos j] else x,
        if (j =? 0)%nat then y ++ [pos i] else y,
        array_set row j (height (pos j) (pos i))))
    (seq 0 m) (x0, y0, [])
  = (if (i =? 0)%nat then x0 ++ map pos (seq 0 m) else x0,
     if (0 <? m)%nat then y0 ++ [pos i] else y0,
     map (fun j => Some (height (pos j) (pos i))) (seq 0 m)).
Proof.
  intros pos. induction m as [|m IH].
  - cbn. destruct (i =? 0)%nat; [rewrite app_nil_r|]; reflexivity.
  - rewrite seq_S, fold_left_app, IH. cbn [fold_left Nat.add]. f_equal; [f_equal|].
    + destruct (i =? 0)%nat; [|reflexivity].
      rewrite map_app, app_assoc. reflexivity.
    + destruct m as [|m]; reflexivity.
    + rewrite map_app. cbn [map].
      replace m with (length (map (fun j => Some (height (pos j) (pos i))) (seq 0 m))) at 2
        by (rewrite length_map, length_seq; reflexivity).
      apply array_set_end.
Qed.

(** The outer loop of [terrainData] after [m] of its [n] rounds. *)
Lemma plotly_grid_rounds (size resolution : N) (n m : nat) :
  let pos := grid_line size resolution in
  (m <= n)%nat ->
  fold_left
    (fun (s : list N * list N * jsarray (jsarray N)) i =>
       let '(x, y, z) := s in
       (if (i =? 0)%nat then x ++ map pos (seq 0 n) else x,
        if (0 <? n)%nat then y ++ [pos i] else y,
        array_set z i (map (fun j => Some (height (pos j) (pos i))) (seq 0 n))))
    (seq 0 m) ([], [], [])
  = (if (0 <? m)%nat then map pos (seq 0 n) else [],
     map pos (seq 0 m),
     map (fun i => Some (map (fun j => Some (height (pos j) (pos i))) (seq 0 n)))
       (seq 0 m)).
Proof.
  intros pos. induction m as [|m IH]; intros Hm; [reflexivity|].
  rewrite seq_S, fold_left_app, IH by lia. cbn [fold_left Nat.add]. f_equal; [f_equal|].
  - destruct m as [|m]; reflexivity.
  - replace (0 <? n)%nat with true by (symmetry; apply Nat.ltb_lt; lia).
    rewrite map_app. reflexivity.
  - rewrite map_app. cbn [map].
    replace m with
      (length (map (fun i => Some (map (fun j => Some (height (pos j) (pos i))) (seq 0 n)))
                 (seq 0 m))) at 2
      by (rewrite length_map, length_seq; reflexivity).
    apply array_set_end.
Qed.

Lemma plotly_terrainData_rounds (fuel n : nat) (terrainResolution terrainExtent : N) :
  let size := ceil (div (mul terrainExtent (of_Z 2)) terrainResolution) in
  let pos := grid_line size terrainResolution in
  counts_to size n ->
  (n < fuel)%nat ->
  PlotlyDroneVisualization.terrainData fuel terrainResolution terrainExtent
  = Some {| td_x := map pos (seq 0 n);
            td_y := map pos (seq 0 n);
            td_z := map (fun i => Some (map (fun j => Some (height (pos j) (pos i)))
                                          (seq 0 n)))
                      (seq 0 n) |}.
Proof.
  intros size pos Hn Hfuel. unfold PlotlyDroneVisualization.terrainData. fold size.
  rewrite for_loop_rounds
    with (n := n)
         (round := fun i (s : list N * list N * jsarray (jsarray N)) =>
            let '(x, y, z) := s in
            (if (i =? 0)%nat then x ++ map pos (seq 0 n) else x,
             if (0 <? n)%nat then y ++ [pos i] else y,
             array_set z i (map (fun j => Some (height (pos j) (pos i))) (seq 0 n))));
    try assumption; try lia.
  - rewrite Nat.sub_0_r. cbv beta. subst pos.
    rewrite (plotly_grid_rounds size terrainResolution (n := n) (m := n)) by lia.
    destruct n as [|n]; reflexivity.
  - intros i [[x y] z].
    rewrite for_loop_rounds
      with (n := n)
           (round := fun j (s : list N * list N * jsarray N) =>
              let '(x, y, row) := s in
              (if (i =? 0)%nat then x ++ [pos j] else x,
               if (j =? 0)%nat then y ++ [pos i] else y,
               array_set row j (height (pos j) (pos i))));
      try assumption; try lia.
    + rewrite Nat.sub_0_r. cbv beta. subst pos.
      rewrite (plotly_row_rounds size terrainResolution i n x y). reflexivity.
    + intros j [[x' y'] row]. reflexivity.
Qed.

End SyntheticFacts.

(** ** The heights of the vertices *)

Section VertexFacts.

Context {N : Type}.

(** Reading an entry of a matrix without holes. *)
Lemma read_entry_full (entries : list (list N)) (z x : nat) (row : list N) :
  nth_error entries z = Some row ->
  TerrainModel.read_entry (map (fun row => Some (map (@Some N) row)) entries) z x
  = Some (nth_error row x).
Proof.
  intros Hz. unfold TerrainModel.read_entry.
  rewrite nth_error_map, Hz. cbn [option_map]. rewrite nth_error_map.
  destruct (nth_error row x); reflexivity.
Qed.

(** The calls of the loop, when every entry it reads is there. *)
Lemma setY_calls_rounds (terrainData : jsarray (jsarray N))
    (value : nat -> nat -> option N) :
  let size := length terrainData in
  (forall z x, (z < size)%nat -> (x < size)%nat ->
     TerrainModel.read_entry terrainData z x = Some (value z x)) ->
  TerrainModel.setY_calls terrainData
  = Some (flat_map (fun z => map (fun x => ((z * size + x)%nat, value z x)) (seq 0 size))
            (seq 0 size)).
Proof.
  intros size Hread. unfold TerrainModel.setY_calls. fold size.
  assert (Hrow : forall z calls m,
            (z < size)%nat -> (m <= size)%nat ->
            fold_left
              (fun calls x =>
                 match calls, TerrainModel.read_entry terrainData z x with
                 | Some calls, Some v => Some (calls ++ [((z * size + x)%nat, v)])
                 | _, _ => None
                 end)
              (seq 0 m) (Some calls)
            = Some (calls ++ map (fun x => ((z * size + x)%nat, value z x)) (seq 0 m))).
  { intros z calls m Hz. induction m as [|m IH]; intros Hm.
    - cbn. rewrite app_nil_r. reflexivity.
    - rewrite seq_S, fold_left_app, IH by lia. cbn [fold_left Nat.add].
      rewrite Hread by lia. rewrite map_app, app_assoc. reflexivity. }
  assert (Hall : forall m,
            (m <= size)%nat ->
            fold_left
              (fun calls z =>
                 fold_left
                   (fun calls x =>
                      match calls, TerrainModel.read_entry terrainData z x with
                      | Some calls, Some v => Some (calls ++ [((z * size + x)%nat, v)])
                      | _, _ => None
                      end)
                   (seq 0 size) calls)
              (seq 0 m) (Some [])
            = Some (flat_map
                      (fun z => map (fun x => ((z * size + x)%nat, value z x)) (seq 0 size))
                      (seq 0 m))).
  { induction m as [|m IH]; intros Hm; [reflexivity|].
    rewrite seq_S, fold_left_app, IH by lia. cbn [fold_left Nat.add].
    rewrite Hrow by lia. rewrite flat_map_app. cbn [flat_map]. rewrite app_nil_r.
    reflexivity. }
  apply Hall. lia.
Qed.

Lemma row_major_indices (n m : nat) (value : nat -> nat -> option N) :
  map fst (flat_map (fun z => map (fun x => ((z * n + x)%nat, value z x)) (seq 0 n))
             (seq 0 m))
  = seq 0 (m * n).
Proof.
  induction m as [|m IH]; [reflexivity|].
  rewrite seq_S, flat_map_app, map_app, IH. cbn [flat_map Nat.add].
  rewrite app_nil_r, map_map. cbn [fst].
  replace (Datatypes.S m * n)%nat with (m * n + n)%nat by lia.
  rewrite seq_app. f_equal. cbn [Nat.add].
  clear IH. generalize (m * n)%nat as b. intros b.
  replace (seq b n) with (seq (b + 0) n) by (f_equal; lia). generalize 0%nat as a.
  induction n as [|n IHn]; intros a; [reflexivity|].
  cbn [seq map]. f_equal. rewrite <- Nat.add_succ_r. apply IHn.
Qed.

Lemma row_values (row : list N) :
  map (fun x => nth_error row x) (seq 0 (length row)) = map (@Some N) row.
Proof.
  induction row as [|v row IH]; [reflexivity|].
  cbn [length seq map nth_error]. f_equal.
  rewrite <- seq_shift, map_map. exact IH.
Qed.

Lemma row_major_values (entries : list (list N)) (n : nat) :
  Forall (fun row => length row = n) entries ->
  forall b,
    map snd (flat_map (fun z => map (fun x => ((z * n + x)%nat,
                                               nth_error (nth (z - b) entries []) x))
                                  (seq 0 n))
               (seq b (length entries)))
    = map (@Some N) (concat entries).
Proof.
  induction 1 as [|row entries Hrow _ IH]; intros b; [reflexivity|].
  cbn [length seq flat_map concat]. rewrite !map_app, map_map. cbn [snd].
  rewrite Nat.sub_diag. cbn [nth]. rewrite <- Hrow at 1. rewrite row_values. f_equal.
  rewrite <- (IH (Datatypes.S b)). f_equal.
  rewrite !flat_map_concat_map. f_equal.
  apply map_ext_in. intros z Hz. apply in_seq in Hz.
  apply map_ext. intros x. f_equal. f_equal.
  replace (z - b)%nat with (Datatypes.S (z - Datatypes.S b)) by lia. reflexivity.
Qed.

End VertexFacts.

(** ** The views and the synthetic terrain *)

(** [Math.ceil] at some numbers. *)
Example ceil_values :
  float_ceil 47.2%float = 48%float /\
  float_ceil 48%float = 48%float /\
  float_ceil 0.1%float = 1%float /\
  float_ceil (-0.5)%float = (-0)%float /\
  float_ceil (-47.2)%float = (-47)%float /\
  float_ceil 4503599627370495.5%float = 4503599627370496%float /\
  float_ceil 1e300%float = 1e300%float /\
  float_ceil infinity = infinity /\
  float_ceil neg_infinity = neg_infinity /\
  PrimFloat.is_nan (float_ceil nan) = true /\
  Prim2SF (float_ceil (-0.5)%float) = S754_zero true /\
  Prim2SF (float_ceil (-0)%float) = S754_zero true.
Proof. repeat split; vm_compute; reflexivity. Qed.

Lemma whole_counts_to (m : Z) :
  (0 <= m < 2 ^ 53)%Z -> counts_to (float_of_Z m) (Z.to_nat m).
Proof.
  intros Hm. split.
  - intros k Hk. rewrite Binary64Successor.counter_whole by lia. cbn [ltb float_number].
    rewrite Binary64Counting.whole_ltb by lia. apply Z.ltb_lt. lia.
  - rewrite Binary64Successor.counter_whole by lia. cbn [ltb float_number].
    rewrite Z2Nat.id by lia. rewrite Binary64Counting.whole_ltb by lia.
    apply Z.ltb_irrefl.
Qed.

(** X9. On binary64 a loop [for (let i = 0; i < size; i++)] whose bound is
    a whole number [m], [0 <= m < 2^53], makes exactly [m] rounds, with the
    counter values [0, ..., m - 1]; it makes none when [0 < size] is false:
    for a zero, a negative or a [NaN] bound. *)
Theorem loop_rounds_of_a_whole_bound {S : Type} (body : nat -> S -> option S)
    (round : nat -> S -> S) (s : S) :
  (forall k s, body k s = Some (round k s)) ->
  (forall (m : Z) (fuel : nat),
     (0 <= m < 2 ^ 53)%Z -> (Z.to_nat m < fuel)%nat ->
     for_loop fuel (float_of_Z m) 0 body s
     = Some (fold_left (fun s k => round k s) (seq 0 (Z.to_nat m)) s))
  /\ (forall (size : float) (fuel : nat),
        PrimFloat.ltb 0%float size = false ->
        for_loop (Datatypes.S fuel) size 0 body s = Some s).
Proof.
  intros Hbody. split.
  - intros m fuel Hm Hfuel.
    rewrite for_loop_rounds with (n := Z.to_nat m) (round := round);
      try assumption; try lia; [|apply whole_counts_to, Hm].
    rewrite Nat.sub_0_r. reflexivity.
  - intros size fuel Hsize. cbn [for_loop].
    change (ltb (counter 0) size) with (PrimFloat.ltb 0%float size).
    rewrite Hsize. reflexivity.
Qed.

(** A loop that adds up its counter: bound 3 gives 0 + 1 + 2, bound [NaN] no round. *)
Lemma loop_rounds_of_a_whole_bound_witness :
  for_loop 4 3%float 0 (fun k total => Some (total + k)%nat) 0%nat = Some 3%nat
  /\ for_loop 1 nan 0 (fun k total => Some (total + k)%nat) 0%nat = Some 0%nat.
Proof.
  destruct (@loop_rounds_of_a_whole_bound nat (fun k total => Some (total + k)%nat)
              (fun k total => (total + k)%nat) 0%nat (fun k s => eq_refl)) as [Hrounds Hnone].
  split.
  - apply (Hrounds 3%Z 4%nat); [split; [lia | reflexivity] | cbn; lia].
  - apply (Hnone nan 0%nat). reflexivity.
Defined.

(** X10. [generateTerrainData] gives a square matrix without holes: when
    the loops make [n] rounds (the counter, which starts at 0 and to which
    every round adds 1 in the program's arithmetic, is below
    [size = Math.ceil(extent * 2 / resolution)] in the rounds
    [0, ..., n - 1] and not below it after [n] rounds), the terrain has [n]
    rows of [n] entries, and [terrain[z][x]] is the height at
    [((x - size / 2) * resolution, (z - size / 2) * resolution)], whatever
    the center.  Run on fuel for no more than [n] rounds, it has not ended.
    On binary64 the counter stays at [2^53], so that such an [n] is at most
    [2^53] and exists for no size above it. *)
Theorem generated_terrain_is_a_full_square {N : Type} `{Number N} `{Trig N} `{Ceil N}
    (fuel n : nat) (centerLat centerLng resolution extent : N) :
  let size := ceil (div (mul extent (of_Z 2)) resolution) in
  counts_to size n ->
  ((n < fuel)%nat ->
   TerrainModel.generateTerrainData fuel centerLat centerLng resolution extent
   = Some (map (fun z =>
                  Some (map (fun x =>
                               Some (height (grid_line size resolution x)
                                       (grid_line size resolution z)))
                          (seq 0 n)))
             (seq 0 n)))
  /\ ((fuel <= n)%nat ->
      TerrainModel.generateTerrainData fuel centerLat centerLng resolution extent = None).
Proof.
  intros size Hn. split.
  - intros Hfuel. apply generateTerrainData_rounds; assumption.
  - intros Hfuel. unfold TerrainModel.generateTerrainData. fold size.
    destruct fuel as [|fuel]; [reflexivity|]. cbn [for_loop].
    rewrite (proj1 Hn 0%nat) by lia.
    rewrite for_loop_out_of_fuel with (n := n); [reflexivity | exact Hn | lia | lia].
Qed.

(** An extent of 120 at a resolution of 5: 48 rows. *)
Lemma generated_terrain_is_a_full_square_witness :
  option_map (@length _)
    (TerrainModel.generateTerrainData (H0 := unused_trig) 49
       37.77495%float (-122.4192)%float 5%float 120%float)
  = Some 48%nat.
Proof.
  assert (Hn : counts_to (ceil (div (mul 120%float (of_Z 2)) 5%float)) 48).
  { apply (@whole_counts_to 48%Z). split; [lia | reflexivity]. }
  rewrite (proj1 (@generated_terrain_is_a_full_square float float_number unused_trig
                    float_Ceil 49 48 37.77495%float (-122.4192)%float
                    5%float 120%float Hn)) by lia.
  cbn [option_map]. rewrite length_map, length_seq. reflexivity.
Defined.

(** X11. [terrainData] of [PlotlyDroneVisualization], when its loops make
    [n] rounds (the counter, which starts at 0 and to which every round
    adds 1 in the program's arithmetic, is below
    [size = Math.ceil(terrainExtent * 2 / terrainResolution)] in the rounds
    [0, ..., n - 1] and not below it after [n] rounds): [x] and [y] are the
    same [n] values [(k - size / 2) * terrainResolution], and [z] has [n]
    rows of [n] entries, [z[i][j]] being the height at [(x[j], y[i])].  Run
    on fuel for no more than [n] rounds, it has not ended.  On binary64
    the counter stays at [2^53], so that such an [n] is at most [2^53] and
    exists for no size above it. *)
Theorem plotly_terrain_axes_and_grid {N : Type} `{Number N} `{Trig N} `{Ceil N}
    (fuel n : nat) (terrainResolution terrainExtent : N) :
  let size := ceil (div (mul terrainExtent (of_Z 2)) terrainResolution) in
  let pos := grid_line size terrainResolution in
  counts_to size n ->
  ((n < fuel)%nat ->
   PlotlyDroneVisualization.terrainData fuel terrainResolution terrainExtent
   = Some {| td_x := map pos (seq 0 n);
             td_y := map pos (seq 0 n);
             td_z := map (fun i => Some (map (fun j => Some (height (pos j) (pos i)))
                                           (seq 0 n)))
                       (seq 0 n) |})
  /\ ((fuel <= n)%nat ->
      PlotlyDroneVisualization.terrainData fuel terrainResolution terrainExtent = None).
Proof.
  intros size pos Hn. split.
  - intros Hfuel. apply plotly_terrainData_rounds; assumption.
  - intros Hfuel. unfold PlotlyDroneVisualization.terrainData. fold size.
    destruct fuel as [|fuel]; [reflexivity|]. cbn [for_loop].
    rewrite (proj1 Hn 0%nat) by lia.
    rewrite for_loop_out_of_fuel with (n := n); [reflexivity | exact Hn | lia | lia].
Qed.

(** The default resolution 5 and extent 120 of the component: 48 values on each
    axis and 48 rows. *)
Lemma plotly_terrain_axes_and_grid_witness :
  option_map (fun field => (length (td_x field), length (td_y field), length (td_z field)))
    (PlotlyDroneVisualization.terrainData (H0 := unused_trig) 49 5%float 120%float)
  = Some (48, 48, 48)%nat.
Proof.
  assert (Hn : counts_to (ceil (div (mul 120%float (of_Z 2)) 5%float)) 48).
  { apply (@whole_counts_to 48%Z). split; [lia | reflexivity]. }
  rewrite (proj1 (@plotly_terrain_axes_and_grid float float_number unused_trig
                    float_Ceil 49 48 5%float 120%float Hn)) by lia.
  cbn [option_map td_x td_y td_z]. rewrite !length_map, length_seq. reflexivity.
Defined.

(** X12. For a terrain of [n] rows of [n] entries, without holes, the loop
    of [TerrainModel] sets the height of each of the vertices
    [0, ..., n * n - 1] once, in increasing order, and the heights it sets
    are the rows of the terrain one after the other: vertex [z * n + x]
    gets [terrainData[z][x]]. *)
Theorem vertices_get_the_heights_row_by_row {N : Type}
    (entries : list (list N)) (n : nat) :
  length entries = n ->
  Forall (fun row => length row = n) entries ->
  exists calls,
    TerrainModel.setY_calls (map (fun row => Some (map (@Some N) row)) entries) = Some calls
    /\ map fst calls = seq 0 (n * n)
    /\ map snd calls = map (@Some N) (concat entries).
Proof.
  intros Hlen Hrows.
  pose proof (@setY_calls_rounds N (map (fun row => Some (map (@Some N) row)) entries)
                (fun z x => nth_error (nth z entries []) x)) as Hcalls.
  cbv zeta in Hcalls. rewrite length_map, Hlen in Hcalls.
  eexists. split; [apply Hcalls|split].
  - intros z x Hz _. apply read_entry_full.
    apply nth_error_nth'. lia.
  - apply row_major_indices.
  - rewrite <- (row_major_values Hrows 0), Hlen.
    f_equal. rewrite !flat_map_concat_map. f_equal.
    apply map_ext. intros z. apply map_ext. intros x. rewrite Nat.sub_0_r. reflexivity.
Qed.

(** A terrain of 2 rows of 2 entries. *)
Lemma vertices_get_the_heights_row_by_row_witness :
  exists calls,
    TerrainModel.setY_calls
      [Some [Some 1%float; Some 2%float]; Some [Some 3%float; Some 4%float]]
    = Some calls
    /\ map fst calls = [0; 1; 2; 3]%nat
    /\ map snd calls = [Some 1%float; Some 2%float; Some 3%float; Some 4%float].
Proof.
  apply (@vertices_get_the_heights_row_by_row float
           [[1%float; 2%float]; [3%float; 4%float]] 2).
  - reflexivity.
  - repeat constructor.
Defined.

(** X13. In all three views a track point that lies at the center point
    (whose coordinates are finite) is drawn at the horizontal origin, at
    its own altitude and at the index it has in the track: [flightPath] and
    [flightCoordinates] place it at [(0, 0, altitude)], [pathPoints] at
    [(0, altitude, 0)]. *)
Theorem track_point_at_the_center (centerPoint : Center float)
    (trackPoints : list (TrackPoint float)) (k : nat) (point : TrackPoint float) :
  finite (c_longitude centerPoint) ->
  finite (c_latitude centerPoint) ->
  nth_error trackPoints k = Some point ->
  tp_longitude point = c_longitude centerPoint ->
  tp_latitude point = c_latitude centerPoint ->
  nth_error (flightPath centerPoint trackPoints) k
  = Some {| rc_x := 0%float; rc_y := 0%float; rc_z := tp_altitude point |}
  /\ nth_error (PlotlyDroneVisualization.flightCoordinates centerPoint trackPoints) k
     = Some {| rc_x := 0%float; rc_y := 0%float; rc_z := tp_altitude point |}
  /\ nth_error (FlightPath.pathPoints centerPoint trackPoints) k
     = Some {| FlightPath.v_x := 0%float; FlightPath.v_y := tp_altitude point;
               FlightPath.v_z := 0%float |}.
Proof.
  intros Flng Flat Hk Elng Elat.
  unfold flightPath, PlotlyDroneVisualization.flightCoordinates, FlightPath.pathPoints,
    FlightPath.geoToCartesian, convertToRelativeCoords.
  rewrite !nth_error_map, Hk. cbn [option_map rc_x rc_y sub mul float_number].
  rewrite Elng, Elat, (Binary64.sub_diag Flng), (Binary64.sub_diag Flat).
  repeat split.
Qed.

(** A track of one point, which is its own center. *)
Lemma track_point_at_the_center_witness :
  let point := {| tp_latitude := 37.7749%float; tp_longitude := (-122.4194)%float;
                  tp_altitude := 5%float |} in
  nth_error (FlightPath.pathPoints (centerPoint [point]) [point]) 0
  = Some {| FlightPath.v_x := 0%float; FlightPath.v_y := 5%float; FlightPath.v_z := 0%float |}.
Proof.
  intros point.
  apply (@track_point_at_the_center (centerPoint [point]) [point] 0 point);
    reflexivity.
Defined.

(** X14. The views do not share a scale.  In exact arithmetic the
    horizontal coordinates of [flightPath] are those of [flightCoordinates]
    times 111320/111000, at equal altitudes; [pathPoints] has the
    coordinates of [flightCoordinates], with the altitude as y and the
    north-south offset as z. *)
Theorem views_differ_in_scale (centerPoint : Center Q) (trackPoints : list (TrackPoint Q)) :
  Forall2
    (fun advanced plotly =>
       (rc_x advanced * 111000 == rc_x plotly * 111320)%Q /\
       (rc_y advanced * 111000 == rc_y plotly * 111320)%Q /\
       rc_z advanced = rc_z plotly)
    (flightPath centerPoint trackPoints)
    (PlotlyDroneVisualization.flightCoordinates centerPoint trackPoints)
  /\ Forall2
       (fun plotly three =>
          rc_x plotly = FlightPath.v_x three /\
          rc_y plotly = FlightPath.v_z three /\
          rc_z plotly = FlightPath.v_y three)
       (PlotlyDroneVisualization.flightCoordinates centerPoint trackPoints)
       (FlightPath.pathPoints centerPoint trackPoints).
Proof.
  split.
  - induction trackPoints as [|point trackPoints IH]; [constructor|].
    cbn [flightPath PlotlyDroneVisualization.flightCoordinates map]. constructor; [|exact IH].
    unfold convertToRelativeCoords, scale.
    cbn [rc_x rc_y rc_z sub mul of_Z Q_number].
    change (inject_Z 111320) with 111320%Q. change (inject_Z 111000) with 111000%Q.
    repeat split; ring.
  - induction trackPoints as [|point trackPoints IH]; [constructor|].
    cbn [FlightPath.pathPoints PlotlyDroneVisualization.flightCoordinates map].
    constructor; [|exact IH]. repeat split.
Qed.

Lemma for_loop_endless {S : Type} (body : nat -> S -> option S) :
  forall fuel i s, for_loop fuel infinity i body s = None.
Proof.
  induction fuel as [|fuel IH]; intros i s; [reflexivity|].
  cbn [for_loop]. rewrite Binary64Successor.counter_value. cbn [ltb float_number].
  rewrite Binary64Whole.whole_below_infinity by lia.
  destruct (body i s); [apply IH | reflexivity].
Qed.

(** X15. When [Math.ceil(extent * 2 / resolution)] is [Infinity] -- a
    positive extent with a resolution of 0 -- neither [generateTerrainData]
    nor [terrainData] of [PlotlyDroneVisualization] ends: on binary64 every
    counter value is below [Infinity], so no amount of fuel gives a
    result. *)
Theorem infinite_size_never_ends `{Trig float} `{Ceil float} (fuel : nat)
    (centerLat centerLng resolution extent : float) :
  ceil (PrimFloat.div (PrimFloat.mul extent 2%float) resolution) = infinity ->
  TerrainModel.generateTerrainData fuel centerLat centerLng resolution extent = None
  /\ PlotlyDroneVisualization.terrainData fuel resolution extent = None.
Proof.
  intros Hsize.
  unfold TerrainModel.generateTerrainData, PlotlyDroneVisualization.terrainData.
  cbn [mul div of_Z float_number]. change (float_of_Z 2) with 2%float.
  rewrite Hsize, !for_loop_endless. split; reflexivity.
Qed.

(** An extent of 120 at a resolution of 0. *)
Lemma infinite_size_never_ends_witness :
  TerrainModel.generateTerrainData (H0 := unused_trig) 1000
    37.77495%float (-122.4192)%float 0%float 120%float
  = None.
Proof.
  apply (@infinite_size_never_ends unused_trig float_Ceil 1000
           37.77495%float (-122.4192)%float 0%float 120%float).
  vm_compute. reflexivity.
Defined.

(** A size above [2^53] is above every value of the counter. *)
Lemma counter_below (size : float) :
  PrimFloat.ltb 9007199254740992%float size = true ->
  forall k, ltb (counter k) size = true.
Proof.
  intros Hsize k. rewrite Binary64Successor.counter_value. cbn [ltb float_number].
  destruct (Z.lt_ge_cases (Z.of_nat k) (2 ^ 53)) as [L|G].
  - rewrite Z.min_l by lia. apply Binary64.ltb_trans with (2 := Hsize).
    destruct (Z.eq_dec (Z.of_nat k) (2 ^ 53 - 1)) as [E|Hne].
    + rewrite E. vm_compute. reflexivity.
    + apply Binary64.ltb_trans with (float_of_Z (2 ^ 53 - 1)); [|vm_compute; reflexivity].
      rewrite Binary64Counting.whole_ltb by lia. apply Z.ltb_lt. lia.
  - rewrite Z.min_r by lia. exact Hsize.
Qed.

Lemma for_loop_above_the_counter {S : Type} (size : float) (body : nat -> S -> option S) :
  PrimFloat.ltb 9007199254740992%float size = true ->
  forall fuel i s, for_loop fuel size i body s = None.
Proof.
  intros Hsize.
  induction fuel as [|fuel IH]; intros i s; [reflexivity|].
  cbn [for_loop]. rewrite (counter_below Hsize).
  destruct (body i s); [apply IH | reflexivity].
Qed.

(** X16. When [Math.ceil(extent * 2 / resolution)] is above [2^53] -- as
    for an extent of [2^53 + 2] at a resolution of 2 -- neither
    [generateTerrainData] nor [terrainData] of [PlotlyDroneVisualization]
    ends: on binary64 the counter of a loop grows by 1 up to [2^53], where
    adding 1 changes it no more, so that it stays below the size and no
    amount of fuel gives a result. *)
Theorem size_above_two_to_53_never_ends `{Trig float} `{Ceil float} (fuel : nat)
    (centerLat centerLng resolution extent : float) :
  PrimFloat.ltb 9007199254740992%float
    (ceil (PrimFloat.div (PrimFloat.mul extent 2%float) resolution)) = true ->
  TerrainModel.generateTerrainData fuel centerLat centerLng resolution extent = None
  /\ PlotlyDroneVisualization.terrainData fuel resolution extent = None.
Proof.
  intros Hsize.
  unfold TerrainModel.generateTerrainData, PlotlyDroneVisualization.terrainData.
  cbn [mul div of_Z float_number]. change (float_of_Z 2) with 2%float.
  rewrite !(for_loop_above_the_counter _ Hsize). split; reflexivity.
Qed.

(** An extent of [2^53 + 2] at a resolution of 2. *)
Lemma size_above_two_to_53_never_ends_witness :
  PlotlyDroneVisualization.terrainData (H0 := unused_trig) 1000
    2%float 9007199254740994%float
  = None.
Proof.
  apply (@size_above_two_to_53_never_ends unused_trig float_Ceil 1000
           0%float 0%float 2%float 9007199254740994%float).
  vm_compute. reflexivity.
Defined.

(** X17. On binary64 a loop [for (let i = 0; i < size; i++)] that ends
    makes no more than [2^53] rounds, and in each of them, and at the
    end, the counter is the number of the round. *)
Theorem loop_that_ends_is_bounded (size : float) (n : nat) :
  counts_to size n ->
  (Z.of_nat n <= 2 ^ 53)%Z
  /\ forall k, (k <= n)%nat -> counter k = float_of_Z (Z.of_nat k).
Proof.
  intros [Hbelow Hend].
  assert (Hn : (Z.of_nat n <= 2 ^ 53)%Z).
  { destruct (Z.le_gt_cases (Z.of_nat n) (2 ^ 53)) as [L|G]; [exact L|].
    assert (Hk : (Z.to_nat (2 ^ 53) < n)%nat) by lia.
    specialize (Hbelow _ Hk).
    rewrite Binary64Successor.counter_value in Hbelow, Hend.
    rewrite Z2Nat.id, Z.min_r in Hbelow by lia.
    rewrite Z.min_r in Hend by lia. congruence. }
  split; [exact Hn|].
  intros k Hk. apply Binary64Successor.counter_whole. lia.
Qed.

(** The loop of 48 rounds. *)
Lemma loop_that_ends_is_bounded_witness :
  (48 <= 2 ^ 53)%Z /\ counter 48 = 48%float.
Proof.
  assert (Hn : counts_to 48%float 48).
  { apply (@whole_counts_to 48%Z). split; [lia | reflexivity]. }
  destruct (@loop_that_ends_is_bounded 48%float 48 Hn) as [Hle Hk].
  split; [exact Hle | exact (Hk 48%nat (le_n 48))].
Defined.
